(** * vaanilink: gesture classification and lock core of the hand tracker

    Shallow embedding of the two-hand [HandTracker] component
    (src/app/translator/page.tsx, lines 251-984): geometric primitives,
    the single-hand classifier [classifyGesture], the calibration and
    two-hand blocks of [predict], and the lock step with [speak].

    Numbers.  JavaScript numbers that hold coordinates, distances and
    [performance.now()] readings are modelled as exact real numbers
    ([R]): rounding, NaN and infinities are outside that model.  Where a
    property depends on how a threshold test falls when its two sides
    are nearly equal (invariance under scaling), the classifier is
    embedded a second time with every operation rounded ([Rounded]), and
    one borderline test is replayed in binary64 itself ([Binary64]).
    [Date.now()] readings are integers (milliseconds) and are modelled
    as [Z]; the streak counter is a [nat].  The optional [z] field of a
    landmark is never read by the code embedded here and is left out. *)

From Stdlib Require Import Reals Lra Lia Psatz ZArith List String Bool.
From Stdlib Require Import DecimalString.
From Stdlib Require PrimFloat.
Import ListNotations.

Open Scope R_scope.

(** ** Comparisons on numbers, as booleans *)

Definition Rltb (a b : R) : bool := if Rlt_dec a b then true else false.
Definition Rgtb (a b : R) : bool := Rltb b a.
Definition Rgeb (a b : R) : bool := if Rge_dec a b then true else false.
Definition Reqb (a b : R) : bool := if Req_dec_T a b then true else false.

Infix "<?" := Rltb : R_scope.
Infix ">?" := Rgtb : R_scope.
Infix ">=?" := Rgeb : R_scope.
Infix "=?" := Reqb : R_scope.

(** ** Data model *)

(** [type Landmark = { x: number; y: number; z?: number }] *)
Record Landmark : Type := mkLandmark { x : R; y : R }.

(** [type Landmarks = Landmark[]].  An entry may be absent at run time
    (index past the end, or a hole): the code tests every entry it reads
    with [!entry]. *)
Definition Landmarks : Type := list (option Landmark).

(** [landmarks[i]]: [None] is JavaScript's [undefined]. *)
Definition lm_at (landmarks : Landmarks) (i : nat) : option Landmark :=
  match nth_error landmarks i with
  | Some (Some p) => Some p
  | _ => None
  end.

Inductive GestureId : Type :=
| hello | yes | good_okay | no | wait | help | assistance
| thank_you | please | goodbye | water | restroom | stop.

Definition GestureId_eq_dec (a b : GestureId) : {a = b} + {a <> b}.
Proof. decide equality. Defined.

Definition gesture_eqb (a b : GestureId) : bool :=
  if GestureId_eq_dec a b then true else false.

(** [g === 'name'] for [g : GestureId | null]. *)
Definition is_gesture (g : option GestureId) (name : GestureId) : bool :=
  match g with
  | Some a => gesture_eqb a name
  | None => false
  end.

Definition GESTURE_PHRASE (g : GestureId) : string :=
  match g with
  | hello => "Hello"
  | yes => "Yes"
  | good_okay => "Good, okay"
  | no => "No"
  | wait => "Wait"
  | help => "Help"
  | assistance => "I need assistance"
  | thank_you => "Thank you"
  | please => "Please"
  | goodbye => "Goodbye"
  | water => "I need water"
  | restroom => "I need the restroom"
  | stop => "Please stop"
  end%string.

(** ** Geometric primitives *)

Definition dist2 (a b : Landmark) : R :=
  let dx := x a - x b in
  let dy := y a - y b in
  dx * dx + dy * dy.

Definition dist (a b : Landmark) : R := sqrt (dist2 a b).

Definition getHandSize (landmarks : Landmarks) : R :=
  match lm_at landmarks 0, lm_at landmarks 9 with
  | Some wrist, Some middleMcp => dist wrist middleMcp
  | _, _ => 0
  end.

Definition isFingerExtended (landmarks : Landmarks) (mcp pip tip : nat)
    (handSize : R) : bool :=
  match lm_at landmarks 0, lm_at landmarks mcp,
        lm_at landmarks pip, lm_at landmarks tip with
  | Some wrist, Some m, Some p, Some t =>
      let hs2 := Rmax handSize 0.0001 ^ 2 in
      (dist2 t wrist >? dist2 p wrist + 0.16 * hs2)
      && (dist2 p wrist >? dist2 m wrist + 0.08 * hs2)
  | _, _, _, _ => false
  end.

Definition isFingerCurled (landmarks : Landmarks) (mcp pip tip : nat)
    (handSize : R) : bool :=
  match lm_at landmarks 0, lm_at landmarks mcp,
        lm_at landmarks pip, lm_at landmarks tip with
  | Some wrist, Some m, Some p, Some t =>
      let hs2 := Rmax handSize 0.0001 ^ 2 in
      dist2 t wrist + 0.128 * hs2 <? dist2 p wrist
  | _, _, _, _ => false
  end.

Definition isThumbExtended (landmarks : Landmarks) (handSize : R) : bool :=
  match lm_at landmarks 0, lm_at landmarks 4,
        lm_at landmarks 3, lm_at landmarks 2 with
  | Some wrist, Some tip, Some ip, Some mcp =>
      let hs2 := Rmax handSize 0.0001 ^ 2 in
      (dist2 tip wrist >? dist2 ip wrist + 0.128 * hs2)
      && (dist2 ip wrist >? dist2 mcp wrist + 0.064 * hs2)
  | _, _, _, _ => false
  end.

(** ** Tracker state of the classifier *)

(** [waveRef.current] *)
Module Wave.
Record t : Type := mk {
  lastX : option R;
  lastDir : Z;            (* -1 | 0 | 1 *)
  flips : Z;
  startMs : R;
  minX : R;
  maxX : R
}.
(** [{ lastX: null, lastDir: 0, flips: 0, startMs: 0, minX: 1, maxX: 0 }] *)
Definition reset : t := mk None 0%Z 0%Z 0 1 0.
End Wave.

(** [stillRef.current] *)
Module Still.
Record t : Type := mk {
  lastX : option R;
  lastY : option R;
  stillMs : R;
  lastMs : R
}.
(** [{ lastX: null, lastY: null, stillMs: 0, lastMs: 0 }] *)
Definition reset : t := mk None None 0 0.
End Still.

(** The two refs [classifyGesture] mutates; one pair serves both hands. *)
Record Trackers : Type := mkTrackers {
  waveRef : Wave.t;
  stillRef : Still.t
}.

Definition initTrackers : Trackers := mkTrackers Wave.reset Still.reset.

(** [v || d] on numbers: [d] when [v] is 0. *)
Definition orElse (v d : R) : R := if v =? 0 then d else v.

(** ** Single-hand classifier *)

(** The local [hs] of [classifyGesture]:
    [Math.max(handSize, calibrationRef.current.baselineHandSize || 0, 0.0001)]. *)
Definition scaleRef (baselineHandSize : R) (landmarks : Landmarks) : R :=
  Rmax (Rmax (getHandSize landmarks) (orElse baselineHandSize 0)) 0.0001.

(** The boolean locals computed at the top of [classifyGesture]. *)
Record Fingers : Type := mkFingers {
  thumb : bool;
  index : bool;
  middle : bool;
  ring : bool;
  pinky : bool;
  indexCurled : bool;
  middleCurled : bool;
  ringCurled : bool;
  pinkyCurled : bool;
  thumbSpreadOk : bool
}.

Definition readFingers (landmarks : Landmarks) (thumbTip : Landmark)
    (hs : R) : Fingers :=
  {| thumb := isThumbExtended landmarks hs;
     index := isFingerExtended landmarks 5 6 8 hs;
     middle := isFingerExtended landmarks 9 10 12 hs;
     ring := isFingerExtended landmarks 13 14 16 hs;
     pinky := isFingerExtended landmarks 17 18 20 hs;
     indexCurled := isFingerCurled landmarks 5 6 8 hs;
     middleCurled := isFingerCurled landmarks 9 10 12 hs;
     ringCurled := isFingerCurled landmarks 13 14 16 hs;
     pinkyCurled := isFingerCurled landmarks 17 18 20 hs;
     thumbSpreadOk :=
       match lm_at landmarks 5 with
       | Some indexMcp => dist thumbTip indexMcp >? 0.48 * hs
       | None => true
       end |}.

Definition palmFour (f : Fingers) : bool :=
  index f && middle f && ring f && pinky f.

Definition openHand (f : Fingers) : bool :=
  thumbSpreadOk f && thumb f && palmFour f.

Definition fist (f : Fingers) : bool :=
  indexCurled f && middleCurled f && ringCurled f && pinkyCurled f
  && negb (index f) && negb (middle f) && negb (ring f) && negb (pinky f).

Definition fourFingers (f : Fingers) : bool := negb (thumb f) && palmFour f.

Definition waterShape (f : Fingers) : bool :=
  negb (thumb f) && index f && middle f && ring f && negb (pinky f).

(** The condition of the 'assistance' rule (line 624). *)
Definition assistanceShape (f : Fingers) : bool :=
  thumb f && index f && pinky f
  && (middleCurled f || negb (middle f))
  && (ringCurled f || negb (ring f)).

(** The [if (palmFour) { ... }] block: the updated wave state and whether
    the block returned 'goodbye'.  [now] is its [performance.now()]. *)
Definition waveBlock (now : R) (s : Wave.t) (wrist : Landmark) (hs : R)
    : bool * Wave.t :=
  let dx := match Wave.lastX s with
            | None => 0
            | Some lastX => x wrist - lastX
            end in
  let dirThreshold := 0.12 * hs in
  let dir : Z := if dx >? dirThreshold then 1%Z
                 else if dx <? - dirThreshold then (-1)%Z else 0%Z in
  let startMs1 := if Wave.startMs s =? 0 then now else Wave.startMs s in
  let flips1 :=
    if negb (dir =? 0)%Z && negb (Wave.lastDir s =? 0)%Z
       && negb (dir =? Wave.lastDir s)%Z
    then (Wave.flips s + 1)%Z else Wave.flips s in
  let lastDir1 := if negb (dir =? 0)%Z then dir else Wave.lastDir s in
  let s1 := Wave.mk (Some (x wrist)) lastDir1 flips1 startMs1
              (Rmin (Wave.minX s) (x wrist)) (Rmax (Wave.maxX s) (x wrist)) in
  let s2 := if now - Wave.startMs s1 >? 1700
            then Wave.mk (Wave.lastX s1) 0%Z 0%Z now 1 0
            else s1 in
  let amplitude := Wave.maxX s2 - Wave.minX s2 in
  if (now - Wave.startMs s2 >? 450) && (Wave.flips s2 >=? 3)%Z
     && (amplitude >? 0.56 * hs)
  then (true, Wave.mk (Wave.lastX s2) 0%Z 0%Z now 1 0)
  else (false, s2).

(** The [if (openHand || fourFingers) { ... }] block: the gesture it
    returns, if any, and the updated stillness state. *)
Definition stillBlock (now : R) (st : Still.t) (wrist : Landmark)
    : option GestureId * Still.t :=
  let lastMs := orElse (Still.lastMs st) now in
  let dt := now - lastMs in
  let dx := match Still.lastX st with
            | None => 0
            | Some lastX => Rabs (x wrist - lastX)
            end in
  let dy := match Still.lastY st with
            | None => 0
            | Some lastY => Rabs (y wrist - lastY)
            end in
  let isStill := (dx <? 0.012) && (dy <? 0.012) in
  let stillMs1 := if isStill then Still.stillMs st + dt else 0 in
  let st1 := Still.mk (Some (x wrist)) (Some (y wrist)) stillMs1 now in
  let st0 := Still.mk (Some (x wrist)) (Some (y wrist)) 0 now in
  let inStopZone :=
    (x wrist >? 0.25) && (x wrist <? 0.75) && (y wrist <? 0.45) in
  if inStopZone && (stillMs1 >? 650) then (Some stop, st0)
  else
    let inChestZone :=
      (x wrist >? 0.30) && (x wrist <? 0.70) && (y wrist >? 0.45) in
    if (inChestZone && (stillMs1 >? 650)) || (stillMs1 >? 1100)
    then (Some please, st0)
    else (None, st1).

(** The rules after the two tracker blocks (lines 618-643). *)
Definition staticRules (f : Fingers) (wrist thumbTip thumbMcp : Landmark)
    (hs : R) : option GestureId :=
  if waterShape f then Some water
  else if assistanceShape f then Some assistance
  else if fourFingers f then Some thank_you
  else if thumb f && negb (index f) && negb (middle f)
          && negb (ring f) && negb (pinky f) then
    let yThresh := 0.24 * hs in
    let up := y thumbTip <? Rmin (y thumbMcp) (y wrist) - yThresh in
    let down := y thumbTip >? Rmax (y thumbMcp) (y wrist) + yThresh in
    if down then Some no
    else if up then Some good_okay
    else Some good_okay
  else if negb (thumb f) && index f && middle f
          && negb (ring f) && negb (pinky f) then Some help
  else if negb (thumb f) && index f && negb (middle f)
          && negb (ring f) && negb (pinky f) then Some wait
  else if fist f then Some yes
  else if openHand f then Some hello
  else None.

(** [classifyGesture(landmarks)].  [baselineHandSize] is
    [calibrationRef.current.baselineHandSize]; [nowWave] and [nowStill] are
    the readings of the two [performance.now()] calls; the refs are
    passed in and returned. *)
Definition classifyGesture (baselineHandSize nowWave nowStill : R)
    (refs : Trackers) (landmarks : Landmarks) : option GestureId * Trackers :=
  match lm_at landmarks 0, lm_at landmarks 4, lm_at landmarks 2 with
  | Some wrist, Some thumbTip, Some thumbMcp =>
      let hs := scaleRef baselineHandSize landmarks in
      let f := readFingers landmarks thumbTip hs in
      let (waved, wave') :=
        if palmFour f then waveBlock nowWave (waveRef refs) wrist hs
        else (false, Wave.reset) in
      if waved then (Some goodbye, mkTrackers wave' (stillRef refs))
      else
        let (held, still') :=
          if openHand f || fourFingers f
          then stillBlock nowStill (stillRef refs) wrist
          else (None, Still.reset) in
        match held with
        | Some g => (Some g, mkTrackers wave' still')
        | None =>
            (staticRules f wrist thumbTip thumbMcp hs,
             mkTrackers wave' still')
        end
  | _, _, _ => (None, refs)
  end.

(** ** Calibration block of [predict] *)

(** [calibrationRef.current] *)
Record Calibration : Type := mkCalibration {
  baselineHandSize : R;
  brightness : R;
  isReady : bool;
  startedAt : R;
  samples : nat;
  sumHandSize : R;
  sumBrightness : R
}.

(** The value [startCamera] stores, with [performance.now()] = [now]. *)
Definition startCalibration (now : R) : Calibration :=
  mkCalibration 0 0 false now 0 0 0.

(** [lm ? getHandSize(lm) : 0] *)
Definition handSizeOrZero (lm : option Landmarks) : R :=
  match lm with
  | Some l => getHandSize l
  | None => 0
  end.

(** The body of [if (isCalibrating) { ... }] (lines 769-811): the updated
    ref and whether the window was finalized on this frame.  [avg] is the
    brightness sample of the frame, absent when the canvas is unavailable
    or reading it throws. *)
Definition calibrationBlock (now : R) (avg : option R)
    (lm0 lm1 : option Landmarks) (c : Calibration) : Calibration * bool :=
  let elapsed := now - startedAt c in
  let sumB := match avg with
              | Some a => sumBrightness c + a
              | None => sumBrightness c
              end in
  let hs0 := handSizeOrZero lm0 in
  let hs1 := handSizeOrZero lm1 in
  let hs := Rmax hs0 hs1 in
  let sumH := if hs >? 0 then sumHandSize c + hs else sumHandSize c in
  let n := S (samples c) in
  if elapsed >=? 3000 then
    let samples' := Nat.max 1 n in
    (mkCalibration (sumH / INR samples') (sumB / INR samples') true
       (startedAt c) n sumH sumB, true)
  else
    (mkCalibration (baselineHandSize c) (brightness c) (isReady c)
       (startedAt c) n sumH sumB, false).

(** One frame of the calibration window. *)
Record CalibFrame : Type := mkCalibFrame {
  cf_now : R;
  cf_avg : option R;
  cf_lm0 : option Landmarks;
  cf_lm1 : option Landmarks
}.

(** The calibration block over successive frames when React re-renders
    right after the finalizing frame: [isCalibrating] is the React state
    that guards the block, [setIsCalibrating(false)] clears it, and the
    effect then installs a [predict] closure that reads the new state. *)
Fixpoint calibrate (frames : list CalibFrame) (isCalibrating : bool)
    (c : Calibration) : Calibration * bool :=
  match frames with
  | [] => (c, isCalibrating)
  | fr :: rest =>
      if isCalibrating then
        let (c', done) :=
          calibrationBlock (cf_now fr) (cf_avg fr) (cf_lm0 fr) (cf_lm1 fr) c in
        calibrate rest (negb done) c'
      else calibrate rest false c
  end.

(** The calibration block run by one [predict] closure that holds
    [isCalibrating = true]: the closure reschedules itself (line 874) and
    keeps its captured state, so it runs the block on every frame it
    processes, also on frames that come after the finalizing one and
    before React has re-rendered. *)
Fixpoint calibrationRun (frames : list CalibFrame) (c : Calibration)
    : Calibration :=
  match frames with
  | [] => c
  | fr :: rest =>
      calibrationRun rest
        (fst (calibrationBlock (cf_now fr) (cf_avg fr) (cf_lm0 fr)
                (cf_lm1 fr) c))
  end.

(** ** Two-hand combiner of [predict] *)

(** [lm && lm.length > 0 ? classifyGesture(lm) : null] *)
Definition classifyHand (baseline nowWave nowStill : R) (refs : Trackers)
    (lm : option Landmarks) : option GestureId * Trackers :=
  match lm with
  | Some l =>
      if (0 <? List.length l)%nat
      then classifyGesture baseline nowWave nowStill refs l
      else (None, refs)
  | None => (None, refs)
  end.

Definition isOpenPalmGesture (g : option GestureId) : bool :=
  is_gesture g hello || is_gesture g thank_you || is_gesture g please.

(** The [combined] local (lines 817-834). *)
Definition combine (baseline : R) (lm0 lm1 : option Landmarks)
    (g0 g1 : option GestureId) : option GestureId :=
  match lm0, lm1 with
  | Some l0, Some l1 =>
      match lm_at l0 0, lm_at l1 0 with
      | Some wrist0, Some wrist1 =>
          let hs := Rmax (Rmax (Rmax (getHandSize l0) (getHandSize l1))
                            (orElse baseline 0)) 0.0001 in
          let wristsClose := dist wrist0 wrist1 <? 0.55 * hs in
          let lowHands := (y wrist0 >? 0.55) && (y wrist1 >? 0.55) in
          if wristsClose && lowHands && is_gesture g0 yes && is_gesture g1 yes
          then Some restroom
          else if wristsClose && isOpenPalmGesture g0 && isOpenPalmGesture g1
          then Some please
          else None
      | _, _ => None
      end
  | _, _ => None
  end.

(** [a ?? b] *)
Definition nullish {A : Type} (a b : option A) : option A :=
  match a with
  | Some v => Some v
  | None => b
  end.

(** The [performance.now()] readings of the two classifier calls. *)
Record PerfClock : Type := mkPerfClock {
  wave0 : R; still0 : R;
  wave1 : R; still1 : R
}.

(** From the landmarks of a frame to its [candidate] (lines 814-836). *)
Definition frameCandidate (baseline : R) (clk : PerfClock) (refs : Trackers)
    (lm0 lm1 : option Landmarks) : option GestureId * Trackers :=
  let (g0, refs0) := classifyHand baseline (wave0 clk) (still0 clk) refs lm0 in
  let (g1, refs1) := classifyHand baseline (wave1 clk) (still1 clk) refs0 lm1 in
  let combined := combine baseline lm0 lm1 g0 g1 in
  (nullish (nullish combined g0) g1, refs1).

(** ** Lock step of [predict] *)

Definition LOCK_FRAMES : nat := 10.

(** [lockStateRef.current] *)
Record LockState : Type := mkLockState {
  candidate : option GestureId;
  streak : nat
}.

(** The refs the lock step reads and writes. *)
Record LockRefs : Type := mkLockRefs {
  lockStateRef : LockState;
  lastSpokenTime : Z;
  lastSpokenGestureRef : option GestureId;
  lockedGestureRef : option GestureId
}.

(** The refs as [useRef] creates them. *)
Definition initLockRefs : LockRefs :=
  mkLockRefs (mkLockState None 0) 0 None None.

(** What one frame sends out: the [setDetectedText] label, the [onPhrase]
    call (the lock event) and the text handed to the voice engine. *)
Record LockOut : Type := mkLockOut {
  detectedText : option string;
  onPhrase : option (string * GestureId);
  spoken : option string
}.

(** The synchronous head of [speak(text)] (lines 451-457): whether it goes
    on to speak, and the new [lastSpokenTime.current].  [now] is its own
    [Date.now()]. *)
Definition speak (now : Z) (lastSpoken : Z) : bool * Z :=
  if (now - lastSpoken <? 3000)%Z then (false, lastSpoken) else (true, now).

(** Lines 836-868.  [nowMs] is the [Date.now()] of [predict], [speakNow]
    the one of [speak]. *)
Definition lockStep (cand : option GestureId) (nowMs speakNow : Z)
    (r : LockRefs) : LockRefs * LockOut :=
  let lock := lockStateRef r in
  match cand with
  | None =>
      (mkLockRefs (mkLockState None 0) (lastSpokenTime r)
         (lastSpokenGestureRef r) (lockedGestureRef r),
       mkLockOut None None None)
  | Some c =>
      let lock' := if is_gesture (candidate lock) c
                   then mkLockState (candidate lock) (S (streak lock))
                   else mkLockState (Some c) 1 in
      let text := GESTURE_PHRASE c in
      if (LOCK_FRAMES <=? streak lock')%nat then
        let cooldownOk := (nowMs - lastSpokenTime r >=? 2500)%Z in
        if cooldownOk && negb (is_gesture (lastSpokenGestureRef r) c) then
          let (speaks, t') := speak speakNow (lastSpokenTime r) in
          (mkLockRefs lock' t' (Some c) (Some c),
           mkLockOut (Some text) (Some (text, c))
             (if speaks then Some text else None))
        else
          (mkLockRefs lock' (lastSpokenTime r) (lastSpokenGestureRef r)
             (lockedGestureRef r),
           mkLockOut (Some text) None None)
      else
        (mkLockRefs lock' (lastSpokenTime r) (lastSpokenGestureRef r)
           (lockedGestureRef r),
         mkLockOut (Some text) None None)
  end.

(** One frame as the lock step sees it. *)
Record LockFrame : Type := mkLockFrame {
  lf_candidate : option GestureId;
  lf_nowMs : Z;
  lf_speakNow : Z
}.

(** The lock step over successive frames, with the lock events in order. *)
Fixpoint runLock (frames : list LockFrame) (r : LockRefs)
    : LockRefs * list (string * GestureId) :=
  match frames with
  | [] => (r, [])
  | fr :: rest =>
      let (r1, out) :=
        lockStep (lf_candidate fr) (lf_nowMs fr) (lf_speakNow fr) r in
      let (r2, evs) := runLock rest r1 in
      (r2, match onPhrase out with
           | Some ev => ev :: evs
           | None => evs
           end)
  end.

(** The frames of a candidate stream: frame [i] (counted from [start])
    reads [Date.now()] as [t i] in [predict] and as [u i] in [speak]. *)
Fixpoint framesOf (t u : nat -> Z) (start : nat)
    (cands : list (option GestureId)) : list LockFrame :=
  match cands with
  | [] => []
  | c :: rest => mkLockFrame c (t start) (u start) :: framesOf t u (S start) rest
  end.

(** ** One pass of [predict] *)

(** What one animation frame supplies: the detector's hands, the
    brightness sample and the clock readings. *)
Record Frame : Type := mkFrame {
  fr_videoReady : bool;            (* video.readyState >= 2 *)
  fr_lm0 : option Landmarks;       (* results.landmarks?.[0] *)
  fr_lm1 : option Landmarks;       (* results.landmarks?.[1] *)
  fr_calibNow : R;
  fr_avg : option R;
  fr_perf : PerfClock;
  fr_dateNow : Z;
  fr_speakNow : Z
}.

(** The refs and the [isCalibrating] state of one camera session. *)
Record Session : Type := mkSession {
  calibrationRef : Calibration;
  isCalibrating : bool;
  trackers : Trackers;
  lockRefs : LockRefs
}.

(** The body of [predict] (lines 762-873), drawing left out.  The
    calibration block comes first, so the classifier of the finalizing
    frame already reads the new baseline. *)
Definition predict (s : Session) (fr : Frame) : Session * LockOut :=
  if fr_videoReady fr then
    let (cal, calibrating) :=
      if isCalibrating s then
        let (c, done) :=
          calibrationBlock (fr_calibNow fr) (fr_avg fr) (fr_lm0 fr)
            (fr_lm1 fr) (calibrationRef s) in
        (c, negb done)
      else (calibrationRef s, false) in
    let (cand, tr) :=
      frameCandidate (baselineHandSize cal) (fr_perf fr) (trackers s)
        (fr_lm0 fr) (fr_lm1 fr) in
    let (lr, out) :=
      lockStep cand (fr_dateNow fr) (fr_speakNow fr) (lockRefs s) in
    (mkSession cal calibrating tr lr, out)
  else (s, mkLockOut None None None).

(** ** Scaling a hand about its wrist *)

Definition scalePoint (f : R) (wrist p : Landmark) : Landmark :=
  mkLandmark (x wrist + f * (x p - x wrist)) (y wrist + f * (y p - y wrist)).

(** Every present landmark moved to [wrist + f * (p - wrist)]; a hand
    without a wrist is left as it is. *)
Definition scaleAboutWrist (f : R) (landmarks : Landmarks) : Landmarks :=
  match lm_at landmarks 0 with
  | Some wrist => map (option_map (scalePoint f wrist)) landmarks
  | None => landmarks
  end.

(** ** Concrete inputs for the examples *)

(** A [Date.now()] clock at 30 frames a second. *)
Definition clock30 (i : nat) : Z := (1700000000000 + 33 * Z.of_nat i)%Z.

Definition pt (a b : R) : option Landmark := Some (mkLandmark a b).

(** The four landmarks of a finger (MCP, PIP, DIP, TIP) at abscissa [fx],
    for a hand whose wrist is at height 0.8 and whose fingers point up. *)
Definition finger (fx dipY tipY : R) : Landmarks :=
  [pt fx 0.7; pt fx 0.65; pt fx dipY; pt fx tipY].

Definition straight (fx : R) : Landmarks := finger fx 0.6 0.55.
Definition folded (fx : R) : Landmarks := finger fx 0.68 0.72.

(** Landmarks 1-4 of a thumb stretched sideways from a wrist at [wx], and
    of a thumb tucked in. *)
Definition thumbOut (wx : R) : Landmarks :=
  [pt (wx - 0.03) 0.78; pt (wx - 0.05) 0.8; pt (wx - 0.1) 0.8;
   pt (wx - 0.15) 0.8].
Definition thumbIn (wx : R) : Landmarks :=
  [pt (wx - 0.03) 0.78; pt (wx - 0.05) 0.8; pt (wx - 0.04) 0.8;
   pt (wx - 0.03) 0.8].

(** Thumb, index and pinky out, middle and ring folded. *)
Definition handILY : Landmarks :=
  pt 0.5 0.8 :: thumbOut 0.5 ++ straight 0.47 ++ folded 0.5
    ++ folded 0.53 ++ straight 0.56.

(** Four fingers out, thumb tucked in. *)
Definition handFour : Landmarks :=
  pt 0.5 0.8 :: thumbIn 0.5 ++ straight 0.47 ++ straight 0.5
    ++ straight 0.53 ++ straight 0.56.

(** A fist with its wrist at [(wx, 0.8)]. *)
Definition fistAt (wx : R) : Landmarks :=
  pt wx 0.8 :: thumbIn wx ++ folded (wx - 0.03) ++ folded wx
    ++ folded (wx + 0.03) ++ folded (wx + 0.06).

(** A truncated hand: only landmarks 0-8 (wrist, thumb, index finger). *)
Definition handTruncated : Landmarks :=
  pt 0.5 0.8 :: thumbIn 0.5 ++ straight 0.47.

(** A wave tracker 1000 ms into its window (the clock reads 2000) with
    three flips counted and 0.08 of wrist travel. *)
Definition waveMidSwing : Wave.t :=
  Wave.mk (Some 0.5) 1%Z 3%Z 1000 0.45 0.53.

(** ** Aggregates of a calibration window *)

(** The hand-size sample of a frame: [Math.max(hs0, hs1)]. *)
Definition frameHandSize (fr : CalibFrame) : R :=
  Rmax (handSizeOrZero (cf_lm0 fr)) (handSizeOrZero (cf_lm1 fr)).

(** The sum of the positive hand-size samples of the frames. *)
Fixpoint sumPositive (frames : list CalibFrame) : R :=
  match frames with
  | [] => 0
  | fr :: rest =>
      (if frameHandSize fr >? 0 then frameHandSize fr else 0)
      + sumPositive rest
  end.

(** ** Observers of a lock run *)

(** The lock events are well formed after [prev]: no event repeats the
    gesture locked just before it, and each carries the phrase of its
    gesture. *)
Fixpoint eventsAlternate (prev : option GestureId)
    (evs : list (string * GestureId)) : bool :=
  match evs with
  | [] => true
  | (phrase, g) :: rest =>
      negb (is_gesture prev g)
      && String.eqb phrase (GESTURE_PHRASE g)
      && eventsAlternate (Some g) rest
  end.

(** The [Date.now()] readings of [speak] on the frames of a run on which
    the voice engine is used. *)
Fixpoint runSpoken (frames : list LockFrame) (r : LockRefs) : list Z :=
  match frames with
  | [] => []
  | fr :: rest =>
      let (r1, out) :=
        lockStep (lf_candidate fr) (lf_nowMs fr) (lf_speakNow fr) r in
      match spoken out with
      | Some _ => lf_speakNow fr :: runSpoken rest r1
      | None => runSpoken rest r1
      end
  end.

(** Successive readings are at least [gap] apart, the first one at least
    [gap] after [prev]. *)
Fixpoint spacedFrom (gap prev : Z) (ts : list Z) : bool :=
  match ts with
  | [] => true
  | t :: rest => (t - prev >=? gap)%Z && spacedFrom gap t rest
  end.

(** The number of leading entries of a candidate list equal to [Some c],
    and the length of the run of [Some c] that ends the list. *)
Fixpoint leadingRun (c : GestureId) (cs : list (option GestureId)) : nat :=
  match cs with
  | Some a :: rest => if gesture_eqb a c then S (leadingRun c rest) else 0
  | _ => 0
  end.

Definition trailingRun (c : GestureId) (cs : list (option GestureId)) : nat :=
  leadingRun c (rev cs).

(** The lock state a candidate stream leads to: the last candidate, with
    the length of the run of it that ends the stream. *)
Definition lockAfter (cs : list (option GestureId)) : LockState :=
  match rev cs with
  | Some c :: _ => mkLockState (Some c) (trailingRun c cs)
  | _ => mkLockState None 0
  end.

(** The part of the refs that counts towards the next lock: the streak,
    unless the counted candidate is the gesture locked last. *)
Definition lockCredit (r : LockRefs) : nat :=
  match candidate (lockStateRef r) with
  | Some c => if is_gesture (lastSpokenGestureRef r) c then 0
              else streak (lockStateRef r)
  | None => 0
  end.

(** ** Runs of the single-hand classifier *)

(** One call of [classifyGesture]: the baseline it reads, its two clock
    readings and the hand. *)
Record HandFrame : Type := mkHandFrame {
  hf_baseline : R;
  hf_nowWave : R;
  hf_nowStill : R;
  hf_landmarks : Landmarks
}.

(** Successive calls of [classifyGesture] on the same refs, with the
    results in order. *)
Fixpoint classifyRun (frames : list HandFrame) (refs : Trackers)
    : list (option GestureId) * Trackers :=
  match frames with
  | [] => ([], refs)
  | fr :: rest =>
      let (g, refs1) :=
        classifyGesture (hf_baseline fr) (hf_nowWave fr) (hf_nowStill fr)
          refs (hf_landmarks fr) in
      let (gs, refs2) := classifyRun rest refs1 in
      (g :: gs, refs2)
  end.

(** The wave tracker has just been reset, or its extremes lie in
    [lo, hi]. *)
Definition waveWithin (lo hi : R) (s : Wave.t) : Prop :=
  (Wave.minX s = 1 /\ Wave.maxX s = 0)
  \/ (lo <= Wave.minX s /\ Wave.maxX s <= hi).

(** The window of the wave tracker is unset or was opened at [T] or
    later. *)
Definition waveSince (T : R) (s : Wave.t) : Prop :=
  Wave.startMs s = 0 \/ T <= Wave.startMs s.

(** The stillness tracker is unset with nothing accumulated, or was last
    updated at [T] or later and has accumulated no more than the time
    since [T]. *)
Definition stillSince (T : R) (st : Still.t) : Prop :=
  (Still.lastMs st = 0 /\ Still.stillMs st <= 0)
  \/ (T <= Still.lastMs st /\ Still.stillMs st <= Still.lastMs st - T).

(** The finger readings each gesture of the classifier stands for. *)
Definition shapeOf (g : GestureId) (f : Fingers) : bool :=
  match g with
  | goodbye => palmFour f
  | stop | please => openHand f || fourFingers f
  | water => waterShape f
  | assistance => assistanceShape f
  | thank_you => fourFingers f
  | good_okay | no =>
      thumb f && negb (index f) && negb (middle f)
      && negb (ring f) && negb (pinky f)
  | help =>
      negb (thumb f) && index f && middle f
      && negb (ring f) && negb (pinky f)
  | wait =>
      negb (thumb f) && index f && negb (middle f)
      && negb (ring f) && negb (pinky f)
  | yes => fist f && negb (thumb f)
  | hello => openHand f
  | restroom => false
  end.

(** A stillness tracker that has accumulated 700 ms by clock reading
    1900 with the wrist at (0.5, 0.8). *)
Definition stillHeld : Still.t := Still.mk (Some 0.5) (Some 0.8) 700 1900.

(** ** Brightness sample of the calibration block *)

(** [0.2126 * r + 0.7152 * g + 0.0722 * b] *)
Definition luma (r g b : Z) : R :=
  0.2126 * IZR r + 0.7152 * IZR g + 0.0722 * IZR b.

(** The loop [for (let i = 0; i < img.length; i += 4)] over the RGBA
    bytes, with [sum] as accumulator; a missing entry reads as 0
    ([img[i + 1] ?? 0]). *)
Fixpoint lumaLoop (img : list Z) (sum : R) : R :=
  match img with
  | [] => sum
  | r :: rest1 =>
      match rest1 with
      | [] => sum + luma r 0 0
      | g :: rest2 =>
          match rest2 with
          | [] => sum + luma r g 0
          | b :: rest3 =>
              match rest3 with
              | [] => sum + luma r g b
              | _ :: rest => lumaLoop rest (sum + luma r g b)
              end
          end
      end
  end.

(** [avg = sum / (img.length / 4) / 255] (lines 781-789). *)
Definition frameBrightness (img : list Z) : R :=
  lumaLoop img 0 / (INR (List.length img) / 4) / 255.

(** The window is open on the frames and closed by [last]. *)
Definition windowClosedBy (frames : list CalibFrame) (last : CalibFrame)
    (c : Calibration) : Prop :=
  (forall fr, In fr frames -> cf_now fr - startedAt c < 3000)
  /\ cf_now last - startedAt c >= 3000.

(** The sum of the brightness samples that were taken. *)
Fixpoint sumSamples (frames : list CalibFrame) : R :=
  match frames with
  | [] => 0
  | fr :: rest =>
      match cf_avg fr with
      | Some a => a
      | None => 0
      end + sumSamples rest
  end.

(** The accumulators stay within what [samples] frames can contribute. *)
Definition calibrationBounded (M : R) (c : Calibration) : Prop :=
  0 <= sumHandSize c <= M * INR (samples c)
  /\ 0 <= sumBrightness c <= INR (samples c)
  /\ 0 <= baselineHandSize c <= M
  /\ 0 <= brightness c <= 1.

(** The frame's hand-size sample is at most [M] and its brightness sample,
    if taken, lies in [0, 1]. *)
Definition frameBounded (M : R) (fr : CalibFrame) : Prop :=
  frameHandSize fr <= M
  /\ match cf_avg fr with
     | Some a => 0 <= a <= 1
     | None => True
     end.

(** ** The single-hand tracker's vote (src/components/HandTracker.tsx)

    The earlier, single-hand component locks by a vote over the last
    eight non-null classifications instead of a streak.  Its gesture type
    has the first ten of the values of [GestureId]. *)

(** [recent.push(g); if (recent.length > 8) recent.shift();] *)
Definition pushRecent (g : GestureId) (recent : list GestureId)
    : list GestureId :=
  let recent' := recent ++ [g] in
  if (8 <? List.length recent')%nat then tl recent' else recent'.

(** [Map<GestureId, number>], its entries in insertion order. *)
Definition Counts : Type := list (GestureId * nat).

(** [counts.get(k)] *)
Fixpoint mapGet (k : GestureId) (m : Counts) : option nat :=
  match m with
  | [] => None
  | (k', v) :: rest => if gesture_eqb k' k then Some v else mapGet k rest
  end.

(** [counts.set(k, v)]: an existing key keeps its place. *)
Fixpoint mapSet (k : GestureId) (v : nat) (m : Counts) : Counts :=
  match m with
  | [] => [(k, v)]
  | (k', v') :: rest =>
      if gesture_eqb k' k then (k', v) :: rest
      else (k', v') :: mapSet k v rest
  end.

(** [counts.get(k) ?? 0] *)
Definition countOf (k : GestureId) (m : Counts) : nat :=
  match mapGet k m with
  | Some n => n
  | None => 0
  end.

(** [for (const it of recent) counts.set(it, (counts.get(it) ?? 0) + 1)] *)
Definition countVotes (recent : list GestureId) : Counts :=
  fold_left (fun counts it => mapSet it (countOf it counts + 1) counts)
    recent [].

(** The loop over [counts.entries()] that keeps the first entry with the
    largest count: [(best, bestCount)]. *)
Definition pickBest (counts : Counts) : option GestureId * nat :=
  fold_left (fun acc kv =>
               if (snd acc <? snd kv)%nat then (Some (fst kv), snd kv)
               else acc)
    counts (None, 0%nat).

(** The refs of the single-hand component that its [predict] uses. *)
Record LegacyRefs : Type := mkLegacyRefs {
  recentGesturesRef : list GestureId;
  lg_lastSpokenTime : Z;
  lg_lastSpokenGestureRef : option GestureId
}.

(** The body of [if (landmarks && landmarks.length > 0)] of the
    single-hand [predict] (lines 453-482), given the answer [g] of its
    classifier. *)
Definition legacyStep (g : option GestureId) (nowMs speakNow : Z)
    (r : LegacyRefs) : LegacyRefs * LockOut :=
  match g with
  | None => (r, mkLockOut None None None)
  | Some g =>
      let recent := pushRecent g (recentGesturesRef r) in
      let (best, bestCount) := pickBest (countVotes recent) in
      match best with
      | Some b =>
          if (5 <=? bestCount)%nat then
            let text := GESTURE_PHRASE b in
            let cooldownOk := (nowMs - lg_lastSpokenTime r >=? 2500)%Z in
            if cooldownOk
               && negb (is_gesture (lg_lastSpokenGestureRef r) b) then
              let (speaks, t') := speak speakNow (lg_lastSpokenTime r) in
              (mkLegacyRefs recent t' (Some b),
               mkLockOut (Some text) (Some (text, b))
                 (if speaks then Some text else None))
            else
              (mkLegacyRefs recent (lg_lastSpokenTime r)
                 (lg_lastSpokenGestureRef r),
               mkLockOut (Some text) None None)
          else
            (mkLegacyRefs recent (lg_lastSpokenTime r)
               (lg_lastSpokenGestureRef r),
             mkLockOut None None None)
      | None =>
          (mkLegacyRefs recent (lg_lastSpokenTime r)
             (lg_lastSpokenGestureRef r),
           mkLockOut None None None)
      end
  end.

(** The single-hand step over successive frames. *)
Fixpoint legacyRun (frames : list LockFrame) (r : LegacyRefs) : LegacyRefs :=
  match frames with
  | [] => r
  | fr :: rest =>
      legacyRun rest
        (fst (legacyStep (lf_candidate fr) (lf_nowMs fr) (lf_speakNow fr) r))
  end.

(** The last [n] entries of a list, and the non-null entries of a
    stream. *)
Definition lastN {A : Type} (n : nat) (l : list A) : list A :=
  skipn (List.length l - n) l.

Fixpoint somes {A : Type} (l : list (option A)) : list A :=
  match l with
  | [] => []
  | Some a :: rest => a :: somes rest
  | None :: rest => somes rest
  end.

(** Occurrences of a gesture in the window. *)
Definition votesFor (g : GestureId) (recent : list GestureId) : nat :=
  count_occ GestureId_eq_dec recent g.

(** ** Error bodies of the voice route *)

(** A parsed JSON value, as [response.json()] yields it.  An object is the
    list of its properties; a property is read at its first entry.  A
    JavaScript string is held as the bytes of its UTF-8 encoding (a lone
    surrogate as the three bytes of its code point), so that equality,
    emptiness and the search for an ASCII text are those of the bytes. *)
#[warnings="-register-all"]
Inductive JSON : Type :=
| JNull
| JBool (b : bool)
| JNum (n : R)
| JStr (s : string)
| JArr (items : list JSON)
| JObj (fields : list (string * JSON)).

(** What a call ends in: a value, or an exception. *)
Inductive Outcome (A : Type) : Type :=
| Returns (a : A)
| Throws.
Arguments Returns {A} a.
Arguments Throws {A}.

(** [!v] is false *)
Definition truthy (v : JSON) : bool :=
  match v with
  | JNull => false
  | JBool b => b
  | JNum n => negb (n =? 0)
  | JStr s => negb (String.eqb s "")
  | JArr _ | JObj _ => true
  end.

Fixpoint assoc (k : string) (fields : list (string * JSON)) : option JSON :=
  match fields with
  | [] => None
  | (k', v) :: rest => if String.eqb k' k then Some v else assoc k rest
  end.

(** [v?.k] for the keys read here ('detail', 'message'), none of which a
    string, a number, a boolean or an array has: [None] is [undefined]. *)
Definition prop (k : string) (v : option JSON) : option JSON :=
  match v with
  | Some (JObj fields) => assoc k fields
  | _ => None
  end.

(** ['k' in body] for an object *)
Definition hasKey (k : string) (fields : list (string * JSON)) : bool :=
  match assoc k fields with
  | Some _ => true
  | None => false
  end.

(** [typeof msg === 'string' ? msg : null] *)
Definition asString (v : option JSON) : option string :=
  match v with
  | Some (JStr s) => Some s
  | _ => None
  end.

(** [extractSpeakErrorMessage(body)] (lines 274-288).  The [in] operator
    throws a TypeError on a primitive. *)
Definition extractSpeakErrorMessage (body : JSON) : Outcome (option string) :=
  if negb (truthy body) then Returns None
  else
    match body with
    | JObj fields =>
        if hasKey "error" fields then
          Returns (asString (prop "message" (prop "detail"
                                               (assoc "error" fields))))
        else if hasKey "detail" fields then
          Returns (asString (prop "message" (assoc "detail" fields)))
        else Returns None
    | JArr _ => Returns None
    | _ => Throws
    end.

(** ** The whole of [speak] *)

(** What the network and the audio element do on one call of [speak]:
    [fetch] rejects; or the response is ok, and then [response.blob()] may
    throw and [audio.play()] may reject; or the response is an error with
    its status and its body ([None] when [response.json()] throws). *)
Inductive FetchOutcome : Type :=
| FetchFails
| RespOk (blobFails playRejected : bool)
| RespError (status : Z) (body : option JSON).

(** What [speak] does that can be observed. *)
Inductive Effect : Type :=
| EffDetectedText (text : string)      (* setDetectedText *)
| EffFetch (text : string)             (* fetch('/api/speak', ...) *)
| EffAudioPlayed                       (* audio.play() resolved *)
| EffBrowserSpeak (text : string)      (* speechSynthesis.speak *)
| EffToast (description : option string).

(** [speakViaBrowser(text)]; [hasSynth] is ['speechSynthesis' in window]. *)
Definition speakViaBrowser (hasSynth : bool) (text : string) : list Effect :=
  if hasSynth then [EffBrowserSpeak text] else [].

Record SpeakRefs : Type := mkSpeakRefs {
  sp_lastSpokenTime : Z;
  elevenLabsDisabledRef : bool
}.

Definition string_of_Z (z : Z) : string :=
  NilZero.string_of_int (Z.to_int z).

(** The [catch (error)] block of [speak]. *)
Definition speakCatch (hasSynth : bool) (text : string) : list Effect :=
  [EffDetectedText "TTS fallback (device voice)"; EffToast None]
  ++ speakViaBrowser hasSynth text.

(** [speak(text)] (lines 451-513) as one step: the refs afterwards and
    the effects in order.  [now] is its [Date.now()]. *)
Definition speakCall (text : string) (now : Z) (hasSynth : bool)
    (net : FetchOutcome) (r : SpeakRefs) : SpeakRefs * list Effect :=
  if (now - sp_lastSpokenTime r <? 3000)%Z then (r, [])
  else
    let r1 := mkSpeakRefs now (elevenLabsDisabledRef r) in
    let head := [EffDetectedText text] in
    if elevenLabsDisabledRef r then
      (r1, head ++ speakViaBrowser hasSynth text)
    else
      match net with
      | FetchFails => (r1, head ++ [EffFetch text] ++ speakCatch hasSynth text)
      | RespOk blobFails playRejected =>
          if blobFails then
            (r1, head ++ [EffFetch text] ++ speakCatch hasSynth text)
          else if playRejected then
            (r1, head ++ [EffFetch text] ++ speakViaBrowser hasSynth text)
          else (r1, head ++ [EffFetch text; EffAudioPlayed])
      | RespError status body =>
          let errorBody := match body with
                           | Some b => b
                           | None => JNull
                           end in
          match extractSpeakErrorMessage errorBody with
          | Throws =>
              (r1, head ++ [EffFetch text] ++ speakCatch hasSynth text)
          | Returns msg =>
              let errorText :=
                match msg with
                | Some m => m
                | None => ("TTS failed (status " ++ string_of_Z status ++ ")")
                            %string
                end in
              (mkSpeakRefs now
                 ((status =? 401)%Z || (status =? 403)%Z),
               head ++ [EffFetch text;
                        EffDetectedText "TTS fallback (device voice)";
                        EffToast (Some errorText)]
               ++ speakViaBrowser hasSynth text)
          end
      end.

(** The number of times a list of effects gives the phrase a voice. *)
Fixpoint voiced (effects : list Effect) : nat :=
  match effects with
  | [] => 0
  | EffAudioPlayed :: rest => S (voiced rest)
  | EffBrowserSpeak _ :: rest => S (voiced rest)
  | _ :: rest => voiced rest
  end.

Fixpoint fetches (effects : list Effect) : nat :=
  match effects with
  | [] => 0
  | EffFetch _ :: rest => S (fetches rest)
  | _ :: rest => fetches rest
  end.

(** One call of [speak] with what it meets. *)
Record SpeakCall : Type := mkSpeakCall {
  sc_text : string;
  sc_now : Z;
  sc_hasSynth : bool;
  sc_net : FetchOutcome
}.

(** Calls of [speak] one after the other, each settled before the next
    begins, with all their effects in order. *)
Fixpoint speakRun (calls : list SpeakCall) (r : SpeakRefs)
    : SpeakRefs * list Effect :=
  match calls with
  | [] => (r, [])
  | c :: rest =>
      let (r1, effs) :=
        speakCall (sc_text c) (sc_now c) (sc_hasSynth c) (sc_net c) r in
      let (r2, effs') := speakRun rest r1 in
      (r2, effs ++ effs')
  end.

(** A 401 or 403 answer whose body [extractSpeakErrorMessage] accepts. *)
Definition rejectsKey (net : FetchOutcome) : bool :=
  match net with
  | RespError status body =>
      ((status =? 401)%Z || (status =? 403)%Z)
      && match extractSpeakErrorMessage
                 (match body with Some b => b | None => JNull end) with
         | Returns _ => true
         | Throws => false
         end
  | _ => false
  end.

(** ** The translator page *)

(** The string that a [GestureId] is. *)
Definition gestureName (g : GestureId) : string :=
  match g with
  | hello => "hello"
  | yes => "yes"
  | good_okay => "good_okay"
  | no => "no"
  | wait => "wait"
  | help => "help"
  | assistance => "assistance"
  | thank_you => "thank_you"
  | please => "please"
  | goodbye => "goodbye"
  | water => "water"
  | restroom => "restroom"
  | stop => "stop"
  end%string.

Record TranscriptEntry : Type := mkTranscriptEntry {
  te_id : string;
  te_text : string;
  te_gestureId : string;
  te_createdAt : Z
}.

(** The state of [TranslatorPage] that [onPhrase] writes. *)
Record PageState : Type := mkPageState {
  pg_output : string;
  pg_lastGesture : string;
  pg_transcript : list TranscriptEntry
}.

Definition initPage : PageState :=
  mkPageState
    "{Ready for translation... Enable camera and show sign language}"
    "" [].

(** [onPhrase(phrase, gestureId)] of the page (lines 20-27).  [id] is the
    string made of [Date.now()] and [Math.random()], [createdAt] the second
    [Date.now()]. *)
Definition pageOnPhrase (id : string) (createdAt : Z)
    (phrase gestureId : string) (s : PageState) : PageState :=
  mkPageState phrase gestureId
    (firstn 100
       (mkTranscriptEntry id phrase gestureId createdAt :: pg_transcript s)).

(** [subtitle] (lines 96-99) *)
Definition subtitle (s : PageState) : string :=
  if String.eqb (pg_lastGesture s) "" then
    "Enable your camera and show sign language to get instant translations"
  else ("Detected: " ++ pg_lastGesture s)%string.

(** The page fed with the lock events of a tracker, in order; [stamp i]
    gives the id and the clock reading of the call number [i]. *)
Fixpoint pageSession (stamp : nat -> string * Z) (i : nat)
    (evs : list (string * GestureId)) (s : PageState) : PageState :=
  match evs with
  | [] => s
  | (phrase, g) :: rest =>
      pageSession stamp (S i) rest
        (pageOnPhrase (fst (stamp i)) (snd (stamp i)) phrase
           (gestureName g) s)
  end.

(** The entries that the calls of a session make, oldest first. *)
Fixpoint entriesOf (stamp : nat -> string * Z) (i : nat)
    (evs : list (string * GestureId)) : list TranscriptEntry :=
  match evs with
  | [] => []
  | (phrase, g) :: rest =>
      mkTranscriptEntry (fst (stamp i)) phrase (gestureName g) (snd (stamp i))
      :: entriesOf stamp (S i) rest
  end.

(** No two neighbours of the list are equal. *)
Definition NoBackToBack {A : Type} (l : list A) : Prop :=
  forall l1 a b l2, l = l1 ++ a :: b :: l2 -> a <> b.

(** Each element differs from the one before it, the first from [prev]. *)
Fixpoint chain {A : Type} (prev : option A) (l : list A) : Prop :=
  match l with
  | [] => True
  | a :: rest => prev <> Some a /\ chain (Some a) rest
  end.

(** ** The speech route *)

(** A response of [fetch] as the route reads it: its status, its
    content-type header, and what [json()], [text()] and [arrayBuffer()]
    give ([None] when they throw). *)
Record Response : Type := mkResponse {
  rs_status : Z;
  rs_contentType : option string;
  rs_json : option JSON;
  rs_text : option string;
  rs_arrayBuffer : option string
}.

(** [response.ok] *)
Definition rs_ok (res : Response) : bool :=
  (200 <=? rs_status res)%Z && (rs_status res <=? 299)%Z.

(** The requests that the route sends to ElevenLabs. *)
Inductive Outbound : Type :=
| CallVoices (apiKey : string)
| CallTts (apiKey : string) (voiceId : JSON) (text : string) (modelId : JSON).

(** A computation of the route: how it ends, and the requests it has sent
    by then. *)
Definition Route (A : Type) : Type := Outcome A * list Outbound.

Definition routeRet {A : Type} (a : A) : Route A := (Returns a, []).

Definition routeThrow {A : Type} : Route A := (Throws, []).

Definition routeBind {A B : Type} (m : Route A) (k : A -> Route B)
    : Route B :=
  match m with
  | (Returns a, sent) => let (o, sent') := k a in (o, sent ++ sent')
  | (Throws, sent) => (Throws, sent)
  end.

Notation "x <- m ;; k" := (routeBind m (fun x => k))
  (at level 61, m at next level, right associativity).

(** [await fetch(...)]: the request goes out, then the answer [res] comes,
    or the promise rejects. *)
Definition routeFetch (req : Outbound) (res : option Response)
    : Route Response :=
  match res with
  | Some r => (Returns r, [req])
  | None => (Throws, [req])
  end.

(** A value that may be missing because the call that gives it threw. *)
Definition routeTry {A : Type} (v : option A) : Route A :=
  match v with
  | Some a => routeRet a
  | None => routeThrow
  end.

Definition FALLBACK_VOICE_ID : string := "21m00Tcm4TlvDq8ikWAM".
Definition DEFAULT_MODEL_ID : string := "eleven_turbo_v2_5".

(** [voices.find(v => typeof v.voice_id === 'string')?.voice_id]; reading
    [voice_id] of [null] throws. *)
Fixpoint findVoice (items : list JSON) : Outcome (option string) :=
  match items with
  | [] => Returns None
  | JNull :: _ => Throws
  | v :: rest =>
      match prop "voice_id" (Some v) with
      | Some (JStr s) => Returns (Some s)
      | _ => findVoice rest
      end
  end.

(** [if (v)] for a value that may be [undefined] *)
Definition truthyOpt (v : option JSON) : bool :=
  match v with
  | Some j => truthy j
  | None => false
  end.

(** [resolveVoiceId(apiKey, preferredVoiceId)] (lines 12-37).  The
    preferred id is whatever JSON value the request carried. *)
Definition resolveVoiceId (apiKey : string) (preferredVoiceId : option JSON)
    (voicesNet : option Response) : Route JSON :=
  let lookup : Route JSON :=
    voicesRes <- routeFetch (CallVoices apiKey) voicesNet ;;
    if negb (rs_ok voicesRes) then
      if (rs_status voicesRes =? 401)%Z then routeRet (JStr FALLBACK_VOICE_ID)
      else routeThrow
    else
      voicesData <- routeTry (rs_json voicesRes) ;;
      match voicesData with
      | JNull => routeThrow
      | _ =>
          match prop "voices" (Some voicesData) with
          | None | Some JNull => routeThrow
          | Some (JArr items) =>
              match findVoice items with
              | Throws => routeThrow
              | Returns None => routeThrow
              | Returns (Some firstVoiceId) =>
                  if String.eqb firstVoiceId "" then routeThrow
                  else routeRet (JStr firstVoiceId)
              end
          | Some _ => routeThrow
          end
      end in
  match preferredVoiceId with
  | Some v => if truthy v then routeRet v else lookup
  | None => lookup
  end.

(** The bytes of a string. *)
Definition bytesOf (s : string) : list Ascii.ascii := list_ascii_of_string s.

Definition utf8 (codes : list nat) : list Ascii.ascii :=
  map Ascii.ascii_of_nat codes.

(** What [String.prototype.trim] removes, as UTF-8: the WhiteSpace and
    LineTerminator code points of ECMAScript.  One byte: U+0009 to U+000D
    and U+0020; two bytes: U+00A0; three bytes: U+1680, U+2000 to U+200A,
    U+2028, U+2029, U+202F, U+205F, U+3000 and U+FEFF. *)
Definition white1 : list (list Ascii.ascii) :=
  map utf8 [[9]; [10]; [11]; [12]; [13]; [32]]%nat.

Definition white2 : list (list Ascii.ascii) := map utf8 [[194; 160]]%nat.

Definition white3 : list (list Ascii.ascii) :=
  map utf8
    [[225; 154; 128];
     [226; 128; 128]; [226; 128; 129]; [226; 128; 130]; [226; 128; 131];
     [226; 128; 132]; [226; 128; 133]; [226; 128; 134]; [226; 128; 135];
     [226; 128; 136]; [226; 128; 137]; [226; 128; 138];
     [226; 128; 168]; [226; 128; 169]; [226; 128; 175];
     [226; 129; 159]; [227; 128; 128]; [239; 187; 191]]%nat.

Definition whiteSpace : list (list Ascii.ascii) := white1 ++ white2 ++ white3.

(** [l] begins with the bytes [w]. *)
Fixpoint startsWith (w l : list Ascii.ascii) : bool :=
  match w, l with
  | [], _ => true
  | a :: w', b :: l' => Ascii.eqb a b && startsWith w' l'
  | _ :: _, [] => false
  end.

Definition endsWith (w l : list Ascii.ascii) : bool :=
  startsWith (rev w) (rev l).

Definition startsWithAny (ws : list (list Ascii.ascii))
    (l : list Ascii.ascii) : bool :=
  existsb (fun w => startsWith w l) ws.

(** Drop from the front every character of [w1] (one byte each), [w2]
    (two bytes) and [w3] (three bytes), as long as there is one. *)
Fixpoint stripLeading (w1 w2 w3 : list (list Ascii.ascii))
    (l : list Ascii.ascii) : list Ascii.ascii :=
  match l with
  | [] => []
  | _ :: r1 =>
      if startsWithAny w1 l then stripLeading w1 w2 w3 r1
      else
        match r1 with
        | [] => l
        | _ :: r2 =>
            if startsWithAny w2 l then stripLeading w1 w2 w3 r2
            else
              match r2 with
              | [] => l
              | _ :: r3 =>
                  if startsWithAny w3 l then stripLeading w1 w2 w3 r3
                  else l
              end
        end
  end.

Definition trimStart (l : list Ascii.ascii) : list Ascii.ascii :=
  stripLeading white1 white2 white3 l.

(** From the end, the same characters read backwards. *)
Definition trimEnd (l : list Ascii.ascii) : list Ascii.ascii :=
  rev (stripLeading (map (@rev _) white1) (map (@rev _) white2)
         (map (@rev _) white3) (rev l)).

(** [s.trim()] *)
Definition trim (s : string) : string :=
  string_of_list_ascii (trimEnd (trimStart (bytesOf s))).

(** A run of white space. *)
Definition AllWhite (l : list Ascii.ascii) : Prop :=
  exists ws, Forall (fun w => In w whiteSpace) ws /\ l = List.concat ws.

(** [hay.includes(needle)] *)
Fixpoint includes (needle hay : string) : bool :=
  String.prefix needle hay
  || match hay with
     | EmptyString => false
     | String _ rest => includes needle rest
     end.

(** [a ?? b] *)
Definition coalesce (a b : option JSON) : option JSON :=
  match a with
  | None | Some JNull => b
  | Some v => Some v
  end.

(** What the route answers. *)
Inductive RouteResponse : Type :=
| JsonResponse (status : Z) (body : JSON)
| AudioResponse (bytes : string).

(** [NextResponse.json(body, { status })]: the constructor of a response
    throws on a status outside 200..599 and on a body with a status that
    allows none (204, 205 and 304 in that range). *)
Definition nextJson (body : JSON) (status : Z) : Route RouteResponse :=
  if (200 <=? status)%Z && (status <=? 599)%Z
     && negb ((status =? 204)%Z || (status =? 205)%Z || (status =? 304)%Z)
  then routeRet (JsonResponse status body)
  else routeThrow.

Definition errorBody (e : JSON) : JSON := JObj [("error"%string, e)].

(** [body.text?.trim()]: reading [text] of [null] throws, and so does
    calling [trim] on what is neither missing nor a string. *)
Definition requestText (body : JSON) : Route (option string) :=
  match body with
  | JNull => routeThrow
  | _ =>
      match prop "text" (Some body) with
      | None | Some JNull => routeRet None
      | Some (JStr s) => routeRet (Some (trim s))
      | Some _ => routeThrow
      end
  end.

(** [body.voiceId ?? process.env.ELEVENLABS_VOICE_ID] *)
Definition requestVoice (body : JSON) (envVoice : option string)
    : option JSON :=
  coalesce (prop "voiceId" (Some body)) (option_map JStr envVoice).

(** [body.modelId ?? DEFAULT_MODEL_ID] *)
Definition requestModel (body : JSON) : JSON :=
  match coalesce (prop "modelId" (Some body))
          (Some (JStr DEFAULT_MODEL_ID)) with
  | Some m => m
  | None => JStr DEFAULT_MODEL_ID
  end.

(** The [try] block of [POST] (lines 40-92).  [reqJson] is what
    [req.json()] gives, [envKey] and [envVoice] the two environment
    variables, [voicesNet] and [ttsNet] what the two requests meet. *)
Definition POST_try (reqJson : option JSON) (envKey envVoice : option string)
    (voicesNet ttsNet : option Response) : Route RouteResponse :=
  body <- routeTry reqJson ;;
  text <- requestText body ;;
  let preferredVoiceId := requestVoice body envVoice in
  let modelId := requestModel body in
  match envKey with
  | None => nextJson (errorBody (JStr "API Key not configured")) 500
  | Some ELEVENLABS_API_KEY =>
      if String.eqb ELEVENLABS_API_KEY "" then
        nextJson (errorBody (JStr "API Key not configured")) 500
      else
        match text with
        | None => nextJson (errorBody (JStr "Missing text")) 400
        | Some text =>
            if String.eqb text "" then
              nextJson (errorBody (JStr "Missing text")) 400
            else
              voiceId <-
                resolveVoiceId ELEVENLABS_API_KEY preferredVoiceId voicesNet ;;
              response <-
                routeFetch (CallTts ELEVENLABS_API_KEY voiceId text modelId)
                  ttsNet ;;
              if negb (rs_ok response) then
                let contentType :=
                  match rs_contentType response with
                  | Some c => if String.eqb c "" then ""%string else c
                  | None => ""%string
                  end in
                errorData <-
                  (if includes "application/json" contentType
                   then routeTry (rs_json response)
                   else routeTry (option_map JStr (rs_text response))) ;;
                nextJson (errorBody errorData) (rs_status response)
              else
                audioBuffer <- routeTry (rs_arrayBuffer response) ;;
                routeRet (AudioResponse audioBuffer)
        end
  end.

(** [POST(req)]: the [catch] block answers 500. *)
Definition POST (reqJson : option JSON) (envKey envVoice : option string)
    (voicesNet ttsNet : option Response) : RouteResponse * list Outbound :=
  match POST_try reqJson envKey envVoice voicesNet ttsNet with
  | (Returns res, sent) => (res, sent)
  | (Throws, sent) =>
      (JsonResponse 500 (errorBody (JStr "Internal Server Error")), sent)
  end.

(** The requests for speech among those sent. *)
Fixpoint ttsCalls (sent : list Outbound) : list Outbound :=
  match sent with
  | [] => []
  | CallTts k v t m :: rest => CallTts k v t m :: ttsCalls rest
  | _ :: rest => ttsCalls rest
  end.

(** A voices listing whose first entry has no [voice_id]. *)
Definition sampleVoices : Response :=
  mkResponse 200 None
    (Some (JObj [("voices"%string,
                  JArr [JObj [("name"%string, JStr "a")];
                        JObj [("voice_id"%string, JStr "v2")]])]))
    None None.

(** A request for speech with a preferred voice, and an answer of
    ElevenLabs that rejects the key. *)
Definition sampleRequest : JSON :=
  JObj [("text"%string, JStr "  Hello ");
        ("voiceId"%string, JStr "v1")].

Definition sampleRejection : Response :=
  mkResponse 401 (Some "application/json"%string)
    (Some (JObj [("detail"%string,
                  JObj [("status"%string, JStr "invalid_api_key");
                        ("message"%string, JStr "Invalid API key")])]))
    None None.

(** ** The classifier in rounded arithmetic

    The same code with every arithmetic operation on numbers followed by
    a rounding: [rnd] stands for the rounding of binary64 (a sum, a
    difference, a product, a square root and a decimal literal are the
    exact value rounded), [pow2] for [x ** 2].  Comparisons, [Math.max],
    [Math.min], [Math.abs] and negation are exact.  [Laws] is what the
    theorems assume of the two: binary64 with rounding to nearest meets
    it with room to spare (its unit roundoff is 2^-53 and its smallest
    positive number 2^-1074). *)
Module Rounded.

(** A relative error bound, 2^-50, and an absolute one, 2^-200, for results
    too small for the relative bound; [big], 2^30, bounds the values an
    operation is applied to. *)
Definition u : R := / 1125899906842624.
Definition eta : R :=
  / 1606938044258990275541962092341162602522202993782792835301376.
Definition big : R := 1073741824.

Record Laws (rnd pow2 : R -> R) : Prop := mkLaws {
  rnd_acc : forall v, Rabs v <= big -> Rabs (rnd v - v) <= u * Rabs v + eta;
  rnd_nonneg : forall v, 0 <= v -> 0 <= rnd v;
  pow2_acc : forall a,
    Rabs a <= big -> Rabs (pow2 a - a * a) <= u * (a * a) + eta
}.

Section Arith.
Variables rnd pow2 : R -> R.

Definition lit (c : R) : R := rnd c.
Definition add (a b : R) : R := rnd (a + b).
Definition sub (a b : R) : R := rnd (a - b).
Definition mul (a b : R) : R := rnd (a * b).

Definition dist2 (a b : Landmark) : R :=
  let dx := sub (x a) (x b) in
  let dy := sub (y a) (y b) in
  add (mul dx dx) (mul dy dy).

Definition dist (a b : Landmark) : R := rnd (sqrt (dist2 a b)).

Definition getHandSize (landmarks : Landmarks) : R :=
  match lm_at landmarks 0, lm_at landmarks 9 with
  | Some wrist, Some middleMcp => dist wrist middleMcp
  | _, _ => 0
  end.

Definition isFingerExtended (landmarks : Landmarks) (mcp pip tip : nat)
    (handSize : R) : bool :=
  match lm_at landmarks 0, lm_at landmarks mcp,
        lm_at landmarks pip, lm_at landmarks tip with
  | Some wrist, Some m, Some p, Some t =>
      let hs2 := pow2 (Rmax handSize (lit 0.0001)) in
      (dist2 t wrist >? add (dist2 p wrist) (mul (lit 0.16) hs2))
      && (dist2 p wrist >? add (dist2 m wrist) (mul (lit 0.08) hs2))
  | _, _, _, _ => false
  end.

Definition isFingerCurled (landmarks : Landmarks) (mcp pip tip : nat)
    (handSize : R) : bool :=
  match lm_at landmarks 0, lm_at landmarks mcp,
        lm_at landmarks pip, lm_at landmarks tip with
  | Some wrist, Some m, Some p, Some t =>
      let hs2 := pow2 (Rmax handSize (lit 0.0001)) in
      add (dist2 t wrist) (mul (lit 0.128) hs2) <? dist2 p wrist
  | _, _, _, _ => false
  end.

Definition isThumbExtended (landmarks : Landmarks) (handSize : R) : bool :=
  match lm_at landmarks 0, lm_at landmarks 4,
        lm_at landmarks 3, lm_at landmarks 2 with
  | Some wrist, Some tip, Some ip, Some mcp =>
      let hs2 := pow2 (Rmax handSize (lit 0.0001)) in
      (dist2 tip wrist >? add (dist2 ip wrist) (mul (lit 0.128) hs2))
      && (dist2 ip wrist >? add (dist2 mcp wrist) (mul (lit 0.064) hs2))
  | _, _, _, _ => false
  end.

Definition scaleRef (baselineHandSize : R) (landmarks : Landmarks) : R :=
  Rmax (Rmax (getHandSize landmarks) (orElse baselineHandSize 0))
    (lit 0.0001).

Definition readFingers (landmarks : Landmarks) (thumbTip : Landmark)
    (hs : R) : Fingers :=
  {| thumb := isThumbExtended landmarks hs;
     index := isFingerExtended landmarks 5 6 8 hs;
     middle := isFingerExtended landmarks 9 10 12 hs;
     ring := isFingerExtended landmarks 13 14 16 hs;
     pinky := isFingerExtended landmarks 17 18 20 hs;
     indexCurled := isFingerCurled landmarks 5 6 8 hs;
     middleCurled := isFingerCurled landmarks 9 10 12 hs;
     ringCurled := isFingerCurled landmarks 13 14 16 hs;
     pinkyCurled := isFingerCurled landmarks 17 18 20 hs;
     thumbSpreadOk :=
       match lm_at landmarks 5 with
       | Some indexMcp => dist thumbTip indexMcp >? mul (lit 0.48) hs
       | None => true
       end |}.

Definition waveBlock (now : R) (s : Wave.t) (wrist : Landmark) (hs : R)
    : bool * Wave.t :=
  let dx := match Wave.lastX s with
            | None => 0
            | Some lastX => sub (x wrist) lastX
            end in
  let dirThreshold := mul (lit 0.12) hs in
  let dir : Z := if dx >? dirThreshold then 1%Z
                 else if dx <? - dirThreshold then (-1)%Z else 0%Z in
  let startMs1 := if Wave.startMs s =? 0 then now else Wave.startMs s in
  let flips1 :=
    if negb (dir =? 0)%Z && negb (Wave.lastDir s =? 0)%Z
       && negb (dir =? Wave.lastDir s)%Z
    then (Wave.flips s + 1)%Z else Wave.flips s in
  let lastDir1 := if negb (dir =? 0)%Z then dir else Wave.lastDir s in
  let s1 := Wave.mk (Some (x wrist)) lastDir1 flips1 startMs1
              (Rmin (Wave.minX s) (x wrist)) (Rmax (Wave.maxX s) (x wrist)) in
  let s2 := if sub now (Wave.startMs s1) >? 1700
            then Wave.mk (Wave.lastX s1) 0%Z 0%Z now 1 0
            else s1 in
  let amplitude := sub (Wave.maxX s2) (Wave.minX s2) in
  if (sub now (Wave.startMs s2) >? 450) && (Wave.flips s2 >=? 3)%Z
     && (amplitude >? mul (lit 0.56) hs)
  then (true, Wave.mk (Wave.lastX s2) 0%Z 0%Z now 1 0)
  else (false, s2).

Definition stillBlock (now : R) (st : Still.t) (wrist : Landmark)
    : option GestureId * Still.t :=
  let lastMs := orElse (Still.lastMs st) now in
  let dt := sub now lastMs in
  let dx := match Still.lastX st with
            | None => 0
            | Some lastX => Rabs (sub (x wrist) lastX)
            end in
  let dy := match Still.lastY st with
            | None => 0
            | Some lastY => Rabs (sub (y wrist) lastY)
            end in
  let isStill := (dx <? lit 0.012) && (dy <? lit 0.012) in
  let stillMs1 := if isStill then add (Still.stillMs st) dt else 0 in
  let st1 := Still.mk (Some (x wrist)) (Some (y wrist)) stillMs1 now in
  let st0 := Still.mk (Some (x wrist)) (Some (y wrist)) 0 now in
  let inStopZone :=
    (x wrist >? lit 0.25) && (x wrist <? lit 0.75)
    && (y wrist <? lit 0.45) in
  if inStopZone && (stillMs1 >? 650) then (Some stop, st0)
  else
    let inChestZone :=
      (x wrist >? lit 0.30) && (x wrist <? lit 0.70)
      && (y wrist >? lit 0.45) in
    if (inChestZone && (stillMs1 >? 650)) || (stillMs1 >? 1100)
    then (Some please, st0)
    else (None, st1).

Definition staticRules (f : Fingers) (wrist thumbTip thumbMcp : Landmark)
    (hs : R) : option GestureId :=
  if waterShape f then Some water
  else if assistanceShape f then Some assistance
  else if fourFingers f then Some thank_you
  else if thumb f && negb (index f) && negb (middle f)
          && negb (ring f) && negb (pinky f) then
    let yThresh := mul (lit 0.24) hs in
    let up := y thumbTip <? sub (Rmin (y thumbMcp) (y wrist)) yThresh in
    let down := y thumbTip >? add (Rmax (y thumbMcp) (y wrist)) yThresh in
    if down then Some no
    else if up then Some good_okay
    else Some good_okay
  else if negb (thumb f) && index f && middle f
          && negb (ring f) && negb (pinky f) then Some help
  else if negb (thumb f) && index f && negb (middle f)
          && negb (ring f) && negb (pinky f) then Some wait
  else if fist f then Some yes
  else if openHand f then Some hello
  else None.

Definition classifyGesture (baselineHandSize nowWave nowStill : R)
    (refs : Trackers) (landmarks : Landmarks) : option GestureId * Trackers :=
  match lm_at landmarks 0, lm_at landmarks 4, lm_at landmarks 2 with
  | Some wrist, Some thumbTip, Some thumbMcp =>
      let hs := scaleRef baselineHandSize landmarks in
      let f := readFingers landmarks thumbTip hs in
      let (waved, wave') :=
        if palmFour f then waveBlock nowWave (waveRef refs) wrist hs
        else (false, Wave.reset) in
      if waved then (Some goodbye, mkTrackers wave' (stillRef refs))
      else
        let (held, still') :=
          if openHand f || fourFingers f
          then stillBlock nowStill (stillRef refs) wrist
          else (None, Still.reset) in
        match held with
        | Some g => (Some g, mkTrackers wave' still')
        | None =>
            (staticRules f wrist thumbTip thumbMcp hs,
             mkTrackers wave' still')
        end
  | _, _, _ => (None, refs)
  end.
End Arith.
End Rounded.

(** ** Margins of the threshold tests *)

(** The two sides of a test differ by more than 2^-44 of their size. *)
Definition tau : R := / 17592186044416.

Definition apart (a b : R) : Prop := Rabs (a - b) > tau * (Rabs a + Rabs b).

(** The two tests of [isFingerExtended] and of [isThumbExtended], with
    coefficients [c1] and [c2]. *)
Definition decisiveExtended (landmarks : Landmarks) (mcp pip tip : nat)
    (c1 c2 hs : R) : Prop :=
  match lm_at landmarks 0, lm_at landmarks mcp,
        lm_at landmarks pip, lm_at landmarks tip with
  | Some wrist, Some m, Some p, Some t =>
      apart (dist2 t wrist) (dist2 p wrist + c1 * hs ^ 2)
      /\ apart (dist2 p wrist) (dist2 m wrist + c2 * hs ^ 2)
  | _, _, _, _ => True
  end.

Definition decisiveCurled (landmarks : Landmarks) (mcp pip tip : nat)
    (hs : R) : Prop :=
  match lm_at landmarks 0, lm_at landmarks mcp,
        lm_at landmarks pip, lm_at landmarks tip with
  | Some wrist, Some m, Some p, Some t =>
      apart (dist2 t wrist + 0.128 * hs ^ 2) (dist2 p wrist)
  | _, _, _, _ => True
  end.

(** Every threshold test on the shape of the hand is decided by a margin:
    the finger and thumb tests, the thumb spread test and the thumb-down
    test. *)
Definition decisive (baselineHandSize : R) (landmarks : Landmarks) : Prop :=
  let hs := scaleRef baselineHandSize landmarks in
  decisiveExtended landmarks 2 3 4 0.128 0.064 hs
  /\ decisiveExtended landmarks 5 6 8 0.16 0.08 hs
  /\ decisiveExtended landmarks 9 10 12 0.16 0.08 hs
  /\ decisiveExtended landmarks 13 14 16 0.16 0.08 hs
  /\ decisiveExtended landmarks 17 18 20 0.16 0.08 hs
  /\ decisiveCurled landmarks 5 6 8 hs
  /\ decisiveCurled landmarks 9 10 12 hs
  /\ decisiveCurled landmarks 13 14 16 hs
  /\ decisiveCurled landmarks 17 18 20 hs
  /\ match lm_at landmarks 4, lm_at landmarks 5 with
     | Some thumbTip, Some indexMcp =>
         apart (dist thumbTip indexMcp) (0.48 * hs)
     | _, _ => True
     end
  /\ match lm_at landmarks 0, lm_at landmarks 4, lm_at landmarks 2 with
     | Some wrist, Some thumbTip, Some thumbMcp =>
         Rabs (y thumbTip - (Rmax (y thumbMcp) (y wrist) + 0.24 * hs))
         > tau * (Rabs (y thumbMcp) + Rabs (y wrist) + hs)
     | _, _, _ => True
     end.

(** Coordinates and baseline of a size the camera can give: at most 1024
    in absolute value. *)
Definition inRange (baselineHandSize : R) (landmarks : Landmarks) : Prop :=
  Rabs baselineHandSize <= 1024
  /\ forall i p, lm_at landmarks i = Some p ->
                 Rabs (x p) <= 1024 /\ Rabs (y p) <= 1024.

(** ** A threshold test in binary64

    The two tests of [isFingerExtended] on four present landmarks, in the
    binary64 arithmetic of the machine, to replay a borderline finger.
    [x ** 2] is taken as the product [x * x], rounded. *)
Module Binary64.
Import PrimFloat.

(** [Math.max(a, b)] *)
Definition max (a b : float) : float :=
  if is_nan a || is_nan b then nan
  else if ltb a b then b
  else if eqb a b && get_sign a then b
  else a.

Definition dist2 (a b : float * float) : float :=
  let dx := sub (fst a) (fst b) in
  let dy := sub (snd a) (snd b) in
  add (mul dx dx) (mul dy dy).

#[warnings="-inexact-float"]
Definition isFingerExtended (wrist m p t : float * float)
    (handSize : float) : bool :=
  let hs := max handSize 0.0001%float in
  let hs2 := mul hs hs in
  ltb (add (dist2 p wrist) (mul 0.16%float hs2)) (dist2 t wrist)
  && ltb (add (dist2 m wrist) (mul 0.08%float hs2)) (dist2 p wrist).

(** A finger pointing up from a wrist at (0.5, 0.75), and a scale
    reference for which the first test is borderline. *)
Definition wristPoint : float * float := (0.5%float, 0.75%float).
Definition mcpPoint : float * float := (0.5%float, 0.734375%float).
Definition pipPoint : float * float := (0.5%float, 0.671875%float).
Definition tipPoint : float * float := (0.5%float, 0.625%float).
Definition reference : float := 0x1.f3998f1b1886cp-3%float.

(** The point moved to [wrist + 1.5 * (p - wrist)], and the reference
    times 1.5. *)
Definition scalePoint (p : float * float) : float * float :=
  (add (fst wristPoint) (mul 1.5%float (sub (fst p) (fst wristPoint))),
   add (snd wristPoint) (mul 1.5%float (sub (snd p) (snd wristPoint)))).
Definition referenceScaled : float := mul reference 1.5%float.
End Binary64.

(** ** Theorems *)

Lemma Rltb_true a b : a < b -> (a <? b) = true.
Proof. unfold Rltb. destruct (Rlt_dec a b); tauto. Qed.

Lemma Rltb_false a b : b <= a -> (a <? b) = false.
Proof. unfold Rltb. destruct (Rlt_dec a b); [lra | reflexivity]. Qed.

Lemma Rltb_spec a b : (a <? b) = true <-> a < b.
Proof.
  unfold Rltb. destruct (Rlt_dec a b); split; intros; try tauto; discriminate.
Qed.

Lemma Rgtb_spec a b : (a >? b) = true <-> a > b.
Proof. unfold Rgtb. rewrite Rltb_spec. lra. Qed.

Lemma hs2_nonneg h : 0 <= Rmax h 0.0001 ^ 2.
Proof. apply pow2_ge_0. Qed.

Lemma extended_curled_exclusive landmarks mcp pip tip handSize :
  isFingerExtended landmarks mcp pip tip handSize = true ->
  isFingerCurled landmarks mcp pip tip handSize = true -> False.
Proof.
  unfold isFingerExtended, isFingerCurled.
  destruct (lm_at landmarks 0) as [w|]; [|discriminate].
  destruct (lm_at landmarks mcp) as [m|]; [|discriminate].
  destruct (lm_at landmarks pip) as [p|]; [|discriminate].
  destruct (lm_at landmarks tip) as [t|]; [|discriminate].
  cbv zeta. rewrite andb_true_iff, !Rgtb_spec, Rltb_spec.
  intros [H1 _] H2. pose proof (hs2_nonneg handSize). lra.
Qed.

(** *** The lock step *)

Lemma gesture_eqb_refl c : gesture_eqb c c = true.
Proof. unfold gesture_eqb. destruct (GestureId_eq_dec c c); congruence. Qed.

Lemma is_gesture_iff g c : is_gesture g c = true <-> g = Some c.
Proof.
  destruct g as [a|]; simpl; [|split; discriminate].
  unfold gesture_eqb. destruct (GestureId_eq_dec a c); split; congruence.
Qed.

Lemma is_gesture_neq g c : g <> Some c -> is_gesture g c = false.
Proof.
  intros H. destruct (is_gesture g c) eqn:E; [|reflexivity].
  apply is_gesture_iff in E. contradiction.
Qed.

Lemma is_gesture_same c : is_gesture (Some c) c = true.
Proof. apply is_gesture_iff. reflexivity. Qed.

(** A frame that only extends the streak below the threshold. *)
Lemma lockStep_quiet c k nowMs speakNow ts g lg :
  (S k < LOCK_FRAMES)%nat ->
  lockStep (Some c) nowMs speakNow (mkLockRefs (mkLockState (Some c) k) ts g lg)
  = (mkLockRefs (mkLockState (Some c) (S k)) ts g lg,
     mkLockOut (Some (GESTURE_PHRASE c)) None None).
Proof.
  intros H. unfold lockStep. cbn [lockStateRef candidate streak].
  rewrite is_gesture_same. cbn [streak].
  destruct (Nat.leb_spec LOCK_FRAMES (S k)); [lia | reflexivity].
Qed.

(** A frame whose candidate differs from the one being counted. *)
Lemma lockStep_new c r nowMs speakNow :
  candidate (lockStateRef r) <> Some c ->
  lockStep (Some c) nowMs speakNow r
  = (mkLockRefs (mkLockState (Some c) 1) (lastSpokenTime r)
       (lastSpokenGestureRef r) (lockedGestureRef r),
     mkLockOut (Some (GESTURE_PHRASE c)) None None).
Proof.
  intros H. unfold lockStep. rewrite (is_gesture_neq _ _ H). reflexivity.
Qed.

(** A frame of the gesture that was locked last never emits. *)
Lemma lockStep_suppressed c k nowMs speakNow ts lg :
  lockStep (Some c) nowMs speakNow
    (mkLockRefs (mkLockState (Some c) k) ts (Some c) lg)
  = (mkLockRefs (mkLockState (Some c) (S k)) ts (Some c) lg,
     mkLockOut (Some (GESTURE_PHRASE c)) None None).
Proof.
  unfold lockStep.
  cbn [lockStateRef candidate streak lastSpokenGestureRef lastSpokenTime
       lockedGestureRef].
  rewrite is_gesture_same. cbn [streak negb]. rewrite andb_false_r.
  destruct (LOCK_FRAMES <=? S k)%nat; reflexivity.
Qed.

(** The frame on which the lock is emitted. *)
Lemma lockStep_fire c k nowMs speakNow ts g lg :
  (LOCK_FRAMES <= S k)%nat ->
  (nowMs - ts >= 2500)%Z ->
  g <> Some c ->
  lockStep (Some c) nowMs speakNow (mkLockRefs (mkLockState (Some c) k) ts g lg)
  = (mkLockRefs (mkLockState (Some c) (S k)) (snd (speak speakNow ts))
       (Some c) (Some c),
     mkLockOut (Some (GESTURE_PHRASE c)) (Some (GESTURE_PHRASE c, c))
       (if fst (speak speakNow ts) then Some (GESTURE_PHRASE c) else None)).
Proof.
  intros Hk Hcool Hg. unfold lockStep.
  cbn [lockStateRef candidate streak lastSpokenGestureRef lastSpokenTime
       lockedGestureRef].
  rewrite is_gesture_same. cbn [streak].
  destruct (Nat.leb_spec LOCK_FRAMES (S k)); [|lia].
  rewrite (is_gesture_neq _ _ Hg).
  destruct (Z.geb_spec (nowMs - ts) 2500); [|lia].
  cbn [andb negb]. destruct (speak speakNow ts); reflexivity.
Qed.

Lemma speak_time_cases now ts :
  snd (speak now ts) = ts \/ snd (speak now ts) = now.
Proof. unfold speak. destruct (now - ts <? 3000)%Z; auto. Qed.

Lemma framesOf_app t u start l1 l2 :
  framesOf t u start (l1 ++ l2)
  = framesOf t u start l1 ++ framesOf t u (start + List.length l1) l2.
Proof.
  revert start. induction l1 as [|c l1 IH]; intros start; simpl.
  - now rewrite Nat.add_0_r.
  - rewrite IH. now rewrite Nat.add_succ_r.
Qed.

Lemma runLock_app f1 f2 r :
  runLock (f1 ++ f2) r
  = (fst (runLock f2 (fst (runLock f1 r))),
     snd (runLock f1 r) ++ snd (runLock f2 (fst (runLock f1 r)))).
Proof.
  revert r. induction f1 as [|fr f1 IH]; intros r; simpl.
  - now destruct (runLock f2 r).
  - destruct (lockStep _ _ _ r) as [r1 out]. rewrite IH.
    destruct (runLock f1 r1) as [r2 e1]. simpl.
    destruct (runLock f2 r2) as [r3 e2]. simpl.
    destruct (onPhrase out); reflexivity.
Qed.

(** [n] more frames of the counted gesture stay silent while the streak
    stays below [LOCK_FRAMES]. *)
Lemma runLock_quiet c t u ts g lg n : forall start k,
  (k + n < LOCK_FRAMES)%nat ->
  runLock (framesOf t u start (repeat (Some c) n))
    (mkLockRefs (mkLockState (Some c) k) ts g lg)
  = (mkLockRefs (mkLockState (Some c) (k + n)) ts g lg, []).
Proof.
  induction n as [|n IH]; intros start k H; cbn [repeat framesOf runLock].
  - now rewrite Nat.add_0_r.
  - cbn [lf_candidate lf_nowMs lf_speakNow].
    rewrite lockStep_quiet by lia. rewrite IH by lia.
    cbn [onPhrase]. now rewrite Nat.add_succ_r.
Qed.

(** Frames of the gesture locked last stay silent whatever the streak. *)
Lemma runLock_suppressed c t u ts lg n : forall start k,
  runLock (framesOf t u start (repeat (Some c) n))
    (mkLockRefs (mkLockState (Some c) k) ts (Some c) lg)
  = (mkLockRefs (mkLockState (Some c) (k + n)) ts (Some c) lg, []).
Proof.
  induction n as [|n IH]; intros start k; cbn [repeat framesOf runLock].
  - now rewrite Nat.add_0_r.
  - cbn [lf_candidate lf_nowMs lf_speakNow].
    rewrite lockStep_suppressed. rewrite IH.
    cbn [onPhrase]. now rewrite Nat.add_succ_r.
Qed.

(** A fresh streak of [LOCK_FRAMES] frames: silent for nine frames, the
    lock on the tenth. *)
Lemma runLock_streak c t u start r :
  candidate (lockStateRef r) <> Some c ->
  lastSpokenGestureRef r <> Some c ->
  (t (start + 9)%nat - lastSpokenTime r >= 2500)%Z ->
  runLock (framesOf t u start (repeat (Some c) LOCK_FRAMES)) r
  = (mkLockRefs (mkLockState (Some c) LOCK_FRAMES)
       (snd (speak (u (start + 9)%nat) (lastSpokenTime r))) (Some c) (Some c),
     [(GESTURE_PHRASE c, c)]).
Proof.
  intros Hc Hg Hcool.
  change (repeat (Some c) LOCK_FRAMES)
    with (Some c :: (repeat (Some c) 8 ++ [Some c])).
  cbn [framesOf runLock lf_candidate lf_nowMs lf_speakNow].
  rewrite (lockStep_new _ _ _ _ Hc). cbn [onPhrase].
  rewrite framesOf_app, runLock_app.
  rewrite runLock_quiet by (unfold LOCK_FRAMES; lia).
  rewrite repeat_length. cbn [fst snd app].
  replace (S start + 8)%nat with (start + 9)%nat by lia.
  cbn [framesOf runLock lf_candidate lf_nowMs lf_speakNow].
  rewrite lockStep_fire by (unfold LOCK_FRAMES; first [assumption | lia]).
  reflexivity.
Qed.

(** A fresh run shorter than [LOCK_FRAMES] only counts. *)
Lemma runLock_partial c t u start r n :
  candidate (lockStateRef r) <> Some c ->
  (S n < LOCK_FRAMES)%nat ->
  runLock (framesOf t u start (repeat (Some c) (S n))) r
  = (mkLockRefs (mkLockState (Some c) (S n)) (lastSpokenTime r)
       (lastSpokenGestureRef r) (lockedGestureRef r), []).
Proof.
  intros Hc Hn. cbn [repeat framesOf runLock lf_candidate lf_nowMs lf_speakNow].
  rewrite (lockStep_new _ _ _ _ Hc). cbn [onPhrase].
  rewrite runLock_quiet by lia. reflexivity.
Qed.

(** C2, as stated, fails: from the initial refs the stream
    [hello]*9 + [null] + [hello]*10 does emit a lock, for 'hello', on its
    last frame, where the streak restarted after the null frame reaches 10. *)
Lemma lock_debounce_counterexample :
  snd (runLock
         (framesOf clock30 clock30 0
            (repeat (Some hello) 9 ++ [None] ++ repeat (Some hello) 10))
         initLockRefs)
  = [("Hello"%string, hello)]
  /\ snd (runLock
            (framesOf clock30 clock30 0
               (repeat (Some hello) 9 ++ [None] ++ repeat (Some hello) 10))
            initLockRefs) <> [].
Proof. split; [vm_compute; reflexivity | vm_compute; discriminate]. Qed.

(** C2 (amended).  From refs whose counted candidate is not [A]:
    the stream [A]*9 + [null] + [A]*9 emits nothing; with one more [A]
    frame, [A]*9 + [null] + [A]*10, exactly one lock for [A] is emitted
    (on the 20th frame, frame index 19) provided the cooldown has elapsed
    there and [A] is not the gesture locked last; and [A]*10 alone emits
    exactly one lock for [A] under the same provisos at frame index 9. *)
Theorem lock_debounce (A : GestureId) (t u : nat -> Z) (r : LockRefs) :
  candidate (lockStateRef r) <> Some A ->
  lastSpokenGestureRef r <> Some A ->
  snd (runLock (framesOf t u 0
         (repeat (Some A) 9 ++ [None] ++ repeat (Some A) 9)) r) = []
  /\ ((t 19%nat - lastSpokenTime r >= 2500)%Z ->
      snd (runLock (framesOf t u 0
             (repeat (Some A) 9 ++ [None] ++ repeat (Some A) 10)) r)
      = [(GESTURE_PHRASE A, A)])
  /\ ((t 9%nat - lastSpokenTime r >= 2500)%Z ->
      snd (runLock (framesOf t u 0 (repeat (Some A) 10)) r)
      = [(GESTURE_PHRASE A, A)]).
Proof.
  intros Hc Hg.
  repeat split.
  - rewrite !framesOf_app, !runLock_app. rewrite !repeat_length.
    rewrite (runLock_partial A t u 0 r 8 Hc) by (unfold LOCK_FRAMES; lia).
    cbn [fst snd app List.length Nat.add framesOf runLock
         lf_candidate lf_nowMs lf_speakNow].
    cbn [lockStep onPhrase fst snd app].
    rewrite runLock_partial by (unfold LOCK_FRAMES; cbn; first [discriminate | lia]).
    reflexivity.
  - intros Hcool.
    rewrite !framesOf_app, !runLock_app. rewrite !repeat_length.
    rewrite (runLock_partial A t u 0 r 8 Hc) by (unfold LOCK_FRAMES; lia).
    cbn [fst snd app List.length Nat.add framesOf runLock
         lf_candidate lf_nowMs lf_speakNow].
    cbn [lockStep onPhrase fst snd app].
    change (repeat (Some A) 10) with (repeat (Some A) LOCK_FRAMES).
    rewrite runLock_streak; cbn; first [reflexivity | discriminate | assumption].
  - intros Hcool.
    change (repeat (Some A) 10) with (repeat (Some A) LOCK_FRAMES).
    rewrite runLock_streak; auto.
Qed.

Lemma lock_debounce_witness :
  snd (runLock (framesOf clock30 clock30 0
         (repeat (Some yes) 9 ++ [None] ++ repeat (Some yes) 9)) initLockRefs)
  = []
  /\ snd (runLock (framesOf clock30 clock30 0
            (repeat (Some yes) 9 ++ [None] ++ repeat (Some yes) 10))
            initLockRefs) = [(GESTURE_PHRASE yes, yes)]
  /\ snd (runLock (framesOf clock30 clock30 0 (repeat (Some yes) 10))
            initLockRefs) = [(GESTURE_PHRASE yes, yes)].
Proof.
  assert (Hc : candidate (lockStateRef initLockRefs) <> Some yes)
    by (simpl; discriminate).
  assert (Hg : lastSpokenGestureRef initLockRefs <> Some yes)
    by (simpl; discriminate).
  destruct (lock_debounce yes clock30 clock30 initLockRefs Hc Hg)
    as (H1 & H2 & H3).
  split; [exact H1 | split].
  - apply H2. vm_compute. discriminate.
  - apply H3. vm_compute. discriminate.
Defined.

(** What decides a lock on one frame, read on the refs as they are before
    the frame: the candidate is the counted one and this frame brings its
    streak to [LOCK_FRAMES] (10) or more, at least 2500 ms have passed
    since [lastSpokenTime], and the candidate differs from the gesture
    locked last ([lastSpokenGestureRef]).  [lastSpokenTime] is written by
    [speak] only, so it is the time of the last lock that was spoken, not
    of the last lock. *)
Lemma lockStep_emits_iff (cand : option GestureId) (nowMs speakNow : Z)
    (r : LockRefs) :
  onPhrase (snd (lockStep cand nowMs speakNow r)) <> None
  <-> exists c,
        cand = Some c
        /\ candidate (lockStateRef r) = Some c
        /\ (LOCK_FRAMES <= S (streak (lockStateRef r)))%nat
        /\ (nowMs - lastSpokenTime r >= 2500)%Z
        /\ lastSpokenGestureRef r <> Some c.
Proof.
  unfold lockStep. destruct cand as [c|]; cbn [fst snd onPhrase].
  2: { split; [congruence | intros (c & H & _); discriminate]. }
  destruct (is_gesture (candidate (lockStateRef r)) c) eqn:Hsame.
  - apply is_gesture_iff in Hsame. cbn [streak].
    destruct (Nat.leb_spec LOCK_FRAMES (S (streak (lockStateRef r))))
      as [Hs|Hs].
    + destruct (Z.geb_spec (nowMs - lastSpokenTime r) 2500) as [Ht|Ht];
        cbn [andb].
      * destruct (is_gesture (lastSpokenGestureRef r) c) eqn:Hg; cbn [negb].
        -- apply is_gesture_iff in Hg. cbn [snd onPhrase].
           split; [congruence|]. intros (c' & Hc & _ & _ & _ & Hn).
           congruence.
        -- destruct (speak speakNow (lastSpokenTime r)) as [sp t'].
           cbn [snd onPhrase].
           split; [|discriminate]. intros _. exists c.
           repeat split; auto; [lia|].
           intros E. apply is_gesture_iff in E. congruence.
      * cbn [snd onPhrase].
        split; [congruence|]. intros (c' & _ & _ & _ & Hn & _). lia.
    + cbn [snd onPhrase].
      split; [congruence|]. intros (c' & _ & _ & Hn & _). lia.
  - cbn [streak]. change (LOCK_FRAMES <=? 1)%nat with false.
    cbn [snd onPhrase].
    split; [congruence|]. intros (c' & Hc & Hcand & _).
    injection Hc as <-. apply is_gesture_iff in Hcand. congruence.
Qed.

(** What an emitting frame does to the refs and what it sends out. *)
Lemma lock_emission_effects cand nowMs speakNow r ev :
  onPhrase (snd (lockStep cand nowMs speakNow r)) = Some ev ->
  exists c,
    cand = Some c
    /\ ev = (GESTURE_PHRASE c, c)
    /\ lastSpokenGestureRef (fst (lockStep cand nowMs speakNow r)) = Some c
    /\ lockedGestureRef (fst (lockStep cand nowMs speakNow r)) = Some c
    /\ lastSpokenTime (fst (lockStep cand nowMs speakNow r))
       = if (speakNow - lastSpokenTime r <? 3000)%Z
         then lastSpokenTime r else speakNow.
Proof.
  unfold lockStep, speak. destruct cand as [c|]; [|discriminate].
  destruct (LOCK_FRAMES <=? _)%nat; [|discriminate].
  destruct (_ && _); [|discriminate].
  destruct (speakNow - lastSpokenTime r <? 3000)%Z;
    cbn; intros [= <-]; exists c; auto.
Qed.

(** C5 at the failing input.  From the initial refs, at 30 frames a
    second: 'yes' for ten frames (locked and spoken on frame 9), no hand for
    seventy frames, 'hello' for ten frames.  On frame 89, 2640 ms after
    frame 9, the lock for 'hello' is emitted and [lastSpokenGestureRef]
    becomes 'hello'; but [speak] returns at its own 3000 ms guard, nothing
    is spoken, and [lastSpokenTime] keeps the time of frame 9 instead of
    taking the time of frame 89. *)
Example lock_emission_keeps_stale_timestamp :
  let before :=
    fst (runLock
           (framesOf clock30 clock30 0
              (repeat (Some yes) 10 ++ repeat None 70
               ++ repeat (Some hello) 9))
           initLockRefs) in
  let res := lockStep (Some hello) (clock30 89) (clock30 89) before in
  lastSpokenTime before = clock30 9
  /\ (clock30 89 - clock30 9 = 2640)%Z
  /\ onPhrase (snd res) = Some ("Hello"%string, hello)
  /\ lastSpokenGestureRef (fst res) = Some hello
  /\ spoken (snd res) = None
  /\ lastSpokenTime (fst res) = clock30 9
  /\ lastSpokenTime (fst res) <> clock30 89.
Proof. vm_compute. repeat split; discriminate. Qed.

(** C3 at the failing input.  From the initial refs, at 30 frames a
    second: 'yes' for ten frames (locked and spoken on frame 9), no hand for
    seventy frames, 'hello' for ten frames, 'wait' for ten frames.  The
    lock for 'hello' is emitted on frame 89 and the lock for 'wait' on
    frame 99, only 330 ms later: the cooldown test of frame 99 reads
    [lastSpokenTime], which still holds the time of frame 9 because [speak]
    returned at its own guard on frame 89. *)
Example lock_cooldown_not_enforced :
  let stream :=
    repeat (Some yes) 10 ++ repeat None 70
    ++ repeat (Some hello) 10 ++ repeat (Some wait) 10 in
  let before89 :=
    fst (runLock (framesOf clock30 clock30 0 (firstn 89 stream))
           initLockRefs) in
  let before99 :=
    fst (runLock (framesOf clock30 clock30 0 (firstn 99 stream))
           initLockRefs) in
  snd (runLock (framesOf clock30 clock30 0 stream) initLockRefs)
  = [("Yes"%string, yes); ("Hello"%string, hello); ("Wait"%string, wait)]
  /\ onPhrase (snd (lockStep (Some hello) (clock30 89) (clock30 89) before89))
     = Some ("Hello"%string, hello)
  /\ onPhrase (snd (lockStep (Some wait) (clock30 99) (clock30 99) before99))
     = Some ("Wait"%string, wait)
  /\ (clock30 99 - clock30 89 = 330)%Z
  /\ (clock30 99 - clock30 89 < 2500)%Z
  /\ lastSpokenGestureRef before99 = Some hello
  /\ lastSpokenTime before99 = clock30 9.
Proof. vm_compute. repeat split; reflexivity. Qed.

(** C4.  With [A <> B], the counted candidate and the gesture locked last
    both different from [A], and the cooldown elapsed at frame index 9:
    [A]*10 + [A]*10 emits the lock for [A] once; and when the clock does
    not run backwards and 2500 ms lie between frame 9 and frame 19 and
    between frame 19 and frame 29, [A]*10 + [B]*10 + [A]*10 emits three
    locks: [A], [B], [A]. *)
Theorem no_repeat_suppression (A B : GestureId) (t u : nat -> Z)
    (r : LockRefs) :
  A <> B ->
  candidate (lockStateRef r) <> Some A ->
  lastSpokenGestureRef r <> Some A ->
  (t 9%nat - lastSpokenTime r >= 2500)%Z ->
  snd (runLock (framesOf t u 0 (repeat (Some A) 10 ++ repeat (Some A) 10)) r)
  = [(GESTURE_PHRASE A, A)]
  /\ ((t 9%nat <= t 19%nat <= t 29%nat)%Z ->
      (u 9%nat <= u 19%nat)%Z ->
      (t 19%nat - u 9%nat >= 2500)%Z ->
      (t 29%nat - u 19%nat >= 2500)%Z ->
      snd (runLock (framesOf t u 0
             (repeat (Some A) 10 ++ repeat (Some B) 10 ++ repeat (Some A) 10))
             r)
      = [(GESTURE_PHRASE A, A); (GESTURE_PHRASE B, B); (GESTURE_PHRASE A, A)]).
Proof.
  intros HAB Hc Hg Hcool.
  change (repeat (Some A) 10) with (repeat (Some A) LOCK_FRAMES).
  change (repeat (Some B) 10) with (repeat (Some B) LOCK_FRAMES).
  split.
  - rewrite framesOf_app, runLock_app.
    rewrite (runLock_streak A t u 0 r Hc Hg Hcool).
    cbn [fst snd]. rewrite runLock_suppressed. reflexivity.
  - intros Ht Hu H19 H29.
    rewrite !framesOf_app, !runLock_app, !repeat_length.
    rewrite (runLock_streak A t u 0 r Hc Hg Hcool).
    cbn [fst snd].
    pose proof (speak_time_cases (u 9%nat) (lastSpokenTime r)) as Hs1.
    cbn [Nat.add] in Hs1 |- *.
    set (ts1 := snd (speak (u 9%nat) (lastSpokenTime r))) in *.
    rewrite (runLock_streak B t u LOCK_FRAMES);
      cbn [lockStateRef candidate lastSpokenGestureRef lastSpokenTime];
      [ | congruence | congruence
        | change (LOCK_FRAMES + 9)%nat with 19%nat; lia ].
    cbn [fst snd].
    change (LOCK_FRAMES + 9)%nat with 19%nat.
    pose proof (speak_time_cases (u 19%nat) ts1) as Hs2.
    set (ts2 := snd (speak (u 19%nat) ts1)) in *.
    rewrite (runLock_streak A t u (LOCK_FRAMES + LOCK_FRAMES));
      cbn [lockStateRef candidate lastSpokenGestureRef lastSpokenTime];
      [ | congruence | congruence
        | change (LOCK_FRAMES + LOCK_FRAMES + 9)%nat with 29%nat; lia ].
    reflexivity.
Qed.

Lemma no_repeat_suppression_witness :
  snd (runLock (framesOf (fun i => clock30 (100 * i)) (fun i => clock30 (100 * i))
         0 (repeat (Some hello) 10 ++ repeat (Some hello) 10)) initLockRefs)
  = [(GESTURE_PHRASE hello, hello)]
  /\ snd (runLock (framesOf (fun i => clock30 (100 * i))
                     (fun i => clock30 (100 * i)) 0
            (repeat (Some hello) 10 ++ repeat (Some stop) 10
             ++ repeat (Some hello) 10)) initLockRefs)
     = [(GESTURE_PHRASE hello, hello); (GESTURE_PHRASE stop, stop);
        (GESTURE_PHRASE hello, hello)].
Proof.
  assert (HAB : hello <> stop) by discriminate.
  assert (Hc : candidate (lockStateRef initLockRefs) <> Some hello)
    by (simpl; discriminate).
  assert (Hg : lastSpokenGestureRef initLockRefs <> Some hello)
    by (simpl; discriminate).
  assert (Hcool : (clock30 (100 * 9) - lastSpokenTime initLockRefs >= 2500)%Z)
    by (vm_compute; discriminate).
  destruct (no_repeat_suppression hello stop (fun i => clock30 (100 * i))
              (fun i => clock30 (100 * i)) initLockRefs HAB Hc Hg Hcool)
    as (H1 & H2).
  split; [exact H1 | apply H2].
  - vm_compute. split; discriminate.
  - vm_compute. discriminate.
  - vm_compute. discriminate.
  - vm_compute. discriminate.
Defined.

(** *** Finger predicates *)

Lemma extended_curled_false landmarks mcp pip tip handSize :
  isFingerExtended landmarks mcp pip tip handSize
  && isFingerCurled landmarks mcp pip tip handSize = false.
Proof.
  destruct (isFingerExtended landmarks mcp pip tip handSize) eqn:He;
    [|reflexivity].
  destruct (isFingerCurled landmarks mcp pip tip handSize) eqn:Hc;
    [|reflexivity].
  destruct (extended_curled_exclusive _ _ _ _ _ He Hc).
Qed.

(** C10.  No finger is both extended and curled: extension asks for
    [dist2 tip wrist] above [dist2 pip wrist] by a margin, curl for it to
    be below by a margin.  Hence the four curl readings of a hand are
    never all true when its four extension readings are, and the 'fist'
    and 'palmFour' shapes exclude each other. *)
Theorem extended_curled_disjoint (landmarks : Landmarks) (mcp pip tip : nat)
    (handSize : R) (thumbTip : Landmark) (f : Fingers) :
  ~ (isFingerExtended landmarks mcp pip tip handSize = true
     /\ isFingerCurled landmarks mcp pip tip handSize = true)
  /\ (let g := readFingers landmarks thumbTip handSize in
      palmFour g
      && (indexCurled g && middleCurled g && ringCurled g && pinkyCurled g)
      = false)
  /\ fist f && palmFour f = false.
Proof.
  split; [|split].
  - intros [He Hc]. exact (extended_curled_exclusive _ _ _ _ _ He Hc).
  - cbv zeta. unfold palmFour, readFingers.
    cbn [index middle ring pinky indexCurled middleCurled ringCurled
         pinkyCurled].
    pose proof (extended_curled_false landmarks 5 6 8 handSize) as H.
    destruct (isFingerExtended landmarks 5 6 8 handSize); [|reflexivity].
    cbn [andb] in H. rewrite H. cbn [andb].
    now rewrite andb_false_r.
  - unfold fist, palmFour.
    destruct (index f); cbn [negb andb]; [|now rewrite andb_false_r].
    now rewrite !andb_false_r.
Qed.

(** *** Rule order of the classifier *)

Lemma thumb_points landmarks hs :
  isThumbExtended landmarks hs = true ->
  exists wrist tip mcp,
    lm_at landmarks 0 = Some wrist /\ lm_at landmarks 4 = Some tip
    /\ lm_at landmarks 2 = Some mcp.
Proof.
  unfold isThumbExtended.
  destruct (lm_at landmarks 0) as [w|]; [|discriminate].
  destruct (lm_at landmarks 4) as [t|]; [|discriminate].
  destruct (lm_at landmarks 3) as [i|]; [|discriminate].
  destruct (lm_at landmarks 2) as [m|]; [|discriminate].
  intros _. exists w, t, m. auto.
Qed.

(** The 'assistance' and 'thank you' conditions never hold together: one
    needs the thumb extended, the other needs it not extended. *)
Lemma assistance_thank_you_disjoint f :
  assistanceShape f && fourFingers f = false.
Proof.
  unfold assistanceShape, fourFingers.
  destruct (thumb f); cbn [negb andb]; [now rewrite andb_false_r | reflexivity].
Qed.

(** A hand read as 'assistance' has its middle and ring fingers not
    extended. *)
Lemma assistance_middle_ring landmarks thumbTip hs :
  assistanceShape (readFingers landmarks thumbTip hs) = true ->
  isThumbExtended landmarks hs = true
  /\ isFingerExtended landmarks 5 6 8 hs = true
  /\ isFingerExtended landmarks 17 18 20 hs = true
  /\ isFingerExtended landmarks 9 10 12 hs = false
  /\ isFingerExtended landmarks 13 14 16 hs = false.
Proof.
  unfold assistanceShape, readFingers.
  cbn [thumb index pinky middle ring middleCurled ringCurled].
  pose proof (extended_curled_false landmarks 9 10 12 hs) as Hm.
  pose proof (extended_curled_false landmarks 13 14 16 hs) as Hr.
  rewrite !andb_true_iff, !orb_true_iff, !negb_true_iff.
  intros ((((Ht & Hi) & Hp) & Hmid) & Hring).
  repeat split; auto.
  - destruct Hmid as [Hc|]; [|assumption].
    rewrite Hc, andb_true_r in Hm. exact Hm.
  - destruct Hring as [Hc|]; [|assumption].
    rewrite Hc, andb_true_r in Hr. exact Hr.
Qed.

(** C8.  Whenever the 'assistance' condition holds for a hand (thumb,
    index and pinky extended, middle and ring curled or not extended) the
    classifier returns 'assistance', for every tracker state, clock reading
    and calibration baseline; no earlier rule can fire for such a hand and
    the 'thank you' rule comes after it.  In particular this is the
    answer for any hand that also met the 'thank you' condition. *)
Theorem assistance_rule_wins (baseline nowWave nowStill : R)
    (refs : Trackers) (landmarks : Landmarks) (thumbTip : Landmark) :
  lm_at landmarks 4 = Some thumbTip ->
  assistanceShape
    (readFingers landmarks thumbTip (scaleRef baseline landmarks)) = true ->
  fst (classifyGesture baseline nowWave nowStill refs landmarks)
  = Some assistance.
Proof.
  intros Htip Ha.
  destruct (assistance_middle_ring _ _ _ Ha) as (Ht & Hi & Hp & Hm & Hr).
  destruct (thumb_points _ _ Ht) as (w & tt & tm & Hw & Htt & Htm).
  unfold classifyGesture. rewrite Hw, Htt, Htm.
  rewrite Htip in Htt. injection Htt as <-.
  set (hs := scaleRef baseline landmarks) in *.
  set (f := readFingers landmarks thumbTip hs) in *.
  assert (Hpf : palmFour f = false).
  { unfold palmFour, f, readFingers. cbn [index middle ring pinky].
    rewrite Hm. now rewrite andb_false_r. }
  assert (Hth : thumb f = true) by exact Ht.
  cbv zeta. rewrite Hpf.
  unfold openHand, fourFingers. rewrite Hpf, !andb_false_r. cbn [orb fst].
  unfold staticRules, waterShape. rewrite Hth, Ha. reflexivity.
Qed.

(** *** Missing landmarks *)

(** C9 (amended).  A finger or thumb predicate is false as soon as one of
    the landmarks it reads is absent, and the classifier returns null,
    leaving the trackers alone, when the wrist, the thumb tip or the thumb
    MCP is absent.  (With only other landmarks absent the rules that do
    not depend on them still apply.) *)
Theorem missing_landmarks_degrade (landmarks : Landmarks) :
  (forall mcp pip tip handSize,
      lm_at landmarks 0 = None \/ lm_at landmarks mcp = None
      \/ lm_at landmarks pip = None \/ lm_at landmarks tip = None ->
      isFingerExtended landmarks mcp pip tip handSize = false
      /\ isFingerCurled landmarks mcp pip tip handSize = false)
  /\ (forall handSize,
         lm_at landmarks 0 = None \/ lm_at landmarks 2 = None
         \/ lm_at landmarks 3 = None \/ lm_at landmarks 4 = None ->
         isThumbExtended landmarks handSize = false)
  /\ (forall baseline nowWave nowStill refs,
         lm_at landmarks 0 = None \/ lm_at landmarks 4 = None
         \/ lm_at landmarks 2 = None ->
         classifyGesture baseline nowWave nowStill refs landmarks
         = (None, refs)).
Proof.
  split; [|split].
  - intros mcp pip tip handSize H.
    unfold isFingerExtended, isFingerCurled.
    destruct (lm_at landmarks 0); [|auto].
    destruct (lm_at landmarks mcp); [|auto].
    destruct (lm_at landmarks pip); [|auto].
    destruct (lm_at landmarks tip); [|auto].
    destruct H as [H|[H|[H|H]]]; discriminate.
  - intros handSize H. unfold isThumbExtended.
    destruct (lm_at landmarks 0); [|auto].
    destruct (lm_at landmarks 4); [|auto].
    destruct (lm_at landmarks 3); [|auto].
    destruct (lm_at landmarks 2); [|auto].
    destruct H as [H|[H|[H|H]]]; discriminate.
  - intros baseline nowWave nowStill refs H. unfold classifyGesture.
    destruct (lm_at landmarks 0); [|auto].
    destruct (lm_at landmarks 4); [|auto].
    destruct (lm_at landmarks 2); [|auto].
    destruct H as [H|[H|H]]; discriminate.
Qed.

(** *** Evaluating the classifier on concrete hands *)

Lemma Reqb_true a b : a = b -> (a =? b) = true.
Proof. unfold Reqb. destruct (Req_dec_T a b); tauto. Qed.

Lemma Reqb_false a b : a <> b -> (a =? b) = false.
Proof. unfold Reqb. destruct (Req_dec_T a b); tauto. Qed.

Lemma Rgeb_true a b : a >= b -> (a >=? b) = true.
Proof. unfold Rgeb. destruct (Rge_dec a b); tauto. Qed.

Lemma Rgeb_false a b : a < b -> (a >=? b) = false.
Proof. unfold Rgeb. destruct (Rge_dec a b); [lra | reflexivity]. Qed.

Lemma orElse_zero v : orElse v 0 = v.
Proof.
  unfold orElse, Reqb. destruct (Req_dec_T v 0); [symmetry; assumption | reflexivity].
Qed.

Lemma sqrt_of_square d r : 0 <= r -> d = r * r -> sqrt d = r.
Proof. intros Hr ->. now apply sqrt_square. Qed.

Lemma sqrt_below d c : 0 < c -> d < c * c -> sqrt d < c.
Proof.
  intros Hc Hd. destruct (Rle_lt_dec 0 d) as [H0|H0].
  - rewrite <- (sqrt_square c) by lra. apply sqrt_lt_1_alt. lra.
  - rewrite sqrt_neg_0 by lra. exact Hc.
Qed.

(** The scale reference of a hand of size [r] that dominates the baseline
    and the floor. *)
Lemma scaleRef_value baseline landmarks wrist middleMcp r :
  lm_at landmarks 0 = Some wrist ->
  lm_at landmarks 9 = Some middleMcp ->
  dist2 wrist middleMcp = r * r ->
  baseline <= r -> 0.0001 <= r ->
  scaleRef baseline landmarks = r.
Proof.
  intros Hw Hm Hd Hb Hr. unfold scaleRef, getHandSize, dist.
  rewrite Hw, Hm, orElse_zero.
  rewrite (sqrt_of_square _ r) by (assumption || lra).
  rewrite (Rmax_left r baseline) by lra. apply Rmax_left. lra.
Qed.

(** Decide the comparisons of a closed arithmetic goal. *)
Ltac rcmp :=
  unfold Rgtb;
  repeat match goal with
         | |- context [Rmax ?a ?b] =>
             first [ rewrite (Rmax_left a b) by lra
                   | rewrite (Rmax_right a b) by lra ]
         | |- context [Rmin ?a ?b] =>
             first [ rewrite (Rmin_left a b) by lra
                   | rewrite (Rmin_right a b) by lra ]
         | |- context [Rltb ?a ?b] =>
             first [ rewrite (Rltb_true a b) by lra
                   | rewrite (Rltb_false a b) by lra ]
         | |- context [Reqb ?a ?b] =>
             first [ rewrite (Reqb_true a b) by lra
                   | rewrite (Reqb_false a b) by lra ]
         | |- context [Rgeb ?a ?b] =>
             first [ rewrite (Rgeb_true a b) by lra
                   | rewrite (Rgeb_false a b) by lra ]
         end.

(** Unfold the finger predicates on a concrete hand. *)
Ltac on_hand :=
  cbv [readFingers isFingerExtended isFingerCurled isThumbExtended
       lm_at nth_error handILY handFour fistAt handTruncated thumbOut thumbIn
       straight folded finger pt app dist dist2 x y
       thumb index middle ring pinky indexCurled middleCurled ringCurled
       pinkyCurled thumbSpreadOk].

Lemma handILY_scale : scaleRef 0 handILY = 0.1.
Proof.
  apply (scaleRef_value 0 handILY (mkLandmark 0.5 0.8) (mkLandmark 0.5 0.7));
    try reflexivity; unfold dist2; cbn [x y]; lra.
Qed.

Lemma assistance_rule_wins_witness :
  fst (classifyGesture 0 2000 2000 initTrackers handILY) = Some assistance.
Proof.
  apply (assistance_rule_wins 0 2000 2000 initTrackers handILY
           (mkLandmark (0.5 - 0.15) 0.8)).
  - reflexivity.
  - rewrite handILY_scale. unfold assistanceShape. on_hand. rcmp. reflexivity.
Defined.

(** Finish the evaluation once the finger readings are booleans. *)
Ltac run_rules :=
  cbv [palmFour openHand fourFingers fist waterShape assistanceShape
       staticRules thumb index middle ring pinky indexCurled middleCurled
       ringCurled pinkyCurled thumbSpreadOk andb orb negb fst snd].

Lemma handTruncated_scale : scaleRef 0 handTruncated = 0.0001.
Proof.
  unfold scaleRef, getHandSize. cbv [lm_at nth_error handTruncated thumbIn
    straight finger pt app]. rewrite orElse_zero. rcmp. reflexivity.
Qed.

Lemma handTruncated_fingers :
  readFingers handTruncated (mkLandmark (0.5 - 0.03) 0.8) 0.0001
  = mkFingers false true false false false false false false false true.
Proof.
  on_hand. rewrite (sqrt_of_square _ 0.1) by lra.
  rcmp. reflexivity.
Qed.

(** C9, as stated, fails: a hand cut off after the index finger
    (landmarks 9-20 absent) is not classified as null but as 'wait'. *)
Lemma missing_landmarks_counterexample :
  lm_at handTruncated 9 = None
  /\ lm_at handTruncated 20 = None
  /\ fst (classifyGesture 0 2000 2000 initTrackers handTruncated) = Some wait
  /\ fst (classifyGesture 0 2000 2000 initTrackers handTruncated) <> None.
Proof.
  assert (H : fst (classifyGesture 0 2000 2000 initTrackers handTruncated)
              = Some wait).
  { unfold classifyGesture.
    change (lm_at handTruncated 0) with (Some (mkLandmark 0.5 0.8)).
    change (lm_at handTruncated 4) with (Some (mkLandmark (0.5 - 0.03) 0.8)).
    change (lm_at handTruncated 2) with (Some (mkLandmark (0.5 - 0.05) 0.8)).
    cbv zeta. rewrite handTruncated_scale, handTruncated_fingers.
    run_rules. reflexivity. }
  repeat split; try reflexivity; rewrite H; [reflexivity | discriminate].
Qed.

Lemma missing_landmarks_degrade_witness :
  (isFingerExtended handTruncated 17 18 20 0.0001 = false
   /\ isFingerCurled handTruncated 17 18 20 0.0001 = false)
  /\ isThumbExtended [pt 0.5 0.8] 0.0001 = false
  /\ classifyGesture 0 2000 2000 initTrackers [pt 0.5 0.8; pt 0.47 0.78]
     = (None, initTrackers).
Proof.
  split; [|split].
  - apply (missing_landmarks_degrade handTruncated).
    right. right. right. reflexivity.
  - apply (missing_landmarks_degrade [pt 0.5 0.8]).
    right. left. reflexivity.
  - apply (missing_landmarks_degrade [pt 0.5 0.8; pt 0.47 0.78]).
    right. left. reflexivity.
Defined.

(** *** Two-hand combiner *)

(** C6.  With both hands present, both classified 'yes', the wrists
    closer than 0.55 times the scale reference (the maximum of the two
    hand sizes, the calibration baseline and 0.0001) and both wrists below
    [y = 0.55] in the image, the combiner yields 'restroom', and so does
    the frame's candidate. *)
Theorem two_fists_restroom (baseline : R) (clk : PerfClock) (refs : Trackers)
    (l0 l1 : Landmarks) (wrist0 wrist1 : Landmark) :
  lm_at l0 0 = Some wrist0 ->
  lm_at l1 0 = Some wrist1 ->
  fst (classifyHand baseline (wave0 clk) (still0 clk) refs (Some l0))
  = Some yes ->
  fst (classifyHand baseline (wave1 clk) (still1 clk)
         (snd (classifyHand baseline (wave0 clk) (still0 clk) refs (Some l0)))
         (Some l1)) = Some yes ->
  dist wrist0 wrist1
  < 0.55 * Rmax (Rmax (Rmax (getHandSize l0) (getHandSize l1)) baseline) 0.0001 ->
  y wrist0 > 0.55 -> y wrist1 > 0.55 ->
  combine baseline (Some l0) (Some l1) (Some yes) (Some yes) = Some restroom
  /\ fst (frameCandidate baseline clk refs (Some l0) (Some l1))
     = Some restroom.
Proof.
  intros Hw0 Hw1 Hg0 Hg1 Hclose Hy0 Hy1.
  assert (Hc : combine baseline (Some l0) (Some l1) (Some yes) (Some yes)
               = Some restroom).
  { unfold combine. rewrite Hw0, Hw1, orElse_zero. cbv zeta.
    rewrite (Rltb_true _ _ Hclose). unfold Rgtb.
    rewrite (Rltb_true _ _ Hy0), (Rltb_true _ _ Hy1). reflexivity. }
  split; [exact Hc|].
  unfold frameCandidate.
  destruct (classifyHand baseline (wave0 clk) (still0 clk) refs (Some l0))
    as [g0 refs0].
  cbn [fst snd] in Hg0, Hg1. subst g0.
  destruct (classifyHand baseline (wave1 clk) (still1 clk) refs0 (Some l1))
    as [g1 refs1].
  cbn [fst snd] in Hg1. subst g1.
  rewrite Hc. reflexivity.
Qed.

Lemma fistAt_scale wx : scaleRef 0 (fistAt wx) = 0.1.
Proof.
  apply (scaleRef_value 0 (fistAt wx) (mkLandmark wx 0.8) (mkLandmark wx 0.7));
    try reflexivity; unfold dist2; cbn [x y]; lra.
Qed.

Lemma fistAt_size wx : getHandSize (fistAt wx) = 0.1.
Proof.
  unfold getHandSize. on_hand. apply sqrt_of_square; lra.
Qed.

Lemma fistAt_fingers wx :
  readFingers (fistAt wx) (mkLandmark (wx - 0.03) 0.8) 0.1
  = mkFingers false false false false false true true true true true.
Proof.
  on_hand. rewrite (sqrt_of_square _ 0.1) by lra. rcmp. reflexivity.
Qed.

(** A fist is classified 'yes' and resets both trackers. *)
Lemma fistAt_yes wx nowWave nowStill refs :
  classifyGesture 0 nowWave nowStill refs (fistAt wx)
  = (Some yes, initTrackers).
Proof.
  unfold classifyGesture.
  change (lm_at (fistAt wx) 0) with (Some (mkLandmark wx 0.8)).
  change (lm_at (fistAt wx) 4) with (Some (mkLandmark (wx - 0.03) 0.8)).
  change (lm_at (fistAt wx) 2) with (Some (mkLandmark (wx - 0.05) 0.8)).
  cbv zeta. rewrite fistAt_scale.
  rewrite fistAt_fingers.
  run_rules. reflexivity.
Qed.

Lemma two_fists_restroom_witness :
  combine 0 (Some (fistAt 0.5)) (Some (fistAt 0.52)) (Some yes) (Some yes)
  = Some restroom
  /\ fst (frameCandidate 0 (mkPerfClock 2000 2000 2000 2000) initTrackers
            (Some (fistAt 0.5)) (Some (fistAt 0.52))) = Some restroom.
Proof.
  apply (two_fists_restroom 0 (mkPerfClock 2000 2000 2000 2000) initTrackers
           (fistAt 0.5) (fistAt 0.52)
           (mkLandmark 0.5 0.8) (mkLandmark 0.52 0.8)).
  - reflexivity.
  - reflexivity.
  - unfold classifyHand. cbn [fistAt List.length Nat.ltb Nat.leb].
    fold (fistAt 0.5). now rewrite fistAt_yes.
  - unfold classifyHand. cbn [fistAt List.length Nat.ltb Nat.leb].
    fold (fistAt 0.5). fold (fistAt 0.52). now rewrite !fistAt_yes.
  - rewrite !fistAt_size. rcmp. unfold dist, dist2. cbn [x y].
    apply sqrt_below; lra.
  - cbn [y]. lra.
  - cbn [y]. lra.
Defined.

(** *** Calibration *)

(** What the window computes: when the frames before the last all fall
    inside the 3000 ms window and the last one closes it, the baseline is
    the sum of the positive hand-size samples divided by the number of
    frames of the window, the frames without a hand included. *)
Lemma calibrate_baseline frames : forall last c,
  (forall fr, In fr frames -> cf_now fr - startedAt c < 3000) ->
  cf_now last - startedAt c >= 3000 ->
  baselineHandSize (fst (calibrate (frames ++ [last]) true c))
  = (sumHandSize c + sumPositive (frames ++ [last]))
    / INR (samples c + List.length frames + 1).
Proof.
  induction frames as [|fr frames IH]; intros last c Hin Hlast.
  - cbn [app calibrate]. unfold calibrationBlock.
    rewrite (Rgeb_true _ _ Hlast).
    cbn [negb calibrate fst baselineHandSize sumPositive List.length].
    fold (frameHandSize last).
    replace (Nat.max 1 (S (samples c))) with (samples c + 0 + 1)%nat by lia.
    f_equal. destruct (frameHandSize last >? 0); lra.
  - cbn [app calibrate]. unfold calibrationBlock at 1.
    rewrite Rgeb_false by (apply Hin; left; reflexivity).
    cbn [negb]. rewrite IH.
    + cbn [sumHandSize samples sumPositive List.length startedAt].
      fold (frameHandSize fr).
      replace (S (samples c) + List.length frames + 1)%nat
        with (samples c + S (List.length frames) + 1)%nat by lia.
      f_equal. destruct (frameHandSize fr >? 0); lra.
    + cbn [startedAt]. intros fr' H. apply Hin. right. exact H.
    + cbn [startedAt]. exact Hlast.
Qed.

(** C7 at the failing input: a window of four frames, a hand of size 0.1
    in the first and the last, none in the two between.  The mean hand
    size over the frames with a hand is 0.1; the code, which counts every
    frame in [samples], sets the baseline to 0.2 / 4 = 0.05. *)
Example calibration_baseline_diluted :
  let frames :=
    [ mkCalibFrame 1000 None (Some (fistAt 0.5)) None;
      mkCalibFrame 1700 None None None;
      mkCalibFrame 2400 None None None;
      mkCalibFrame 3000 None (Some (fistAt 0.5)) None ] in
  let c := fst (calibrate frames true (startCalibration 0)) in
  isReady c = true
  /\ sumHandSize c = 0.2
  /\ samples c = 4%nat
  /\ baselineHandSize c = 0.05
  /\ baselineHandSize c <> 0.1.
Proof.
  cbv zeta.
  cbv [calibrate calibrationBlock startCalibration cf_now cf_avg cf_lm0
       cf_lm1 handSizeOrZero startedAt samples sumHandSize sumBrightness
       baselineHandSize brightness isReady].
  rewrite !fistAt_size. rcmp.
  cbv [negb fst isReady sumHandSize samples baselineHandSize Nat.max].
  rewrite !INR_IZR_INZ. cbn [Z.of_nat Pos.of_succ_nat Pos.succ].
  repeat split; lra.
Qed.

(** *** Scaling a hand about its wrist *)

Lemma Rltb_ext a b c d : (a < b <-> c < d) -> (a <? b) = (c <? d).
Proof.
  intros H. unfold Rltb.
  destruct (Rlt_dec a b), (Rlt_dec c d); tauto.
Qed.

Lemma lm_at_map g (landmarks : Landmarks) i :
  lm_at (map (option_map g) landmarks) i = option_map g (lm_at landmarks i).
Proof.
  unfold lm_at. rewrite nth_error_map.
  destruct (nth_error landmarks i) as [[p|]|]; reflexivity.
Qed.

Lemma lm_at_scale f landmarks wrist i :
  lm_at landmarks 0 = Some wrist ->
  lm_at (scaleAboutWrist f landmarks) i
  = option_map (scalePoint f wrist) (lm_at landmarks i).
Proof. intros H. unfold scaleAboutWrist. rewrite H. apply lm_at_map. Qed.

Lemma scalePoint_wrist f wrist : scalePoint f wrist wrist = wrist.
Proof. destruct wrist as [wx wy]. unfold scalePoint. cbn [x y]. f_equal; ring. Qed.

Lemma dist2_scale f wrist p q :
  dist2 (scalePoint f wrist p) (scalePoint f wrist q) = f * f * dist2 p q.
Proof. unfold dist2, scalePoint. cbn [x y]. ring. Qed.

Lemma dist2_scale_wrist f wrist p :
  dist2 (scalePoint f wrist p) wrist = f * f * dist2 p wrist.
Proof. rewrite <- (scalePoint_wrist f wrist) at 2. apply dist2_scale. Qed.

Lemma dist2_nonneg p q : 0 <= dist2 p q.
Proof.
  unfold dist2. cbv zeta.
  pose proof (Rle_0_sqr (x p - x q)) as Hx.
  pose proof (Rle_0_sqr (y p - y q)) as Hy.
  unfold Rsqr in Hx, Hy. lra.
Qed.

Lemma dist_scale f wrist p q :
  0 < f ->
  dist (scalePoint f wrist p) (scalePoint f wrist q) = f * dist p q.
Proof.
  intros Hf. unfold dist. rewrite dist2_scale.
  rewrite sqrt_mult; [| nra | apply dist2_nonneg].
  rewrite sqrt_square by lra. reflexivity.
Qed.

(** A margin test is unchanged when the squared distances and the squared
    scale are all multiplied by [f * f]. *)
Lemma margin_scale f a b k hs :
  0 < f ->
  (f * f * b + k * (f * hs) ^ 2 < f * f * a <-> b + k * hs ^ 2 < a).
Proof.
  intros Hf. assert (0 < f * f) by nra.
  replace (f * f * b + k * (f * hs) ^ 2) with (f * f * (b + k * hs ^ 2))
    by ring.
  split; intros H1.
  - apply (Rmult_lt_reg_l (f * f)); assumption.
  - apply Rmult_lt_compat_l; assumption.
Qed.

Lemma scaleRef_floor baseline landmarks : 0.0001 <= scaleRef baseline landmarks.
Proof. unfold scaleRef. apply Rmax_r. Qed.

Section Scaled.
Variables (f hs : R) (landmarks : Landmarks) (wrist : Landmark).
Hypothesis Hf : 0 < f.
Hypothesis Hwrist : lm_at landmarks 0 = Some wrist.
Hypothesis Hhs : 0.0001 <= hs.
Hypothesis Hfhs : 0.0001 <= f * hs.

Lemma isFingerExtended_scale mcp pip tip :
  isFingerExtended (scaleAboutWrist f landmarks) mcp pip tip (f * hs)
  = isFingerExtended landmarks mcp pip tip hs.
Proof.
  unfold isFingerExtended. rewrite !(lm_at_scale f _ _ _ Hwrist), Hwrist.
  destruct (lm_at landmarks mcp) as [m|]; [|reflexivity].
  destruct (lm_at landmarks pip) as [p|]; [|reflexivity].
  destruct (lm_at landmarks tip) as [t|]; [|reflexivity].
  cbn [option_map]. cbv zeta. rewrite scalePoint_wrist.
  rewrite !dist2_scale_wrist, !Rmax_left by lra.
  unfold Rgtb. f_equal; apply Rltb_ext, margin_scale, Hf.
Qed.

Lemma isFingerCurled_scale mcp pip tip :
  isFingerCurled (scaleAboutWrist f landmarks) mcp pip tip (f * hs)
  = isFingerCurled landmarks mcp pip tip hs.
Proof.
  unfold isFingerCurled. rewrite !(lm_at_scale f _ _ _ Hwrist), Hwrist.
  destruct (lm_at landmarks mcp) as [m|]; [|reflexivity].
  destruct (lm_at landmarks pip) as [p|]; [|reflexivity].
  destruct (lm_at landmarks tip) as [t|]; [|reflexivity].
  cbn [option_map]. cbv zeta. rewrite scalePoint_wrist.
  rewrite !dist2_scale_wrist, !Rmax_left by lra.
  apply Rltb_ext, margin_scale, Hf.
Qed.

Lemma isThumbExtended_scale :
  isThumbExtended (scaleAboutWrist f landmarks) (f * hs)
  = isThumbExtended landmarks hs.
Proof.
  unfold isThumbExtended. rewrite !(lm_at_scale f _ _ _ Hwrist), Hwrist.
  destruct (lm_at landmarks 4) as [t|]; [|reflexivity].
  destruct (lm_at landmarks 3) as [p|]; [|reflexivity].
  destruct (lm_at landmarks 2) as [m|]; [|reflexivity].
  cbn [option_map]. cbv zeta. rewrite scalePoint_wrist.
  rewrite !dist2_scale_wrist, !Rmax_left by lra.
  unfold Rgtb. f_equal; apply Rltb_ext, margin_scale, Hf.
Qed.

Lemma readFingers_scale thumbTip :
  readFingers (scaleAboutWrist f landmarks) (scalePoint f wrist thumbTip)
    (f * hs)
  = readFingers landmarks thumbTip hs.
Proof.
  unfold readFingers.
  rewrite isThumbExtended_scale, !isFingerExtended_scale,
    !isFingerCurled_scale.
  f_equal. rewrite (lm_at_scale f _ _ _ Hwrist).
  destruct (lm_at landmarks 5) as [indexMcp|]; [|reflexivity].
  cbn [option_map]. rewrite dist_scale by exact Hf.
  unfold Rgtb. apply Rltb_ext.
  split; intros H; nra.
Qed.

(** The thumb-up / thumb-down test compares heights, which scale with
    the hand. *)
Lemma staticRules_scale g thumbTip thumbMcp :
  staticRules g wrist (scalePoint f wrist thumbTip)
    (scalePoint f wrist thumbMcp) (f * hs)
  = staticRules g wrist thumbTip thumbMcp hs.
Proof.
  unfold staticRules.
  destruct (waterShape g); [reflexivity|].
  destruct (assistanceShape g); [reflexivity|].
  destruct (fourFingers g); [reflexivity|].
  destruct (thumb g && negb (index g) && negb (middle g)
            && negb (ring g) && negb (pinky g)); [|reflexivity].
  cbv zeta.
  assert (Hdown :
    (y (scalePoint f wrist thumbTip)
     >? Rmax (y (scalePoint f wrist thumbMcp)) (y wrist) + 0.24 * (f * hs))
    = (y thumbTip >? Rmax (y thumbMcp) (y wrist) + 0.24 * hs)).
  { unfold Rgtb. apply Rltb_ext. unfold scalePoint. cbn [x y].
    unfold Rmax.
    destruct (Rle_dec (y wrist + f * (y thumbMcp - y wrist)) (y wrist)),
      (Rle_dec (y thumbMcp) (y wrist)); split; intros H; nra. }
  rewrite Hdown.
  destruct (y thumbTip >? Rmax (y thumbMcp) (y wrist) + 0.24 * hs);
    [reflexivity|].
  destruct (_ <? _), (_ <? _); reflexivity.
Qed.
End Scaled.

(** For any positive factor the scaled run and the original run can only
    differ through the wave rule: they agree, or one of them answers
    'goodbye'. *)
Lemma classify_scaled_cases (baseline baseline' nowWave nowStill : R)
    (refs : Trackers) (landmarks : Landmarks) (f : R) :
  0 < f ->
  scaleRef baseline' (scaleAboutWrist f landmarks)
  = f * scaleRef baseline landmarks ->
  fst (classifyGesture baseline' nowWave nowStill refs
         (scaleAboutWrist f landmarks))
  = fst (classifyGesture baseline nowWave nowStill refs landmarks)
  \/ fst (classifyGesture baseline nowWave nowStill refs landmarks)
     = Some goodbye
  \/ fst (classifyGesture baseline' nowWave nowStill refs
            (scaleAboutWrist f landmarks)) = Some goodbye.
Proof.
  intros Hf Hs.
  pose proof (scaleRef_floor baseline landmarks) as Hhs.
  pose proof (scaleRef_floor baseline' (scaleAboutWrist f landmarks)) as Hfhs.
  rewrite Hs in Hfhs.
  unfold classifyGesture. rewrite Hs.
  destruct (lm_at landmarks 0) as [wrist|] eqn:Hw.
  2: { unfold scaleAboutWrist. rewrite Hw, Hw. left. reflexivity. }
  rewrite !(lm_at_scale f _ _ _ Hw), Hw.
  destruct (lm_at landmarks 4) as [thumbTip|]; [|left; reflexivity].
  destruct (lm_at landmarks 2) as [thumbMcp|]; [|left; reflexivity].
  cbn [option_map]. cbv zeta.
  rewrite (readFingers_scale f _ landmarks wrist Hf Hw Hhs Hfhs).
  rewrite scalePoint_wrist.
  set (hs := scaleRef baseline landmarks) in *.
  set (g := readFingers landmarks thumbTip hs).
  rewrite (staticRules_scale f hs wrist) by assumption.
  destruct (palmFour g).
  - destruct (waveBlock nowWave (waveRef refs) wrist hs) as [[|] w1];
      destruct (waveBlock nowWave (waveRef refs) wrist (f * hs)) as [[|] w2];
      cbn [fst]; auto.
    left.
    destruct (openHand g || fourFingers g).
    + destruct (stillBlock nowStill (stillRef refs) wrist) as [[h|] st];
        reflexivity.
    + reflexivity.
  - left.
    destruct (openHand g || fourFingers g).
    + destruct (stillBlock nowStill (stillRef refs) wrist) as [[h|] st];
        reflexivity.
    + reflexivity.
Qed.

(** In exact arithmetic: take a hand, scale it about its wrist by [f]
    in [0.5, 2] and let the scale reference of the scaled run be [f]
    times that of the original run; start both runs from the same
    trackers and clock readings.  If the wave rule ('goodbye') fires in
    neither run, both runs return the same gesture.  (The wave rule
    compares the travel of the wrist, which the scaling leaves as it is,
    with thresholds proportional to the scale reference.) *)
Lemma scale_invariance_exact (baseline baseline' nowWave nowStill : R)
    (refs : Trackers) (landmarks : Landmarks) (f : R) :
  0.5 <= f <= 2 ->
  scaleRef baseline' (scaleAboutWrist f landmarks)
  = f * scaleRef baseline landmarks ->
  fst (classifyGesture baseline nowWave nowStill refs landmarks)
  <> Some goodbye ->
  fst (classifyGesture baseline' nowWave nowStill refs
         (scaleAboutWrist f landmarks)) <> Some goodbye ->
  fst (classifyGesture baseline' nowWave nowStill refs
         (scaleAboutWrist f landmarks))
  = fst (classifyGesture baseline nowWave nowStill refs landmarks).
Proof.
  intros Hrange Hs Hg Hg'.
  assert (Hf : 0 < f) by lra.
  destruct (classify_scaled_cases baseline baseline' nowWave nowStill refs
              landmarks f Hf Hs) as [Heq | [Hwave | Hwave]].
  - exact Heq.
  - contradiction.
  - contradiction.
Qed.

(** A wave tracker that has just been reset cannot fire on its first
    frame: no flip has been counted. *)
Lemma waveBlock_fresh now wrist hs :
  fst (waveBlock now Wave.reset wrist hs) = false.
Proof.
  unfold waveBlock, Wave.reset.
  cbn [Wave.lastX Wave.lastDir Wave.flips Wave.startMs Wave.minX Wave.maxX].
  change (0 =? 0)%Z with true. cbn [negb].
  rewrite !andb_false_r.
  destruct (now - (if 0 =? 0 then now else 0) >? 1700);
    cbn [Wave.flips Wave.startMs Wave.maxX Wave.minX];
    change (0 >=? 3)%Z with false;
    rewrite andb_false_r; reflexivity.
Qed.

Lemma stillBlock_not_goodbye now st wrist :
  fst (stillBlock now st wrist) <> Some goodbye.
Proof.
  unfold stillBlock. cbv zeta.
  destruct (_ && (_ >? 650)); [discriminate|].
  destruct (_ || _); discriminate.
Qed.

Lemma staticRules_not_goodbye g wrist thumbTip thumbMcp hs :
  staticRules g wrist thumbTip thumbMcp hs <> Some goodbye.
Proof.
  unfold staticRules. cbv zeta.
  repeat match goal with
         | |- (if ?c then _ else _) <> _ => destruct c
         end; discriminate.
Qed.

(** 'goodbye' comes from the wave block only, and not on the first frame
    after a reset of the wave tracker. *)
Lemma classify_fresh_not_goodbye baseline nowWave nowStill still landmarks :
  fst (classifyGesture baseline nowWave nowStill
         (mkTrackers Wave.reset still) landmarks) <> Some goodbye.
Proof.
  unfold classifyGesture.
  destruct (lm_at landmarks 0) as [w|]; [|discriminate].
  destruct (lm_at landmarks 4) as [tt|]; [|discriminate].
  destruct (lm_at landmarks 2) as [tm|]; [|discriminate].
  cbv zeta. cbn [waveRef stillRef].
  set (hs := scaleRef baseline landmarks).
  set (g := readFingers landmarks tt hs).
  pose proof (waveBlock_fresh nowWave w hs) as Hw.
  pose proof (stillBlock_not_goodbye nowStill still w) as Hst.
  pose proof (staticRules_not_goodbye g w tt tm hs) as Hrules.
  assert (Hrest : forall wave',
    fst (let (held, still') :=
           if openHand g || fourFingers g
           then stillBlock nowStill still w else (None, Still.reset) in
         match held with
         | Some h => (Some h, mkTrackers wave' still')
         | None => (staticRules g w tt tm hs, mkTrackers wave' still')
         end) <> Some goodbye).
  { intros wave'. destruct (openHand g || fourFingers g).
    - destruct (stillBlock nowStill still w) as [[h|] st]; cbn [fst] in *;
        assumption.
    - exact Hrules. }
  destruct (palmFour g).
  - destruct (waveBlock nowWave Wave.reset w hs) as [waved s1].
    cbn [fst] in Hw. subst waved. apply Hrest.
  - apply Hrest.
Qed.

(** In exact arithmetic and with the wave tracker freshly reset, the
    scaled run agrees with the original one without further provisos. *)
Corollary scale_invariance_fresh_wave baseline baseline' nowWave nowStill
    still landmarks f :
  0 < f ->
  scaleRef baseline' (scaleAboutWrist f landmarks)
  = f * scaleRef baseline landmarks ->
  fst (classifyGesture baseline' nowWave nowStill
         (mkTrackers Wave.reset still) (scaleAboutWrist f landmarks))
  = fst (classifyGesture baseline nowWave nowStill
           (mkTrackers Wave.reset still) landmarks).
Proof.
  intros Hf Hs.
  destruct (classify_scaled_cases baseline baseline' nowWave nowStill
              (mkTrackers Wave.reset still) landmarks f Hf Hs)
    as [Heq | [Hwave | Hwave]]; [exact Heq | exfalso ..];
    exact (classify_fresh_not_goodbye _ _ _ _ _ Hwave).
Qed.

Lemma handFour_scale : scaleRef 0 handFour = 0.1.
Proof.
  apply (scaleRef_value 0 handFour (mkLandmark 0.5 0.8) (mkLandmark 0.5 0.7));
    try reflexivity; unfold dist2; cbn [x y]; lra.
Qed.

Lemma handFour_fingers :
  readFingers handFour (mkLandmark (0.5 - 0.03) 0.8) 0.1
  = mkFingers false true true true true false false false false true.
Proof.
  on_hand. rewrite (sqrt_of_square _ 0.1) by lra. rcmp. reflexivity.
Qed.

Lemma handFour_scaled_scale :
  scaleRef 0 (scaleAboutWrist 2 handFour) = 2 * 0.1.
Proof.
  apply (scaleRef_value 0 (scaleAboutWrist 2 handFour) (mkLandmark 0.5 0.8)
           (scalePoint 2 (mkLandmark 0.5 0.8) (mkLandmark 0.5 0.7)));
    try reflexivity; unfold dist2, scalePoint; cbn [x y]; try lra.
  rewrite (lm_at_scale 2 handFour (mkLandmark 0.5 0.8)) by reflexivity.
  change (lm_at handFour 0) with (Some (mkLandmark 0.5 0.8)).
  cbn [option_map]. now rewrite scalePoint_wrist.
Qed.

(** Unfold the two tracker blocks on concrete states. *)
Ltac on_blocks :=
  cbv [waveBlock stillBlock waveMidSwing initTrackers waveRef stillRef
       Wave.reset Wave.lastX Wave.lastDir Wave.flips Wave.startMs Wave.minX
       Wave.maxX Still.reset Still.lastX Still.lastY Still.stillMs
       Still.lastMs orElse x y].

(** Run the classifier on [handFour], and on [handFour] scaled by 2. *)
Ltac classify_handFour :=
  unfold classifyGesture;
  change (lm_at handFour 0) with (Some (mkLandmark 0.5 0.8));
  change (lm_at handFour 4) with (Some (mkLandmark (0.5 - 0.03) 0.8));
  change (lm_at handFour 2) with (Some (mkLandmark (0.5 - 0.05) 0.8));
  cbv zeta; rewrite handFour_scale, handFour_fingers;
  run_rules; on_blocks; repeat progress (rcmp; cbv [andb orb negb]);
  reflexivity.

Ltac classify_handFour_scaled :=
  unfold classifyGesture;
  rewrite !(lm_at_scale 2 handFour (mkLandmark 0.5 0.8)) by reflexivity;
  change (lm_at handFour 0) with (Some (mkLandmark 0.5 0.8));
  change (lm_at handFour 4) with (Some (mkLandmark (0.5 - 0.03) 0.8));
  change (lm_at handFour 2) with (Some (mkLandmark (0.5 - 0.05) 0.8));
  cbn [option_map]; cbv zeta; rewrite handFour_scaled_scale;
  rewrite (readFingers_scale 2 0.1 handFour (mkLandmark 0.5 0.8))
    by (reflexivity || lra);
  rewrite scalePoint_wrist, handFour_fingers;
  run_rules; on_blocks; repeat progress (rcmp; cbv [andb orb negb]);
  reflexivity.


Lemma handFour_fresh :
  fst (classifyGesture 0 2000 2000 initTrackers handFour) = Some thank_you.
Proof. classify_handFour. Qed.

Lemma handFour_scaled_fresh :
  fst (classifyGesture 0 2000 2000 initTrackers (scaleAboutWrist 2 handFour))
  = Some thank_you.
Proof. classify_handFour_scaled. Qed.

(** *** Scaling in rounded arithmetic *)

Ltac consts := unfold Rounded.u, Rounded.eta, Rounded.big, tau in *.

Lemma abs_le a b : Rabs a <= b <-> - b <= a <= b.
Proof. unfold Rabs. destruct (Rcase_abs a); lra. Qed.

Section Accuracy.
Variables rnd pow2 : R -> R.
Hypothesis HL : Rounded.Laws rnd pow2.

Lemma rnd_near v :
  Rabs v <= Rounded.big ->
  v - (Rounded.u * Rabs v + Rounded.eta) <= rnd v
  <= v + (Rounded.u * Rabs v + Rounded.eta).
Proof.
  intros Hv. pose proof (Rounded.rnd_acc _ _ HL v Hv) as H.
  apply abs_le in H. lra.
Qed.

Lemma rnd_near_pos v :
  0 <= v <= Rounded.big ->
  (1 - Rounded.u) * v - Rounded.eta <= rnd v
  <= (1 + Rounded.u) * v + Rounded.eta.
Proof.
  intros Hv. assert (Ha : Rabs v = v) by (apply Rabs_pos_eq; lra).
  pose proof (rnd_near v) as H. rewrite Ha in H.
  specialize (H ltac:(lra)). lra.
Qed.

Lemma sq_near_pos e eF :
  0 <= e <= 2048 ->
  e - (Rounded.u * e + Rounded.eta) <= eF
  <= e + (Rounded.u * e + Rounded.eta) ->
  (1 - 3 * Rounded.u) * (e * e) - 8192 * Rounded.eta <= eF * eF
  <= (1 + 3 * Rounded.u) * (e * e) + 8192 * Rounded.eta.
Proof.
  intros He HF. consts.
  set (hi := e + (/ 1125899906842624 * e
     + / 1606938044258990275541962092341162602522202993782792835301376)).
  set (lo := e - (/ 1125899906842624 * e
     + / 1606938044258990275541962092341162602522202993782792835301376)).
  assert (Hee : 0 <= e * e) by (apply Rmult_le_pos; lra).
  assert (Hff : 0 <= eF * eF) by nra.
  assert (Hup : 0 <= (hi - eF) * (hi + eF))
    by (apply Rmult_le_pos; unfold hi; lra).
  split.
  - destruct (Rle_dec 0 lo) as [Hlo|Hlo].
    + assert (Hdn : 0 <= (eF - lo) * (eF + lo))
        by (apply Rmult_le_pos; unfold lo in *; lra).
      unfold lo in Hdn. lra.
    + assert (Hsmall : 0 <= e * (2 * / 1606938044258990275541962092341162602522202993782792835301376 - e))
        by (apply Rmult_le_pos; unfold lo in Hlo; lra).
      lra.
  - unfold hi in Hup. lra.
Qed.

(** The rounded square of a rounded difference. *)
Lemma sq_near a b :
  Rabs a <= 1024 -> Rabs b <= 1024 ->
  let d := a - b in
  let q := Rounded.mul rnd (Rounded.sub rnd a b) (Rounded.sub rnd a b) in
  (1 - 5 * Rounded.u) * (d * d) - 32768 * Rounded.eta <= q
  <= (1 + 5 * Rounded.u) * (d * d) + 32768 * Rounded.eta
  /\ 0 <= q <= 8388608.
Proof.
  intros Ha Hb d q. unfold Rounded.mul, Rounded.sub in q. fold d in q.
  assert (Hd : - 2048 <= d <= 2048).
  { unfold d. apply abs_le in Ha, Hb. lra. }
  assert (Hbig : Rabs d <= Rounded.big)
    by (apply abs_le; unfold Rounded.big; lra).
  pose proof (rnd_near d Hbig) as Hr.
  set (dF := rnd d) in *.
  assert (Hdd : 0 <= d * d) by nra.
  assert (Hdd2 : d * d <= 2048 * 2048) by nra.
  assert (Hpp : 0 <= dF * dF) by nra.
  assert (Hp : (1 - 3 * Rounded.u) * (d * d) - 8192 * Rounded.eta <= dF * dF
               <= (1 + 3 * Rounded.u) * (d * d) + 8192 * Rounded.eta).
  { unfold Rabs in Hr. destruct (Rcase_abs d) as [Hneg|Hpos].
    - replace (d * d) with ((- d) * (- d)) by ring.
      replace (dF * dF) with ((- dF) * (- dF)) by ring.
      apply sq_near_pos; lra.
    - apply sq_near_pos; lra. }
  assert (Hpb : dF * dF <= Rounded.big) by (consts; lra).
  pose proof (rnd_near_pos (dF * dF) (conj Hpp Hpb)) as Hq. fold q in Hq.
  pose proof (Rounded.rnd_nonneg _ _ HL (dF * dF) Hpp) as Hq0. fold q in Hq0.
  consts. split; [split|split]; lra.
Qed.

(** The rounded squared distance. *)
Lemma dist2_near (A B : Landmark) :
  Rabs (x A) <= 1024 -> Rabs (y A) <= 1024 ->
  Rabs (x B) <= 1024 -> Rabs (y B) <= 1024 ->
  (1 - 7 * Rounded.u) * dist2 A B - 131072 * Rounded.eta
  <= Rounded.dist2 rnd A B
  <= (1 + 7 * Rounded.u) * dist2 A B + 131072 * Rounded.eta
  /\ 0 <= Rounded.dist2 rnd A B
  /\ 0 <= dist2 A B <= 8388608.
Proof.
  intros HxA HyA HxB HyB.
  destruct (sq_near (x A) (x B) HxA HxB) as [Hx [Hx0 Hx1]].
  destruct (sq_near (y A) (y B) HyA HyB) as [Hy [Hy0 Hy1]].
  cbv zeta in Hx, Hy, Hx0, Hx1, Hy0, Hy1.
  unfold Rounded.dist2, dist2. cbv zeta. unfold Rounded.add.
  set (qx := Rounded.mul rnd (Rounded.sub rnd (x A) (x B))
               (Rounded.sub rnd (x A) (x B))) in *.
  set (qy := Rounded.mul rnd (Rounded.sub rnd (y A) (y B))
               (Rounded.sub rnd (y A) (y B))) in *.
  set (dx := x A - x B) in *. set (dy := y A - y B) in *.
  assert (Hs : 0 <= qx + qy <= Rounded.big) by (consts; lra).
  pose proof (rnd_near_pos _ Hs) as Hr.
  pose proof (Rounded.rnd_nonneg _ _ HL _ (proj1 Hs)) as Hr0.
  assert (Hdx : 0 <= dx * dx) by nra.
  assert (Hdy : 0 <= dy * dy) by nra.
  assert (Hdx2 : dx * dx <= 2048 * 2048).
  { unfold dx. apply abs_le in HxA, HxB. nra. }
  assert (Hdy2 : dy * dy <= 2048 * 2048).
  { unfold dy. apply abs_le in HyA, HyB. nra. }
  consts. repeat split; lra.
Qed.

Lemma sqrt_upper X Y : 0 <= Y -> X <= Y * Y -> sqrt X <= Y.
Proof.
  intros HY H. rewrite <- (sqrt_square Y HY).
  apply sqrt_le_1_alt. exact H.
Qed.

Lemma sqrt_lower X Y : (0 <= Y -> Y * Y <= X) -> Y <= sqrt X.
Proof.
  intros H. destruct (Rle_dec 0 Y) as [HY|HY].
  - rewrite <- (sqrt_square Y HY). apply sqrt_le_1_alt. exact (H HY).
  - pose proof (sqrt_pos X). lra.
Qed.

(** The rounded distance. *)
Lemma dist_near (A B : Landmark) :
  Rabs (x A) <= 1024 -> Rabs (y A) <= 1024 ->
  Rabs (x B) <= 1024 -> Rabs (y B) <= 1024 ->
  (1 - 8 * Rounded.u) * dist A B - / 618970019642690137449562112
  <= Rounded.dist rnd A B
  <= (1 + 8 * Rounded.u) * dist A B + / 618970019642690137449562112
  /\ 0 <= Rounded.dist rnd A B
  /\ 0 <= dist A B <= 4096.
Proof.
  intros HxA HyA HxB HyB.
  destruct (dist2_near A B HxA HyA HxB HyB) as (Hn & HF0 & HD).
  unfold Rounded.dist, dist.
  set (D := dist2 A B) in *. set (DF := Rounded.dist2 rnd A B) in *.
  set (H := sqrt D).
  assert (HH0 : 0 <= H) by apply sqrt_pos.
  assert (HHH : H * H = D) by (apply sqrt_sqrt; lra).
  assert (HH1 : H <= 4096).
  { apply sqrt_upper; lra. }
  set (s := / 2475880078570760549798248448).
  assert (Hup : sqrt DF <= (1 + 4 * Rounded.u) * H + s).
  { apply sqrt_upper; [consts; unfold s; lra|].
    consts. unfold s.
    assert (0 <= H * H) by lra. nra. }
  assert (Hlo : (1 - 7 * Rounded.u) * H - s <= sqrt DF).
  { apply sqrt_lower. intros Hp.
    consts. unfold s in *.
    assert (Hc : 0 <= H * ((1 - 7 * / 1125899906842624) * H
                           - / 2475880078570760549798248448))
      by (apply Rmult_le_pos; lra).
    nra. }
  assert (Hx0 : 0 <= sqrt DF) by apply sqrt_pos.
  assert (Hx1 : sqrt DF <= Rounded.big) by (consts; unfold s in *; lra).
  pose proof (rnd_near_pos _ (conj Hx0 Hx1)) as Hr.
  pose proof (Rounded.rnd_nonneg _ _ HL _ Hx0) as Hr0.
  consts. unfold s in *. repeat split; lra.
Qed.

(** Two rounded quantities compare as the exact ones do, when the exact
    ones are apart. *)
Definition nearW (V VF : R) : Prop :=
  (1 - 28 * Rounded.u) * V - / 309485009821345068724781056 <= VF
  <= (1 + 28 * Rounded.u) * V + / 309485009821345068724781056.

Lemma cmp_agree A B AF BF :
  0 <= A -> 0 <= B -> / 2500000000 <= A + B ->
  nearW A AF -> nearW B BF -> apart A B ->
  (AF <? BF) = (A <? B).
Proof.
  unfold nearW, apart. intros HA HB Hfl HnA HnB Hap.
  rewrite (Rabs_pos_eq A HA), (Rabs_pos_eq B HB) in Hap.
  consts. unfold Rabs in Hap. destruct (Rcase_abs (A - B)) as [Hlt|Hge].
  - rewrite (Rltb_true A B) by lra. apply Rltb_true. lra.
  - rewrite (Rltb_false A B) by lra. apply Rltb_false. lra.
Qed.

Lemma lit_near c :
  0 <= c <= 1 ->
  (1 - Rounded.u) * c - Rounded.eta <= Rounded.lit rnd c
  <= (1 + Rounded.u) * c + Rounded.eta
  /\ 0 <= Rounded.lit rnd c.
Proof.
  intros Hc. unfold Rounded.lit. split.
  - apply rnd_near_pos. consts. lra.
  - apply (Rounded.rnd_nonneg _ _ HL). lra.
Qed.

Section Hand.
Variables (baseline : R) (landmarks : Landmarks).
Hypothesis Hb : inRange baseline landmarks.

Let hs := scaleRef baseline landmarks.
Let hsF := Rounded.scaleRef rnd baseline landmarks.

Lemma point_bounded i p :
  lm_at landmarks i = Some p -> Rabs (x p) <= 1024 /\ Rabs (y p) <= 1024.
Proof. apply Hb. Qed.

Lemma getHandSize_near :
  (1 - 8 * Rounded.u) * getHandSize landmarks
  - / 618970019642690137449562112
  <= Rounded.getHandSize rnd landmarks
  <= (1 + 8 * Rounded.u) * getHandSize landmarks
     + / 618970019642690137449562112
  /\ 0 <= Rounded.getHandSize rnd landmarks
  /\ 0 <= getHandSize landmarks <= 4096.
Proof.
  unfold Rounded.getHandSize, getHandSize.
  destruct (lm_at landmarks 0) as [w|] eqn:Ew;
    [|consts; repeat split; lra].
  destruct (lm_at landmarks 9) as [m|] eqn:Em;
    [|consts; repeat split; lra].
  destruct (point_bounded _ _ Ew), (point_bounded _ _ Em).
  apply dist_near; assumption.
Qed.

Lemma scaleRef_near :
  (1 - 9 * Rounded.u) * hs <= hsF <= (1 + 9 * Rounded.u) * hs
  /\ Rounded.lit rnd 0.0001 <= hsF
  /\ 0.0001 <= hs <= 4096.
Proof.
  destruct getHandSize_near as (Hg & Hg0 & Hg1).
  destruct (lit_near 0.0001 ltac:(lra)) as [Hc Hc0].
  destruct Hb as [Hbase _]. apply abs_le in Hbase.
  unfold hs, hsF, Rounded.scaleRef, scaleRef.
  set (G := getHandSize landmarks) in *.
  set (GF := Rounded.getHandSize rnd landmarks) in *.
  set (c := Rounded.lit rnd 0.0001) in *.
  assert (Hor : orElse baseline 0 = baseline).
  { unfold orElse. destruct (baseline =? 0) eqn:E; [|reflexivity].
    unfold Reqb in E. destruct (Req_dec_T baseline 0); [lra|discriminate]. }
  rewrite Hor. consts.
  unfold Rmax. repeat destruct (Rle_dec _ _); repeat split; lra.
Qed.

(** [Math.max(handSize, 0.0001) ** 2] on the rounded scale reference. *)
Lemma hs2_near :
  let hs2F := pow2 (Rmax hsF (Rounded.lit rnd 0.0001)) in
  (1 - 21 * Rounded.u) * (hs * hs) <= hs2F
  <= (1 + 21 * Rounded.u) * (hs * hs)
  /\ / 100000000 <= hs * hs <= 16777216.
Proof.
  destruct scaleRef_near as (Hn & Hc & Hh). cbv zeta.
  rewrite Rmax_left by exact Hc.
  assert (Hbig : Rabs hsF <= Rounded.big).
  { apply abs_le. consts. lra. }
  pose proof (Rounded.pow2_acc _ _ HL hsF Hbig) as Hp. apply abs_le in Hp.
  assert (Hhh : / 100000000 <= hs * hs <= 16777216) by nra.
  assert (Hup : hsF * hsF
                <= ((1 + 9 * Rounded.u) * hs) * ((1 + 9 * Rounded.u) * hs)).
  { consts. apply Rmult_le_compat; lra. }
  assert (Hlo : ((1 - 9 * Rounded.u) * hs) * ((1 - 9 * Rounded.u) * hs)
                <= hsF * hsF).
  { consts. apply Rmult_le_compat; lra. }
  consts. split; [split|exact Hhh]; lra.
Qed.

(** [c * hs2] for a coefficient [c] of a threshold. *)
Lemma margin_near c :
  / 20 <= c <= 1 ->
  let MF := Rounded.mul rnd (Rounded.lit rnd c)
              (pow2 (Rmax hsF (Rounded.lit rnd 0.0001))) in
  (1 - 25 * Rounded.u) * (c * (hs * hs)) <= MF
  <= (1 + 25 * Rounded.u) * (c * (hs * hs))
  /\ / 2000000000 <= c * (hs * hs) <= 16777216.
Proof.
  intros Hc. cbv zeta.
  destruct hs2_near as [Hn Hhh]. cbv zeta in Hn.
  set (hs2F := pow2 (Rmax hsF (Rounded.lit rnd 0.0001))) in *.
  destruct (lit_near c ltac:(lra)) as [Hl Hl0].
  set (cF := Rounded.lit rnd c) in *.
  unfold Rounded.mul.
  assert (Hm1 : 0 <= (c - / 20) * (hs * hs)) by (apply Rmult_le_pos; lra).
  assert (Hm2 : 0 <= (1 - c) * (hs * hs)) by (apply Rmult_le_pos; lra).
  assert (Hh0 : 0 <= hs2F) by (consts; lra).
  assert (Hup : cF * hs2F
                <= ((1 + Rounded.u) * c + Rounded.eta)
                   * ((1 + 21 * Rounded.u) * (hs * hs))).
  { consts. apply Rmult_le_compat; lra. }
  assert (Hlo : ((1 - Rounded.u) * c - Rounded.eta)
                * ((1 - 21 * Rounded.u) * (hs * hs))
                <= cF * hs2F).
  { consts. apply Rmult_le_compat; lra. }
  assert (Hp0 : 0 <= cF * hs2F) by (apply Rmult_le_pos; assumption).
  assert (Hp1 : cF * hs2F <= Rounded.big) by (consts; lra).
  pose proof (rnd_near_pos _ (conj Hp0 Hp1)) as Hr.
  consts. split; [split|split]; lra.
Qed.

(** The right-hand side [dist2 + c * hs2] of a finger test. *)
Lemma threshold_near (A B : Landmark) c i j :
  lm_at landmarks i = Some A -> lm_at landmarks j = Some B ->
  / 20 <= c <= 1 ->
  nearW (dist2 A B + c * hs ^ 2)
    (Rounded.add rnd (Rounded.dist2 rnd A B)
       (Rounded.mul rnd (Rounded.lit rnd c)
          (pow2 (Rmax hsF (Rounded.lit rnd 0.0001)))))
  /\ / 2000000000 <= dist2 A B + c * hs ^ 2.
Proof.
  intros HA HB Hc.
  destruct (point_bounded _ _ HA), (point_bounded _ _ HB).
  destruct (dist2_near A B) as (Hd & Hd0 & Hd1); try assumption.
  destruct (margin_near c Hc) as [Hm Hm1]. cbv zeta in Hm.
  set (MF := Rounded.mul rnd _ _) in *.
  set (DF := Rounded.dist2 rnd A B) in *.
  replace (hs ^ 2) with (hs * hs) by ring.
  unfold Rounded.add, nearW.
  assert (Hs0 : 0 <= DF + MF) by (consts; lra).
  assert (Hs1 : DF + MF <= Rounded.big) by (consts; lra).
  pose proof (rnd_near_pos _ (conj Hs0 Hs1)) as Hr.
  consts. split; [split|]; lra.
Qed.

Lemma side_near (A B : Landmark) i j :
  lm_at landmarks i = Some A -> lm_at landmarks j = Some B ->
  nearW (dist2 A B) (Rounded.dist2 rnd A B) /\ 0 <= dist2 A B.
Proof.
  intros HA HB.
  destruct (point_bounded _ _ HA), (point_bounded _ _ HB).
  destruct (dist2_near A B) as (Hd & Hd0 & Hd1); try assumption.
  unfold nearW. consts. split; [split|]; lra.
Qed.

Lemma cmp_agree_gt A B AF BF :
  0 <= A -> 0 <= B -> / 2500000000 <= A + B ->
  nearW A AF -> nearW B BF -> apart A B ->
  (AF >? BF) = (A >? B).
Proof.
  intros HA HB Hfl HnA HnB Hap. unfold Rgtb.
  apply cmp_agree; try assumption; [lra|].
  unfold apart in *. rewrite Rabs_minus_sym. lra.
Qed.

(** The two tests of an "extended" predicate. *)
Lemma extended_tests (w m p t : Landmark) c1 c2 iw im ip it :
  lm_at landmarks iw = Some w -> lm_at landmarks im = Some m ->
  lm_at landmarks ip = Some p -> lm_at landmarks it = Some t ->
  / 20 <= c1 <= 1 -> / 20 <= c2 <= 1 ->
  apart (dist2 t w) (dist2 p w + c1 * hs ^ 2) ->
  apart (dist2 p w) (dist2 m w + c2 * hs ^ 2) ->
  let hs2F := pow2 (Rmax hsF (Rounded.lit rnd 0.0001)) in
  (Rounded.dist2 rnd t w
   >? Rounded.add rnd (Rounded.dist2 rnd p w)
        (Rounded.mul rnd (Rounded.lit rnd c1) hs2F))
  && (Rounded.dist2 rnd p w
      >? Rounded.add rnd (Rounded.dist2 rnd m w)
           (Rounded.mul rnd (Rounded.lit rnd c2) hs2F))
  = (dist2 t w >? dist2 p w + c1 * hs ^ 2)
    && (dist2 p w >? dist2 m w + c2 * hs ^ 2).
Proof.
  intros Hw Hm Hp Ht Hc1 Hc2 Ha1 Ha2. cbv zeta.
  destruct (side_near t w _ _ Ht Hw) as [Ht1 Ht0].
  destruct (side_near p w _ _ Hp Hw) as [Hp1 Hp0].
  destruct (threshold_near p w c1 _ _ Hp Hw Hc1) as [Hq1 Hq0].
  destruct (threshold_near m w c2 _ _ Hm Hw Hc2) as [Hr1 Hr0].
  f_equal; apply cmp_agree_gt; try assumption; lra.
Qed.

Lemma isFingerExtended_exact mcp pip tip :
  decisiveExtended landmarks mcp pip tip 0.16 0.08 hs ->
  Rounded.isFingerExtended rnd pow2 landmarks mcp pip tip hsF
  = isFingerExtended landmarks mcp pip tip hs.
Proof.
  destruct scaleRef_near as (_ & _ & Hh).
  unfold decisiveExtended, Rounded.isFingerExtended, isFingerExtended.
  destruct (lm_at landmarks 0) as [w|] eqn:Ew; [|reflexivity].
  destruct (lm_at landmarks mcp) as [m|] eqn:Em; [|reflexivity].
  destruct (lm_at landmarks pip) as [p|] eqn:Ep; [|reflexivity].
  destruct (lm_at landmarks tip) as [t|] eqn:Et; [|reflexivity].
  intros [H1 H2]. cbv zeta. rewrite (Rmax_left hs) by lra.
  apply (extended_tests w m p t 0.16 0.08 0%nat mcp pip tip);
    first [assumption | lra].
Qed.

Lemma isThumbExtended_exact :
  decisiveExtended landmarks 2 3 4 0.128 0.064 hs ->
  Rounded.isThumbExtended rnd pow2 landmarks hsF
  = isThumbExtended landmarks hs.
Proof.
  destruct scaleRef_near as (_ & _ & Hh).
  unfold decisiveExtended, Rounded.isThumbExtended, isThumbExtended.
  destruct (lm_at landmarks 0) as [w|] eqn:Ew; [|reflexivity].
  destruct (lm_at landmarks 2) as [m|] eqn:Em;
    [|destruct (lm_at landmarks 4), (lm_at landmarks 3); reflexivity].
  destruct (lm_at landmarks 3) as [p|] eqn:Ep;
    [|destruct (lm_at landmarks 4); reflexivity].
  destruct (lm_at landmarks 4) as [t|] eqn:Et; [|reflexivity].
  intros [H1 H2]. cbv zeta. rewrite (Rmax_left hs) by lra.
  apply (extended_tests w m p t 0.128 0.064 0%nat 2%nat 3%nat 4%nat);
    first [assumption | lra].
Qed.

Lemma isFingerCurled_exact mcp pip tip :
  decisiveCurled landmarks mcp pip tip hs ->
  Rounded.isFingerCurled rnd pow2 landmarks mcp pip tip hsF
  = isFingerCurled landmarks mcp pip tip hs.
Proof.
  destruct scaleRef_near as (_ & _ & Hh).
  unfold decisiveCurled, Rounded.isFingerCurled, isFingerCurled.
  destruct (lm_at landmarks 0) as [w|] eqn:Ew; [|reflexivity].
  destruct (lm_at landmarks mcp) as [m|] eqn:Em; [|reflexivity].
  destruct (lm_at landmarks pip) as [p|] eqn:Ep; [|reflexivity].
  destruct (lm_at landmarks tip) as [t|] eqn:Et; [|reflexivity].
  intros H1. cbv zeta. rewrite (Rmax_left hs) by lra.
  destruct (side_near p w _ _ Ep Ew) as [Hp1 Hp0].
  destruct (threshold_near t w 0.128 _ _ Et Ew ltac:(lra)) as [Hq1 Hq0].
  apply cmp_agree; try assumption; lra.
Qed.

(** [c * hs] for a coefficient of a threshold on lengths. *)
Lemma scaled_near c :
  / 20 <= c <= 1 ->
  (1 - 12 * Rounded.u) * (c * hs)
  <= Rounded.mul rnd (Rounded.lit rnd c) hsF
  <= (1 + 12 * Rounded.u) * (c * hs)
  /\ / 200000 <= c * hs <= 4096.
Proof.
  intros Hc. destruct scaleRef_near as (Hn & _ & Hh).
  destruct (lit_near c ltac:(lra)) as [Hl Hl0].
  set (cF := Rounded.lit rnd c) in *.
  unfold Rounded.mul.
  assert (Hm1 : 0 <= (c - / 20) * hs) by (apply Rmult_le_pos; lra).
  assert (Hm2 : 0 <= (1 - c) * hs) by (apply Rmult_le_pos; lra).
  assert (Hh0 : 0 <= hsF) by (consts; lra).
  assert (Hup : cF * hsF
                <= ((1 + Rounded.u) * c + Rounded.eta)
                   * ((1 + 9 * Rounded.u) * hs)).
  { consts. apply Rmult_le_compat; lra. }
  assert (Hlo : ((1 - Rounded.u) * c - Rounded.eta)
                * ((1 - 9 * Rounded.u) * hs)
                <= cF * hsF).
  { consts. apply Rmult_le_compat; lra. }
  assert (Hp0 : 0 <= cF * hsF) by (apply Rmult_le_pos; assumption).
  assert (Hp1 : cF * hsF <= Rounded.big) by (consts; lra).
  pose proof (rnd_near_pos _ (conj Hp0 Hp1)) as Hr.
  consts. split; [split|split]; lra.
Qed.

Lemma thumbSpread_exact (thumbTip indexMcp : Landmark) :
  lm_at landmarks 4 = Some thumbTip ->
  lm_at landmarks 5 = Some indexMcp ->
  apart (dist thumbTip indexMcp) (0.48 * hs) ->
  (Rounded.dist rnd thumbTip indexMcp
   >? Rounded.mul rnd (Rounded.lit rnd 0.48) hsF)
  = (dist thumbTip indexMcp >? 0.48 * hs).
Proof.
  intros Ht Hi Hap.
  destruct (point_bounded _ _ Ht), (point_bounded _ _ Hi).
  destruct (dist_near thumbTip indexMcp) as (Hd & Hd0 & Hd1);
    try assumption.
  destruct (scaled_near 0.48 ltac:(lra)) as [Hs Hs1].
  apply cmp_agree_gt; try assumption; try lra;
    unfold nearW; consts; lra.
Qed.

Lemma down_exact (wrist thumbTip thumbMcp : Landmark) :
  lm_at landmarks 0 = Some wrist ->
  lm_at landmarks 4 = Some thumbTip ->
  lm_at landmarks 2 = Some thumbMcp ->
  Rabs (y thumbTip - (Rmax (y thumbMcp) (y wrist) + 0.24 * hs))
  > tau * (Rabs (y thumbMcp) + Rabs (y wrist) + hs) ->
  (y thumbTip
   >? Rounded.add rnd (Rmax (y thumbMcp) (y wrist))
        (Rounded.mul rnd (Rounded.lit rnd 0.24) hsF))
  = (y thumbTip >? Rmax (y thumbMcp) (y wrist) + 0.24 * hs).
Proof.
  intros Hw Ht Hm Hap.
  destruct (point_bounded _ _ Hw) as [_ Hyw].
  destruct (point_bounded _ _ Hm) as [_ Hym].
  destruct (scaled_near 0.24 ltac:(lra)) as [Hs Hs1].
  destruct scaleRef_near as (_ & _ & Hh).
  set (TF := Rounded.mul rnd (Rounded.lit rnd 0.24) hsF) in *.
  unfold Rounded.add. set (M := Rmax (y thumbMcp) (y wrist)) in *.
  assert (HM : Rabs M <= Rabs (y thumbMcp) + Rabs (y wrist)
               /\ Rabs M <= 1024).
  { unfold M, Rmax. apply abs_le in Hyw, Hym.
    unfold Rabs. repeat destruct (Rcase_abs _);
      destruct (Rle_dec _ _); split; lra. }
  destruct HM as [HM1 HM2].
  assert (Hv : Rabs (M + TF) <= Rabs M + 0.25 * hs).
  { apply abs_le. apply abs_le in HM2. consts.
    unfold Rabs. destruct (Rcase_abs M); lra. }
  assert (Hbig : Rabs (M + TF) <= Rounded.big) by (consts; lra).
  pose proof (rnd_near _ Hbig) as Hr.
  unfold Rgtb. consts.
  unfold Rabs in Hap at 1.
  destruct (Rcase_abs (y thumbTip - (M + 0.24 * hs))) as [Hlt|Hge].
  - rewrite (Rltb_false (M + 0.24 * hs)) by lra. apply Rltb_false. lra.
  - rewrite (Rltb_true (M + 0.24 * hs)) by lra. apply Rltb_true. lra.
Qed.

Lemma readFingers_exact (thumbTip : Landmark) :
  lm_at landmarks 4 = Some thumbTip ->
  decisive baseline landmarks ->
  Rounded.readFingers rnd pow2 landmarks thumbTip hsF
  = readFingers landmarks thumbTip hs.
Proof.
  intros Ht Hc. unfold decisive in Hc. cbv zeta in Hc. fold hs in Hc.
  destruct Hc as (C0 & C1 & C2 & C3 & C4 & C5 & C6 & C7 & C8 & C9 & _).
  unfold Rounded.readFingers, readFingers.
  rewrite isThumbExtended_exact by exact C0.
  rewrite !isFingerExtended_exact by assumption.
  rewrite !isFingerCurled_exact by assumption.
  f_equal. rewrite Ht in C9.
  destruct (lm_at landmarks 5) as [indexMcp|] eqn:Ei; [|reflexivity].
  apply thumbSpread_exact; assumption.
Qed.

Lemma staticRules_exact (g : Fingers) (wrist thumbTip thumbMcp : Landmark) :
  lm_at landmarks 0 = Some wrist ->
  lm_at landmarks 4 = Some thumbTip ->
  lm_at landmarks 2 = Some thumbMcp ->
  decisive baseline landmarks ->
  Rounded.staticRules rnd g wrist thumbTip thumbMcp hsF
  = staticRules g wrist thumbTip thumbMcp hs.
Proof.
  intros Hw Ht Hm Hc. unfold decisive in Hc. cbv zeta in Hc. fold hs in Hc.
  destruct Hc as (_ & _ & _ & _ & _ & _ & _ & _ & _ & _ & C10).
  rewrite Hw, Ht, Hm in C10.
  unfold Rounded.staticRules, staticRules.
  destruct (waterShape g); [reflexivity|].
  destruct (assistanceShape g); [reflexivity|].
  destruct (fourFingers g); [reflexivity|].
  destruct (thumb g && negb (index g) && negb (middle g)
            && negb (ring g) && negb (pinky g)); [|reflexivity].
  cbv zeta. rewrite (down_exact wrist thumbTip thumbMcp Hw Ht Hm C10).
  destruct (y thumbTip >? Rmax (y thumbMcp) (y wrist) + 0.24 * hs);
    [reflexivity|].
  destruct (_ <? _), (_ <? _); reflexivity.
Qed.
End Hand.
End Accuracy.

(** What the rounded classifier answers when the wave rule does not
    fire, in terms of the fingers it read. *)
Lemma rounded_answer rnd pow2 baseline nowWave nowStill refs landmarks
    wrist thumbTip thumbMcp :
  lm_at landmarks 0 = Some wrist ->
  lm_at landmarks 4 = Some thumbTip ->
  lm_at landmarks 2 = Some thumbMcp ->
  fst (Rounded.classifyGesture rnd pow2 baseline nowWave nowStill refs
         landmarks) <> Some goodbye ->
  let hs := Rounded.scaleRef rnd baseline landmarks in
  let g := Rounded.readFingers rnd pow2 landmarks thumbTip hs in
  fst (Rounded.classifyGesture rnd pow2 baseline nowWave nowStill refs
         landmarks)
  = match (if openHand g || fourFingers g
           then fst (Rounded.stillBlock rnd nowStill (stillRef refs) wrist)
           else None) with
    | Some h => Some h
    | None => Rounded.staticRules rnd g wrist thumbTip thumbMcp hs
    end.
Proof.
  intros Hw Ht Hm. unfold Rounded.classifyGesture. rewrite Hw, Ht, Hm.
  cbv zeta.
  set (hs := Rounded.scaleRef rnd baseline landmarks).
  set (g := Rounded.readFingers rnd pow2 landmarks thumbTip hs).
  destruct (if palmFour g
            then Rounded.waveBlock rnd nowWave (waveRef refs) wrist hs
            else (false, Wave.reset)) as [waved wave'].
  destruct waved; [intros H; exfalso; apply H; reflexivity|].
  intros _.
  destruct (openHand g || fourFingers g).
  - destruct (Rounded.stillBlock rnd nowStill (stillRef refs) wrist)
      as [[h|] st]; reflexivity.
  - reflexivity.
Qed.


(** Exact arithmetic meets the laws, and so does an arithmetic that
    overshoots every result by one part in 2^50. *)
Lemma Laws_exact : Rounded.Laws (fun v => v) (fun a => a ^ 2).
Proof.
  split.
  - intros v _. replace (v - v) with 0 by ring. rewrite Rabs_R0.
    pose proof (Rabs_pos v). unfold Rounded.u, Rounded.eta. lra.
  - intros v Hv. exact Hv.
  - intros a _. replace (a ^ 2 - a * a) with 0 by ring. rewrite Rabs_R0.
    assert (0 <= a * a) by nra. unfold Rounded.u, Rounded.eta. lra.
Qed.

Lemma Laws_inflating :
  Rounded.Laws (fun v => v * (1 + Rounded.u))
    (fun a => a * a * (1 + Rounded.u)).
Proof.
  split.
  - intros v _. replace (v * (1 + Rounded.u) - v) with (Rounded.u * v) by ring.
    rewrite Rabs_mult, (Rabs_pos_eq Rounded.u)
      by (unfold Rounded.u; lra).
    unfold Rounded.eta. lra.
  - intros v Hv. apply Rmult_le_pos; [exact Hv | unfold Rounded.u; lra].
  - intros a _.
    replace (a * a * (1 + Rounded.u) - a * a) with (Rounded.u * (a * a))
      by ring.
    assert (0 <= a * a) by nra.
    rewrite Rabs_pos_eq by (unfold Rounded.u; nra).
    unfold Rounded.eta. lra.
Qed.

(** With exact arithmetic the rounded classifier is the exact one. *)
Lemma rounded_exact baseline nowWave nowStill refs landmarks :
  Rounded.classifyGesture (fun v => v) (fun a => a ^ 2) baseline nowWave
    nowStill refs landmarks
  = classifyGesture baseline nowWave nowStill refs landmarks.
Proof. reflexivity. Qed.

Ltac apart_tac :=
  unfold apart, dist2, scalePoint, tau, Rmax; cbn [x y];
  unfold Rabs; repeat destruct (Rcase_abs _);
  repeat destruct (Rle_dec _ _); lra.

Lemma handFour_inRange : inRange 0 handFour.
Proof.
  split; [rewrite Rabs_R0; lra|].
  intros i p Hi.
  do 21 (destruct i as [|i];
         [cbv [lm_at nth_error handFour thumbIn straight finger pt app] in Hi;
          injection Hi as <-; cbn [x y]; split; apply abs_le; lra|]).
  cbv [lm_at nth_error handFour thumbIn straight finger pt app] in Hi.
  destruct i; discriminate Hi.
Qed.

Lemma handFour_decisive : decisive 0 handFour.
Proof.
  unfold decisive. cbv zeta. rewrite handFour_scale.
  unfold decisiveExtended, decisiveCurled.
  cbv [lm_at nth_error handFour thumbIn straight finger pt app].
  unfold dist. 
  replace (dist2 (mkLandmark (0.5 - 0.03) 0.8) (mkLandmark 0.47 0.7))
    with (0.1 * 0.1) by (unfold dist2; cbn [x y]; lra).
  rewrite sqrt_square by lra.
  repeat split; apart_tac.
Qed.

Lemma handFour_scaled_inRange : inRange 0 (scaleAboutWrist 2 handFour).
Proof.
  split; [rewrite Rabs_R0; lra|].
  intros i p Hi.
  rewrite (lm_at_scale 2 handFour (mkLandmark 0.5 0.8)) in Hi
    by reflexivity.
  do 21 (destruct i as [|i];
         [cbv [lm_at nth_error handFour thumbIn straight finger pt app
               option_map scalePoint] in Hi;
          injection Hi as <-; cbn [x y]; split; apply abs_le; lra|]).
  cbv [lm_at nth_error handFour thumbIn straight finger pt app] in Hi.
  destruct i; discriminate Hi.
Qed.

Lemma handFour_scaled_decisive : decisive 0 (scaleAboutWrist 2 handFour).
Proof.
  unfold decisive. cbv zeta. rewrite handFour_scaled_scale.
  unfold decisiveExtended, decisiveCurled.
  rewrite !(lm_at_scale 2 handFour (mkLandmark 0.5 0.8)) by reflexivity.
  cbv [lm_at nth_error handFour thumbIn straight finger pt app option_map].
  unfold dist.
  replace (dist2 (scalePoint 2 (mkLandmark 0.5 0.8)
                    (mkLandmark (0.5 - 0.03) 0.8))
             (scalePoint 2 (mkLandmark 0.5 0.8) (mkLandmark 0.47 0.7)))
    with (0.2 * 0.2) by (unfold dist2, scalePoint; cbn [x y]; lra).
  rewrite sqrt_square by lra.
  repeat split; apart_tac.
Qed.

(** With the wave tracker freshly reset the rounded classifier cannot
    answer 'goodbye', whatever the arithmetic: no flip has been counted. *)
Lemma rounded_waveBlock_fresh rnd now wrist hs :
  fst (Rounded.waveBlock rnd now Wave.reset wrist hs) = false.
Proof.
  unfold Rounded.waveBlock, Wave.reset.
  cbn [Wave.lastX Wave.lastDir Wave.flips Wave.startMs Wave.minX Wave.maxX].
  change (0 =? 0)%Z with true. cbn [negb].
  rewrite !andb_false_r.
  destruct (Rounded.sub rnd now (if 0 =? 0 then now else 0) >? 1700);
    cbn [Wave.flips Wave.startMs Wave.maxX Wave.minX];
    change (0 >=? 3)%Z with false;
    rewrite andb_false_r; reflexivity.
Qed.

Lemma rounded_stillBlock_not_goodbye rnd now st wrist :
  fst (Rounded.stillBlock rnd now st wrist) <> Some goodbye.
Proof.
  unfold Rounded.stillBlock. cbv zeta.
  destruct (_ && (_ >? 650)); [discriminate|].
  destruct (_ || _); discriminate.
Qed.

Lemma rounded_staticRules_not_goodbye rnd g wrist thumbTip thumbMcp hs :
  Rounded.staticRules rnd g wrist thumbTip thumbMcp hs <> Some goodbye.
Proof.
  unfold Rounded.staticRules. cbv zeta.
  repeat match goal with
         | |- (if ?c then _ else _) <> _ => destruct c
         end; discriminate.
Qed.

Lemma rounded_fresh_not_goodbye rnd pow2 baseline nowWave nowStill still
    landmarks :
  fst (Rounded.classifyGesture rnd pow2 baseline nowWave nowStill
         (mkTrackers Wave.reset still) landmarks) <> Some goodbye.
Proof.
  unfold Rounded.classifyGesture.
  destruct (lm_at landmarks 0) as [w|]; [|discriminate].
  destruct (lm_at landmarks 4) as [tt|]; [|discriminate].
  destruct (lm_at landmarks 2) as [tm|]; [|discriminate].
  cbv zeta. cbn [waveRef stillRef].
  set (hs := Rounded.scaleRef rnd baseline landmarks).
  set (g := Rounded.readFingers rnd pow2 landmarks tt hs).
  pose proof (rounded_waveBlock_fresh rnd nowWave w hs) as Hw.
  pose proof (rounded_stillBlock_not_goodbye rnd nowStill still w) as Hst.
  pose proof (rounded_staticRules_not_goodbye rnd g w tt tm hs) as Hrules.
  assert (Hrest : forall wave',
    fst (let (held, still') :=
           if openHand g || fourFingers g
           then Rounded.stillBlock rnd nowStill still w
           else (None, Still.reset) in
         match held with
         | Some h => (Some h, mkTrackers wave' still')
         | None => (Rounded.staticRules rnd g w tt tm hs,
                    mkTrackers wave' still')
         end) <> Some goodbye).
  { intros wave'. destruct (openHand g || fourFingers g).
    - destruct (Rounded.stillBlock rnd nowStill still w) as [[h|] st];
        cbn [fst] in *; assumption.
    - exact Hrules. }
  destruct (palmFour g).
  - destruct (Rounded.waveBlock rnd nowWave Wave.reset w hs) as [waved s1].
    cbn [fst] in Hw. subst waved. apply Hrest.
  - apply Hrest.
Qed.


(** Why the margins are asked for: in binary64 itself, the two tests of
    [isFingerExtended] on a finger with its landmarks at distances 1/64,
    5/64 and 1/8 from the wrist answer [true] with the scale reference
    0x1.f3998f1b1886cp-3 and [false] on the same finger scaled about the
    wrist by 1.5 with 1.5 times that scale reference (both scalings are
    exact in binary64).  In exact arithmetic the first test holds in both
    cases by a relative margin of less than 2^-55. *)
Lemma rounding_flips_margin :
  Binary64.isFingerExtended Binary64.wristPoint Binary64.mcpPoint
    Binary64.pipPoint Binary64.tipPoint Binary64.reference = true
  /\ Binary64.isFingerExtended Binary64.wristPoint
       (Binary64.scalePoint Binary64.mcpPoint)
       (Binary64.scalePoint Binary64.pipPoint)
       (Binary64.scalePoint Binary64.tipPoint) Binary64.referenceScaled
     = false.
Proof. vm_compute. split; reflexivity. Qed.

(** *** The pass as a whole *)

(** Outside the calibration window, what a pass of [predict] sends out is
    what the lock step sends out for the candidate of the frame. *)
Lemma predict_lock_output s fr :
  fr_videoReady fr = true ->
  isCalibrating s = false ->
  snd (predict s fr)
  = snd (lockStep
           (fst (frameCandidate (baselineHandSize (calibrationRef s))
                   (fr_perf fr) (trackers s) (fr_lm0 fr) (fr_lm1 fr)))
           (fr_dateNow fr) (fr_speakNow fr) (lockRefs s)).
Proof.
  intros Hready Hcal. unfold predict. rewrite Hready, Hcal.
  destruct (frameCandidate _ _ _ _ _) as [cand tr]. cbn [fst].
  destruct (lockStep cand _ _ _) as [lr out]. reflexivity.
Qed.

(** *** Runs of the lock step *)

Lemma lockStep_cases cand nowMs speakNow r :
  let res := lockStep cand nowMs speakNow r in
  (onPhrase (snd res) = None
   /\ lastSpokenGestureRef (fst res) = lastSpokenGestureRef r
   /\ lastSpokenTime (fst res) = lastSpokenTime r
   /\ spoken (snd res) = None)
  \/ (exists c,
        cand = Some c
        /\ onPhrase (snd res) = Some (GESTURE_PHRASE c, c)
        /\ lastSpokenGestureRef r <> Some c
        /\ lastSpokenGestureRef (fst res) = Some c
        /\ candidate (lockStateRef r) = Some c
        /\ (LOCK_FRAMES <= S (streak (lockStateRef r)))%nat
        /\ ((spoken (snd res) = None
             /\ lastSpokenTime (fst res) = lastSpokenTime r)
            \/ (spoken (snd res) = Some (GESTURE_PHRASE c)
                /\ lastSpokenTime (fst res) = speakNow
                /\ (speakNow - lastSpokenTime r >= 3000)%Z))).
Proof.
  cbv zeta. unfold lockStep, speak.
  destruct cand as [c|]; [|left; cbn; auto].
  destruct (is_gesture (candidate (lockStateRef r)) c) eqn:Hsame.
  - apply is_gesture_iff in Hsame. cbn [streak].
    destruct (Nat.leb_spec LOCK_FRAMES (S (streak (lockStateRef r))));
      [|left; cbn; auto].
    destruct (nowMs - lastSpokenTime r >=? 2500)%Z; [|left; cbn; auto].
    destruct (is_gesture (lastSpokenGestureRef r) c) eqn:Hg;
      [left; cbn; auto|].
    cbn [andb negb]. right. exists c.
    assert (lastSpokenGestureRef r <> Some c).
    { intros E. apply is_gesture_iff in E. congruence. }
    destruct (Z.ltb_spec (speakNow - lastSpokenTime r) 3000);
      cbn; repeat split; auto.
    right. repeat split; auto. lia.
  - cbn [streak]. left. cbn. auto.
Qed.

(** X1.  In every run of the lock step, from any refs, the lock events
    never repeat a gesture back to back (the first one differs from the
    gesture locked before the run) and each event carries the phrase that
    [GESTURE_PHRASE] gives for its gesture. *)
Theorem lock_events_alternate (frames : list LockFrame) (r : LockRefs) :
  eventsAlternate (lastSpokenGestureRef r) (snd (runLock frames r)) = true.
Proof.
  revert r. induction frames as [|fr frames IH]; intros r; [reflexivity|].
  cbn [runLock].
  pose proof (lockStep_cases (lf_candidate fr) (lf_nowMs fr) (lf_speakNow fr) r)
    as H. cbv zeta in H.
  destruct (lockStep (lf_candidate fr) (lf_nowMs fr) (lf_speakNow fr) r)
    as [r1 out].
  specialize (IH r1). destruct (runLock frames r1) as [r2 evs].
  cbn [fst snd] in *.
  destruct H as [(Hno & Hg & _) | (c & _ & Hev & Hne & Hg & _)].
  - rewrite Hno. now rewrite <- Hg.
  - rewrite Hev. cbn [eventsAlternate].
    rewrite (is_gesture_neq _ _ Hne), String.eqb_refl. cbn [negb andb].
    now rewrite <- Hg.
Qed.

(** X2.  In every run of the lock step the voice engine is used at most
    once per 3000 ms: the [Date.now()] readings of [speak] on the frames
    that speak are at least 3000 ms apart, the first one at least 3000 ms
    after the [lastSpokenTime] the run starts with. *)
Theorem spoken_spacing (frames : list LockFrame) (r : LockRefs) :
  spacedFrom 3000 (lastSpokenTime r) (runSpoken frames r) = true.
Proof.
  revert r. induction frames as [|fr frames IH]; intros r; [reflexivity|].
  cbn [runSpoken].
  pose proof (lockStep_cases (lf_candidate fr) (lf_nowMs fr) (lf_speakNow fr) r)
    as H. cbv zeta in H.
  destruct (lockStep (lf_candidate fr) (lf_nowMs fr) (lf_speakNow fr) r)
    as [r1 out].
  specialize (IH r1). cbn [fst snd] in *.
  destruct H as [(_ & _ & Ht & Hs)
                | (c & _ & _ & _ & _ & _ & _ & [(Hs & Ht) | (Hs & Ht & Hgap)])].
  - rewrite Hs. now rewrite <- Ht.
  - rewrite Hs. now rewrite <- Ht.
  - rewrite Hs. cbn [spacedFrom]. rewrite Ht in IH. rewrite IH.
    destruct (Z.geb_spec (lf_speakNow fr - lastSpokenTime r) 3000);
      [reflexivity | lia].
Qed.

Lemma lockStep_lockState cand nowMs speakNow r :
  lockStateRef (fst (lockStep cand nowMs speakNow r))
  = match cand with
    | None => mkLockState None 0
    | Some c =>
        if is_gesture (candidate (lockStateRef r)) c
        then mkLockState (candidate (lockStateRef r))
               (S (streak (lockStateRef r)))
        else mkLockState (Some c) 1
    end.
Proof.
  unfold lockStep. destruct cand as [c|]; [|reflexivity].
  destruct (LOCK_FRAMES <=? _)%nat; [|reflexivity].
  destruct (_ && _); [|reflexivity].
  destruct (speak speakNow (lastSpokenTime r)); reflexivity.
Qed.

Lemma lockStep_credit cand nowMs speakNow r :
  ((match onPhrase (snd (lockStep cand nowMs speakNow r)) with
    | Some _ => LOCK_FRAMES
    | None => 0
    end)
   + lockCredit (fst (lockStep cand nowMs speakNow r))
   <= 1 + lockCredit r)%nat.
Proof.
  pose proof (lockStep_cases cand nowMs speakNow r) as H. cbv zeta in H.
  pose proof (lockStep_lockState cand nowMs speakNow r) as Hl.
  unfold lockCredit at 1. rewrite Hl. clear Hl.
  destruct H as [(Hno & Hg & _) | (c & -> & Hev & Hne & Hg & Hc & Hk & _)].
  - rewrite Hno, Hg. destruct cand as [c|]; [|cbn; lia].
    destruct (is_gesture (candidate (lockStateRef r)) c) eqn:Hsame;
      cbn [candidate streak].
    + apply is_gesture_iff in Hsame. unfold lockCredit. rewrite Hsame.
      destruct (is_gesture (lastSpokenGestureRef r) c); lia.
    + destruct (is_gesture (lastSpokenGestureRef r) c); lia.
  - rewrite Hev, Hg, Hc, is_gesture_same. cbn [candidate].
    rewrite is_gesture_same. unfold lockCredit.
    rewrite Hc, (is_gesture_neq _ _ Hne). lia.
Qed.

(** X3.  A lock costs [LOCK_FRAMES] frames: over any run, ten times the
    number of lock events is at most the number of frames plus the streak
    the run starts with.  From the initial refs, [n] frames emit at most
    [n / 10] lock events. *)
Theorem lock_events_rate (frames : list LockFrame) (r : LockRefs) :
  (LOCK_FRAMES * List.length (snd (runLock frames r))
   <= List.length frames + streak (lockStateRef r))%nat
  /\ (List.length (snd (runLock frames initLockRefs))
      <= List.length frames / LOCK_FRAMES)%nat.
Proof.
  assert (Hgen : forall fs r0,
    (LOCK_FRAMES * List.length (snd (runLock fs r0))
     + lockCredit (fst (runLock fs r0))
     <= List.length fs + lockCredit r0)%nat).
  { induction fs as [|fr fs IH]; intros r0; [cbn; lia|].
    cbn [runLock List.length].
    pose proof (lockStep_credit (lf_candidate fr) (lf_nowMs fr)
                  (lf_speakNow fr) r0) as Hstep.
    destruct (lockStep (lf_candidate fr) (lf_nowMs fr) (lf_speakNow fr) r0)
      as [r1 out].
    specialize (IH r1). destruct (runLock fs r1) as [r2 evs].
    cbn [fst snd] in *.
    destruct (onPhrase out); cbn [List.length]; lia. }
  assert (Hcredit : forall r0, (lockCredit r0 <= streak (lockStateRef r0))%nat).
  { intros r0. unfold lockCredit.
    destruct (candidate (lockStateRef r0)) as [c|]; [|lia].
    destruct (is_gesture (lastSpokenGestureRef r0) c); lia. }
  split.
  - pose proof (Hgen frames r). pose proof (Hcredit r). lia.
  - pose proof (Hgen frames initLockRefs) as H.
    change (lockCredit initLockRefs) with 0%nat in H.
    apply Nat.div_le_lower_bound; [unfold LOCK_FRAMES; lia | lia].
Qed.

Lemma leadingRun_other c b rest :
  b <> c -> leadingRun c (Some b :: rest) = 0%nat.
Proof.
  intros H. cbn. unfold gesture_eqb.
  destruct (GestureId_eq_dec b c); [contradiction | reflexivity].
Qed.

Lemma lockAfter_snoc cs cand :
  lockAfter (cs ++ [cand])
  = match cand with
    | None => mkLockState None 0
    | Some c =>
        if is_gesture (candidate (lockAfter cs)) c
        then mkLockState (candidate (lockAfter cs)) (S (streak (lockAfter cs)))
        else mkLockState (Some c) 1
    end.
Proof.
  unfold lockAfter, trailingRun. rewrite rev_app_distr. cbn [rev app].
  destruct cand as [c|]; [|reflexivity].
  cbn [leadingRun]. rewrite gesture_eqb_refl.
  destruct (rev cs) as [|[b|] rest]; cbn [candidate streak is_gesture];
    try reflexivity.
  unfold gesture_eqb at 1. destruct (GestureId_eq_dec b c) as [->|Hne].
  - cbn [leadingRun]. now rewrite gesture_eqb_refl.
  - now rewrite (leadingRun_other _ _ _ Hne).
Qed.

(** X4.  The streak counter counts what its name says: after any run from
    refs with an idle lock state, the counted candidate is the candidate
    of the last frame and the streak is the length of the run of that
    candidate that ends the stream (0 when the last frame had no
    candidate), whatever locks were emitted on the way. *)
Theorem streak_is_trailing_run (frames : list LockFrame) (r : LockRefs) :
  lockStateRef r = mkLockState None 0 ->
  lockStateRef (fst (runLock frames r))
  = lockAfter (map lf_candidate frames).
Proof.
  intros Hidle.
  induction frames as [|fr frames IH] using rev_ind; [exact Hidle|].
  rewrite runLock_app, map_app. cbn [fst map].
  rewrite lockAfter_snoc, <- IH.
  cbn [runLock]. 
  destruct (lockStep (lf_candidate fr) (lf_nowMs fr) (lf_speakNow fr)
              (fst (runLock frames r))) as [r1 out] eqn:E.
  cbn [fst].
  change r1 with (fst (r1, out)). rewrite <- E.
  apply lockStep_lockState.
Qed.

Lemma streak_is_trailing_run_witness :
  lockStateRef
    (fst (runLock
            (framesOf clock30 clock30 0
               (repeat (Some hello) 12 ++ [None] ++ repeat (Some stop) 3))
            initLockRefs))
  = mkLockState (Some stop) 3.
Proof.
  rewrite (streak_is_trailing_run _ initLockRefs eq_refl). reflexivity.
Defined.

(** *** What each answer of the classifier means *)

Lemma stillBlock_results now st wrist g :
  fst (stillBlock now st wrist) = Some g -> g = stop \/ g = please.
Proof.
  unfold stillBlock. cbv zeta.
  destruct (_ && (_ >? 650)); [intros [= <-]; auto|].
  destruct (_ || _); [intros [= <-]; auto | discriminate].
Qed.

Lemma staticRules_shape f wrist thumbTip thumbMcp hs g :
  staticRules f wrist thumbTip thumbMcp hs = Some g ->
  shapeOf g f = true /\ g <> goodbye /\ g <> stop /\ g <> please.
Proof.
  unfold staticRules. cbv zeta.
  destruct (waterShape f) eqn:H1;
    [intros [= <-]; repeat split; auto; discriminate|].
  destruct (assistanceShape f) eqn:H2;
    [intros [= <-]; repeat split; auto; discriminate|].
  destruct (fourFingers f) eqn:H3;
    [intros [= <-]; repeat split; auto; discriminate|].
  destruct (thumb f && negb (index f) && negb (middle f)
            && negb (ring f) && negb (pinky f)) eqn:H4.
  { destruct (_ >? _); [|destruct (_ <? _)]; intros [= <-];
      cbn [shapeOf]; repeat split; auto; discriminate. }
  destruct (negb (thumb f) && index f && middle f
            && negb (ring f) && negb (pinky f)) eqn:H5;
    [intros [= <-]; repeat split; auto; discriminate|].
  destruct (negb (thumb f) && index f && negb (middle f)
            && negb (ring f) && negb (pinky f)) eqn:H6;
    [intros [= <-]; repeat split; auto; discriminate|].
  destruct (fist f) eqn:H7.
  { intros [= <-]. cbn [shapeOf]. repeat split; try discriminate.
    rewrite H7. unfold fist in H7. rewrite !andb_true_iff in H7.
    destruct H7 as ((((_ & Hi) & Hm) & Hr) & Hp).
    rewrite Hi, Hm, Hr, Hp, !andb_true_r in H4. now rewrite H4. }
  destruct (openHand f) eqn:H8;
    [intros [= <-]; repeat split; auto; discriminate | discriminate].
Qed.

(** X5.  What an answer of the single-hand classifier says about the
    hand: 'goodbye' only for four extended fingers, 'stop' and 'please'
    only for the open-hand or four-finger shape, every other gesture only
    for the finger pattern of its rule; 'yes' only for a fist whose thumb
    is not extended (a fist with the thumb out reads as thumb up or down);
    and 'restroom' never. *)
Theorem classify_sound (baseline nowWave nowStill : R) (refs : Trackers)
    (landmarks : Landmarks) (g : GestureId) :
  fst (classifyGesture baseline nowWave nowStill refs landmarks) = Some g ->
  exists thumbTip,
    lm_at landmarks 4 = Some thumbTip
    /\ shapeOf g (readFingers landmarks thumbTip
                    (scaleRef baseline landmarks)) = true.
Proof.
  unfold classifyGesture.
  destruct (lm_at landmarks 0) as [w|]; [|discriminate].
  destruct (lm_at landmarks 4) as [tt|]; [|discriminate].
  destruct (lm_at landmarks 2) as [tm|]; [|discriminate].
  cbv zeta. set (hs := scaleRef baseline landmarks).
  set (f := readFingers landmarks tt hs).
  intros H. exists tt. split; [reflexivity|]. revert H.
  assert (Hrest : forall wave',
    fst (let (held, still') :=
           if openHand f || fourFingers f
           then stillBlock nowStill (stillRef refs) w
           else (None, Still.reset) in
         match held with
         | Some h => (Some h, mkTrackers wave' still')
         | None => (staticRules f w tt tm hs, mkTrackers wave' still')
         end) = Some g -> shapeOf g f = true).
  { intros wave'. destruct (openHand f || fourFingers f) eqn:Hopen.
    - pose proof (stillBlock_results nowStill (stillRef refs) w) as Hst.
      destruct (stillBlock nowStill (stillRef refs) w) as [[h|] st];
        cbn [fst] in *.
      + intros [= <-]. destruct (Hst h eq_refl) as [-> | ->]; exact Hopen.
      + intros H. now apply staticRules_shape in H.
    - cbn [fst]. intros H. now apply staticRules_shape in H. }
  destruct (palmFour f) eqn:Hpf.
  - destruct (waveBlock nowWave (waveRef refs) w hs) as [[|] s1].
    + cbn [fst]. intros [= <-]. exact Hpf.
    + apply Hrest.
  - apply Hrest.
Qed.

Lemma classify_sound_witness :
  exists thumbTip,
    lm_at handFour 4 = Some thumbTip
    /\ shapeOf thank_you (readFingers handFour thumbTip (scaleRef 0 handFour))
       = true.
Proof.
  apply (classify_sound 0 2000 2000 initTrackers handFour thank_you).
  exact handFour_fresh.
Defined.

(** *** The wave and stillness blocks over time *)

Ltac wave_fields :=
  cbn [Wave.lastX Wave.lastDir Wave.flips Wave.startMs Wave.minX Wave.maxX
       fst snd] in *.

Lemma waveBlock_within lo hi now s w hs :
  0 <= lo -> hi <= 1 ->
  waveWithin lo hi s ->
  lo <= x w <= hi ->
  hi - lo <= 0.56 * hs ->
  fst (waveBlock now s w hs) = false
  /\ waveWithin lo hi (snd (waveBlock now s w hs)).
Proof.
  intros Hlo Hhi Hs Hx Hamp. destruct s as [lx ld fl st mn mx].
  unfold waveWithin in *. unfold waveBlock, Rgtb. cbv zeta. wave_fields.
  assert (Hext : lo <= Rmin mn (x w) /\ Rmax mx (x w) <= hi).
  { unfold Rmin, Rmax.
    destruct (Rle_dec mn (x w)), (Rle_dec mx (x w));
      destruct Hs as [[-> ->] | [? ?]]; lra. }
  destruct (1700 <? now - (if st =? 0 then now else st)); wave_fields.
  - rewrite (Rltb_false (0.56 * hs) (0 - 1)) by lra.
    rewrite andb_false_r. wave_fields. auto.
  - rewrite (Rltb_false (0.56 * hs) (Rmax mx (x w) - Rmin mn (x w))) by lra.
    rewrite andb_false_r. wave_fields. auto.
Qed.

Lemma waveBlock_since T now s w hs :
  waveSince T s -> T <= now ->
  (fst (waveBlock now s w hs) = true -> now > T + 450)
  /\ waveSince T (snd (waveBlock now s w hs))
  /\ (fst (waveBlock now s w hs) = true ->
      Wave.startMs (snd (waveBlock now s w hs)) = now).
Proof.
  intros Hs Hnow. destruct s as [lx ld fl st mn mx].
  unfold waveSince in *. unfold waveBlock, Rgtb. cbv zeta. wave_fields.
  assert (Hst : T <= (if st =? 0 then now else st)).
  { unfold Reqb. destruct (Req_dec_T st 0); [lra|].
    destruct Hs; [contradiction|lra]. }
  set (st1 := if st =? 0 then now else st) in *.
  destruct (1700 <? now - st1); wave_fields.
  - rewrite (Rltb_false 450 (now - now)) by lra. cbn [andb]. wave_fields.
    repeat split; try discriminate. right. lra.
  - destruct (450 <? now - st1) eqn:E; cbn [andb].
    + apply Rltb_spec in E.
      destruct (_ && _); wave_fields; repeat split; auto; try discriminate;
        try (intros _; lra); right; lra.
    + wave_fields. repeat split; auto; discriminate.
Qed.

Lemma stillBlock_since T now st w :
  0 <= T -> stillSince T st -> T <= now ->
  (fst (stillBlock now st w) <> None -> now > T + 650)
  /\ stillSince T (snd (stillBlock now st w))
  /\ (fst (stillBlock now st w) <> None ->
      snd (stillBlock now st w)
      = Still.mk (Some (x w)) (Some (y w)) 0 now).
Proof.
  intros HT Hs Hnow. destruct st as [lx ly sm lm].
  unfold stillSince in *. unfold stillBlock, Rgtb. cbv zeta.
  cbn [Still.lastX Still.lastY Still.stillMs Still.lastMs] in *.
  set (isStill := (_ <? 0.012) && (_ <? 0.012)).
  assert (Hacc : (if isStill then sm + (now - orElse lm now) else 0)
                 <= now - T).
  { destruct isStill; [|lra]. unfold orElse, Reqb.
    destruct (Req_dec_T lm 0); destruct Hs as [[? ?] | [? ?]]; lra. }
  set (acc := if isStill then sm + (now - orElse lm now) else 0) in *.
  destruct (Rlt_dec 650 acc) as [Hfire | Hquiet].
  - destruct (_ && (650 <? acc));
      [|destruct (_ || _)]; cbn [fst snd Still.lastMs Still.stillMs];
      repeat split; try (intros _; lra); try reflexivity;
      try (right; lra); try congruence.
  - assert (E1 : (650 <? acc) = false) by (apply Rltb_false; lra).
    assert (E2 : (1100 <? acc) = false) by (apply Rltb_false; lra).
    rewrite E1, E2, !andb_false_r. cbn [orb fst snd Still.lastMs Still.stillMs].
    repeat split; try congruence. right. lra.
Qed.

(** How one call of the classifier uses the wave block. *)
Lemma classify_wave_cases baseline nowWave nowStill refs landmarks :
  let r := classifyGesture baseline nowWave nowStill refs landmarks in
  (fst r <> Some goodbye
   /\ (waveRef (snd r) = waveRef refs
       \/ waveRef (snd r) = Wave.reset
       \/ exists w,
            lm_at landmarks 0 = Some w
            /\ fst (waveBlock nowWave (waveRef refs) w
                      (scaleRef baseline landmarks)) = false
            /\ waveRef (snd r)
               = snd (waveBlock nowWave (waveRef refs) w
                        (scaleRef baseline landmarks))))
  \/ (fst r = Some goodbye
      /\ exists w,
           lm_at landmarks 0 = Some w
           /\ fst (waveBlock nowWave (waveRef refs) w
                     (scaleRef baseline landmarks)) = true
           /\ waveRef (snd r)
              = snd (waveBlock nowWave (waveRef refs) w
                       (scaleRef baseline landmarks))).
Proof.
  cbv zeta. unfold classifyGesture.
  destruct (lm_at landmarks 0) as [w|]; [|left; split; [discriminate|auto]].
  destruct (lm_at landmarks 4) as [tt|]; [|left; split; [discriminate|auto]].
  destruct (lm_at landmarks 2) as [tm|]; [|left; split; [discriminate|auto]].
  cbv zeta. set (hs := scaleRef baseline landmarks).
  set (f := readFingers landmarks tt hs).
  assert (Hrest : forall wave',
    let r := (let (held, still') :=
                if openHand f || fourFingers f
                then stillBlock nowStill (stillRef refs) w
                else (None, Still.reset) in
              match held with
              | Some h => (Some h, mkTrackers wave' still')
              | None => (staticRules f w tt tm hs, mkTrackers wave' still')
              end) in
    fst r <> Some goodbye /\ waveRef (snd r) = wave').
  { intros wave'. cbv zeta. destruct (openHand f || fourFingers f).
    - pose proof (stillBlock_not_goodbye nowStill (stillRef refs) w) as Hst.
      destruct (stillBlock nowStill (stillRef refs) w) as [[h|] st];
        cbn [fst snd waveRef] in *; split; auto.
      apply staticRules_not_goodbye.
    - cbn [fst snd waveRef]. split; auto. apply staticRules_not_goodbye. }
  destruct (palmFour f).
  - destruct (waveBlock nowWave (waveRef refs) w hs) as [[|] s1] eqn:E.
    + right. cbn [fst snd waveRef]. split; [reflexivity|].
      exists w. fold hs. rewrite E. repeat split; reflexivity.
    + left. destruct (Hrest s1) as [H1 H2]. split; [exact H1|].
      right. right. exists w. fold hs. rewrite E. cbn [fst snd].
      repeat split; auto.
  - left. destruct (Hrest Wave.reset) as [H1 H2]. split; auto.
Qed.

(** How one call of the classifier uses the stillness block. *)
Lemma classify_still_cases baseline nowWave nowStill refs landmarks :
  let r := classifyGesture baseline nowWave nowStill refs landmarks in
  (fst r <> Some stop /\ fst r <> Some please
   /\ (stillRef (snd r) = stillRef refs
       \/ stillRef (snd r) = Still.reset
       \/ exists w,
            fst (stillBlock nowStill (stillRef refs) w) = None
            /\ stillRef (snd r) = snd (stillBlock nowStill (stillRef refs) w)))
  \/ ((fst r = Some stop \/ fst r = Some please)
      /\ exists w,
           fst (stillBlock nowStill (stillRef refs) w) <> None
           /\ stillRef (snd r) = snd (stillBlock nowStill (stillRef refs) w)).
Proof.
  cbv zeta. unfold classifyGesture.
  destruct (lm_at landmarks 0) as [w|];
    [|left; repeat split; try discriminate; auto].
  destruct (lm_at landmarks 4) as [tt|];
    [|left; repeat split; try discriminate; auto].
  destruct (lm_at landmarks 2) as [tm|];
    [|left; repeat split; try discriminate; auto].
  cbv zeta. set (hs := scaleRef baseline landmarks).
  set (f := readFingers landmarks tt hs).
  assert (Hstatic : staticRules f w tt tm hs <> Some stop
                    /\ staticRules f w tt tm hs <> Some please).
  { split; intros H; apply staticRules_shape in H;
      destruct H as (_ & _ & H1 & H2); congruence. }
  assert (Hrest : forall wave',
    let r := (let (held, still') :=
                if openHand f || fourFingers f
                then stillBlock nowStill (stillRef refs) w
                else (None, Still.reset) in
              match held with
              | Some h => (Some h, mkTrackers wave' still')
              | None => (staticRules f w tt tm hs, mkTrackers wave' still')
              end) in
    (fst r <> Some stop /\ fst r <> Some please
     /\ (stillRef (snd r) = stillRef refs
         \/ stillRef (snd r) = Still.reset
         \/ exists w0,
              fst (stillBlock nowStill (stillRef refs) w0) = None
              /\ stillRef (snd r)
                 = snd (stillBlock nowStill (stillRef refs) w0)))
    \/ ((fst r = Some stop \/ fst r = Some please)
        /\ exists w0,
             fst (stillBlock nowStill (stillRef refs) w0) <> None
             /\ stillRef (snd r)
                = snd (stillBlock nowStill (stillRef refs) w0))).
  { intros wave'. cbv zeta. destruct (openHand f || fourFingers f).
    - pose proof (stillBlock_results nowStill (stillRef refs) w) as Hst.
      destruct (stillBlock nowStill (stillRef refs) w) as [[h|] st] eqn:E;
        cbn [fst snd stillRef] in *.
      + right. split.
        * destruct (Hst h eq_refl) as [-> | ->]; auto.
        * exists w. rewrite E. cbn [fst snd]. split; [discriminate|reflexivity].
      + left. destruct Hstatic. repeat split; auto.
        right. right. exists w. rewrite E. auto.
    - left. cbn [fst snd stillRef]. destruct Hstatic. repeat split; auto. }
  destruct (palmFour f).
  - destruct (waveBlock nowWave (waveRef refs) w hs) as [[|] s1].
    + left. cbn [fst snd stillRef]. repeat split; try discriminate. auto.
    + apply Hrest.
  - apply Hrest.
Qed.

(** X6.  Jitter does not wave: when the normalised wrist abscissa stays in
    an interval [lo, hi] inside [0, 1] no wider than 0.56 times the scale
    reference of every frame, a run of the classifier that starts with the
    wave tracker reset never answers 'goodbye', however many direction
    flips are counted. *)
Theorem no_goodbye_under_jitter (lo hi : R) (frames : list HandFrame)
    (refs : Trackers) :
  0 <= lo -> hi <= 1 ->
  waveRef refs = Wave.reset ->
  Forall (fun fr =>
            forall w, lm_at (hf_landmarks fr) 0 = Some w ->
                      lo <= x w <= hi
                      /\ hi - lo
                         <= 0.56 * scaleRef (hf_baseline fr) (hf_landmarks fr))
         frames ->
  ~ In (Some goodbye) (fst (classifyRun frames refs)).
Proof.
  intros Hlo Hhi Hreset Hall.
  assert (Hinv : waveWithin lo hi (waveRef refs))
    by (rewrite Hreset; left; split; reflexivity).
  assert (Hreset' : waveWithin lo hi Wave.reset)
    by (left; split; reflexivity).
  clear Hreset. revert refs Hinv.
  induction Hall as [|fr frames Hfr _ IH]; intros refs Hinv; [intros []|].
  cbn [classifyRun].
  pose proof (classify_wave_cases (hf_baseline fr) (hf_nowWave fr)
                (hf_nowStill fr) refs (hf_landmarks fr)) as Hc.
  cbv zeta in Hc.
  destruct (classifyGesture (hf_baseline fr) (hf_nowWave fr) (hf_nowStill fr)
              refs (hf_landmarks fr)) as [g refs1].
  specialize (IH refs1). destruct (classifyRun frames refs1) as [gs refs2].
  cbn [fst snd] in *.
  destruct Hc as [(Hg & Hw) | (_ & w & Hwrist & Hfire & _)].
  - intros [E | Hin]; [congruence|]. revert Hin. apply IH.
    destruct Hw as [-> | [-> | (w & Hwrist & _ & ->)]]; auto.
    destruct (Hfr w Hwrist) as [Hx Hamp].
    apply (waveBlock_within lo hi); auto.
  - destruct (Hfr w Hwrist) as [Hx Hamp].
    destruct (waveBlock_within lo hi (hf_nowWave fr) (waveRef refs) w
                (scaleRef (hf_baseline fr) (hf_landmarks fr)))
      as [Hno _]; auto.
    congruence.
Qed.

(** X7.  After a 'goodbye' answered at clock reading [T], a later call
    (clock reading at least [T]) answers 'goodbye' again only more than
    450 ms after [T], whatever hands come in between. *)
Theorem goodbye_spacing (baseline T nowStill : R) (refs : Trackers)
    (landmarks : Landmarks) (frames : list HandFrame) :
  fst (classifyGesture baseline T nowStill refs landmarks) = Some goodbye ->
  Forall (fun fr => T <= hf_nowWave fr) frames ->
  Forall2 (fun fr g => g = Some goodbye -> hf_nowWave fr > T + 450)
    frames
    (fst (classifyRun frames
            (snd (classifyGesture baseline T nowStill refs landmarks)))).
Proof.
  intros Hbye Hall.
  assert (Hinv : waveSince T
            (waveRef (snd (classifyGesture baseline T nowStill refs
                             landmarks)))).
  { pose proof (classify_wave_cases baseline T nowStill refs landmarks) as Hc.
    cbv zeta in Hc.
    destruct Hc as [(Hg & _) | (_ & w & _ & Hfire & ->)]; [contradiction|].
    right.
    set (s := waveRef refs) in *.
    set (hs := scaleRef baseline landmarks) in *.
    clearbody s hs. revert Hfire. unfold waveBlock, Rgtb. cbv zeta.
    destruct s as [lx ld fl st mn mx]. wave_fields.
    destruct (1700 <? _); wave_fields;
      (destruct (_ && _ && _); wave_fields; [lra | discriminate]). }
  assert (Hreset : waveSince T Wave.reset) by (left; reflexivity).
  revert Hinv.
  generalize (snd (classifyGesture baseline T nowStill refs landmarks)).
  clear Hbye. induction Hall as [|fr frames Hfr _ IH]; intros refs0 Hinv;
    [constructor|].
  cbn [classifyRun].
  pose proof (classify_wave_cases (hf_baseline fr) (hf_nowWave fr)
                (hf_nowStill fr) refs0 (hf_landmarks fr)) as Hc.
  cbv zeta in Hc.
  destruct (classifyGesture (hf_baseline fr) (hf_nowWave fr) (hf_nowStill fr)
              refs0 (hf_landmarks fr)) as [g refs1].
  specialize (IH refs1). destruct (classifyRun frames refs1) as [gs refs2].
  cbn [fst snd] in *.
  destruct Hc as [(Hg & Hw) | (Hg & w & _ & Hfire & Hw)].
  - constructor; [intros E; congruence|]. apply IH.
    destruct Hw as [-> | [-> | (w & _ & _ & ->)]]; auto.
    apply (waveBlock_since T); auto.
  - destruct (waveBlock_since T (hf_nowWave fr) (waveRef refs0) w
                (scaleRef (hf_baseline fr) (hf_landmarks fr)) Hinv Hfr)
      as (Hgap & Hnext & _).
    constructor; [intros _; auto|]. apply IH. now rewrite Hw.
Qed.

(** X8.  After a held pose ('stop' or 'please') answered by the classifier
    at clock reading [T] (not negative), a later call (clock reading at
    least [T]) answers 'stop' or 'please' again only more than 650 ms
    after [T]. *)
Theorem held_pose_spacing (baseline nowWave T : R) (refs : Trackers)
    (landmarks : Landmarks) (frames : list HandFrame) :
  0 <= T ->
  fst (classifyGesture baseline nowWave T refs landmarks) = Some stop
  \/ fst (classifyGesture baseline nowWave T refs landmarks) = Some please ->
  Forall (fun fr => T <= hf_nowStill fr) frames ->
  Forall2 (fun fr g => g = Some stop \/ g = Some please ->
                       hf_nowStill fr > T + 650)
    frames
    (fst (classifyRun frames
            (snd (classifyGesture baseline nowWave T refs landmarks)))).
Proof.
  intros HT Hheld Hall.
  assert (Hinv : stillSince T
            (stillRef (snd (classifyGesture baseline nowWave T refs
                              landmarks)))).
  { pose proof (classify_still_cases baseline nowWave T refs landmarks) as Hc.
    cbv zeta in Hc.
    destruct Hc as [(H1 & H2 & _) | (_ & w & Hfire & ->)];
      [destruct Hheld; contradiction|].
    right. revert Hfire. generalize (stillRef refs). intros st.
    unfold stillBlock, Rgtb. cbv zeta.
    destruct (_ && (650 <? _)); [|destruct (_ || _)];
      cbn [fst snd Still.lastMs Still.stillMs]; intros H;
      try (exfalso; apply H; reflexivity); lra. }
  assert (Hreset : stillSince T Still.reset)
    by (left; cbn; split; lra).
  revert Hinv.
  generalize (snd (classifyGesture baseline nowWave T refs landmarks)).
  clear Hheld. induction Hall as [|fr frames Hfr _ IH]; intros refs0 Hinv;
    [constructor|].
  cbn [classifyRun].
  pose proof (classify_still_cases (hf_baseline fr) (hf_nowWave fr)
                (hf_nowStill fr) refs0 (hf_landmarks fr)) as Hc.
  cbv zeta in Hc.
  destruct (classifyGesture (hf_baseline fr) (hf_nowWave fr) (hf_nowStill fr)
              refs0 (hf_landmarks fr)) as [g refs1].
  specialize (IH refs1). destruct (classifyRun frames refs1) as [gs refs2].
  cbn [fst snd] in *.
  destruct Hc as [(H1 & H2 & Hst) | (Hg & w & Hfire & Hst)].
  - constructor; [intros [E | E]; congruence|]. apply IH.
    destruct Hst as [-> | [-> | (w & _ & ->)]]; auto.
    apply (stillBlock_since T); auto.
  - destruct (stillBlock_since T (hf_nowStill fr) (stillRef refs0) w
                HT Hinv Hfr) as (Hgap & Hnext & _).
    constructor; [intros _; auto|]. apply IH. now rewrite Hst.
Qed.

Lemma no_goodbye_under_jitter_witness :
  ~ In (Some goodbye)
      (fst (classifyRun [mkHandFrame 0 2000 2000 handFour;
                         mkHandFrame 0 2033 2033 handFour] initTrackers)).
Proof.
  apply (no_goodbye_under_jitter 0.48 0.52
           [mkHandFrame 0 2000 2000 handFour;
            mkHandFrame 0 2033 2033 handFour] initTrackers);
    [lra | lra | reflexivity |].
  assert (H : forall w, lm_at handFour 0 = Some w ->
                        0.48 <= x w <= 0.52
                        /\ 0.52 - 0.48 <= 0.56 * scaleRef 0 handFour).
  { intros w Hw.
    change (lm_at handFour 0) with (Some (mkLandmark 0.5 0.8)) in Hw.
    injection Hw as <-. cbn [x]. rewrite handFour_scale. lra. }
  apply Forall_cons; [exact H|].
  apply Forall_cons; [exact H | apply Forall_nil].
Defined.

Lemma handFour_mid_swing :
  fst (classifyGesture 0 2000 2000 (mkTrackers waveMidSwing Still.reset)
         handFour) = Some goodbye.
Proof. classify_handFour. Qed.

Lemma goodbye_spacing_witness :
  Forall2 (fun fr g => g = Some goodbye -> hf_nowWave fr > 2000 + 450)
    [mkHandFrame 0 2100 2100 handFour]
    (fst (classifyRun [mkHandFrame 0 2100 2100 handFour]
            (snd (classifyGesture 0 2000 2000
                    (mkTrackers waveMidSwing Still.reset) handFour)))).
Proof.
  apply (goodbye_spacing 0 2000 2000 (mkTrackers waveMidSwing Still.reset)
           handFour [mkHandFrame 0 2100 2100 handFour]).
  - exact handFour_mid_swing.
  - repeat constructor. cbn [hf_nowWave]. lra.
Defined.

Lemma handFour_held :
  fst (classifyGesture 0 2000 2000 (mkTrackers Wave.reset stillHeld) handFour)
  = Some please.
Proof.
  unfold classifyGesture.
  change (lm_at handFour 0) with (Some (mkLandmark 0.5 0.8)).
  change (lm_at handFour 4) with (Some (mkLandmark (0.5 - 0.03) 0.8)).
  change (lm_at handFour 2) with (Some (mkLandmark (0.5 - 0.05) 0.8)).
  cbv zeta. rewrite handFour_scale, handFour_fingers.
  run_rules. on_blocks. unfold stillHeld.
  cbn [Still.lastX Still.lastY Still.stillMs Still.lastMs].
  rewrite (Rabs_right (0.5 - 0.5)), (Rabs_right (0.8 - 0.8)) by lra.
  repeat progress (rcmp; cbv [andb orb negb]).
  reflexivity.
Qed.

Lemma held_pose_spacing_witness :
  Forall2 (fun fr g => g = Some stop \/ g = Some please ->
                       hf_nowStill fr > 2000 + 650)
    [mkHandFrame 0 2100 2100 handFour]
    (fst (classifyRun [mkHandFrame 0 2100 2100 handFour]
            (snd (classifyGesture 0 2000 2000
                    (mkTrackers Wave.reset stillHeld) handFour)))).
Proof.
  apply (held_pose_spacing 0 2000 2000 (mkTrackers Wave.reset stillHeld)
           handFour [mkHandFrame 0 2100 2100 handFour]).
  - lra.
  - right. exact handFour_held.
  - repeat constructor. cbn [hf_nowStill]. lra.
Defined.

(** *** The frame candidate *)

Lemma classifyHand_not_restroom baseline nowWave nowStill refs lm :
  fst (classifyHand baseline nowWave nowStill refs lm) <> Some restroom.
Proof.
  unfold classifyHand. destruct lm as [l|]; [|discriminate].
  destruct (0 <? List.length l)%nat; [|discriminate].
  unfold classifyGesture.
  destruct (lm_at l 0) as [w|]; [|discriminate].
  destruct (lm_at l 4) as [tt|]; [|discriminate].
  destruct (lm_at l 2) as [tm|]; [|discriminate].
  cbv zeta. set (hs := scaleRef baseline l). set (f := readFingers l tt hs).
  assert (Hrest : forall wave',
    fst (let (held, still') :=
           if openHand f || fourFingers f
           then stillBlock nowStill (stillRef refs) w
           else (None, Still.reset) in
         match held with
         | Some h => (Some h, mkTrackers wave' still')
         | None => (staticRules f w tt tm hs, mkTrackers wave' still')
         end) <> Some restroom).
  { assert (Hs : staticRules f w tt tm hs <> Some restroom).
    { intros H. apply staticRules_shape in H. destruct H as [H _].
      discriminate H. }
    intros wave'. destruct (openHand f || fourFingers f); [|exact Hs].
    pose proof (stillBlock_results nowStill (stillRef refs) w) as Hst.
    destruct (stillBlock nowStill (stillRef refs) w) as [[h|] st];
      cbn [fst] in *; [|exact Hs].
    intros [= ->]. destruct (Hst restroom eq_refl); discriminate. }
  destruct (palmFour f); [|apply Hrest].
  destruct (waveBlock nowWave (waveRef refs) w hs) as [[|] s1];
    [discriminate | apply Hrest].
Qed.

(** X9.  'restroom' is a two-hand answer only: the candidate of a frame is
    'restroom' only if both hands are present with their wrists, both are
    classified 'yes', the wrists are closer than 0.55 times the scale
    reference and both lie below [y = 0.55]. *)
Theorem restroom_needs_two_fists (baseline : R) (clk : PerfClock)
    (refs : Trackers) (lm0 lm1 : option Landmarks) :
  fst (frameCandidate baseline clk refs lm0 lm1) = Some restroom ->
  exists l0 l1 wrist0 wrist1,
    lm0 = Some l0 /\ lm1 = Some l1
    /\ lm_at l0 0 = Some wrist0 /\ lm_at l1 0 = Some wrist1
    /\ fst (classifyHand baseline (wave0 clk) (still0 clk) refs lm0)
       = Some yes
    /\ fst (classifyHand baseline (wave1 clk) (still1 clk)
              (snd (classifyHand baseline (wave0 clk) (still0 clk) refs lm0))
              lm1) = Some yes
    /\ dist wrist0 wrist1
       < 0.55 * Rmax (Rmax (Rmax (getHandSize l0) (getHandSize l1)) baseline)
                  0.0001
    /\ y wrist0 > 0.55 /\ y wrist1 > 0.55.
Proof.
  unfold frameCandidate.
  pose proof (classifyHand_not_restroom baseline (wave0 clk) (still0 clk)
                refs lm0) as H0.
  destruct (classifyHand baseline (wave0 clk) (still0 clk) refs lm0)
    as [g0 refs0].
  cbn [fst snd].
  pose proof (classifyHand_not_restroom baseline (wave1 clk) (still1 clk)
                refs0 lm1) as H1.
  destruct (classifyHand baseline (wave1 clk) (still1 clk) refs0 lm1)
    as [g1 refs1].
  cbn [fst snd] in *.
  destruct (combine baseline lm0 lm1 g0 g1) as [c|] eqn:Hc.
  2: { cbn [nullish]. destruct g0 as [a|]; cbn [nullish]; congruence. }
  cbn [nullish]. intros [= ->]. revert Hc. unfold combine.
  destruct lm0 as [l0|]; [|discriminate].
  destruct lm1 as [l1|]; [|discriminate].
  destruct (lm_at l0 0) as [w0|] eqn:Hw0; [|discriminate].
  destruct (lm_at l1 0) as [w1|] eqn:Hw1; [|discriminate].
  cbv zeta. rewrite orElse_zero.
  destruct (_ && _ && is_gesture g0 yes && is_gesture g1 yes) eqn:E.
  - intros _. rewrite !andb_true_iff in E.
    destruct E as (((Hclose & Hy0 & Hy1) & Hg0) & Hg1).
    apply is_gesture_iff in Hg0, Hg1.
    apply Rltb_spec in Hclose. apply Rgtb_spec in Hy0, Hy1.
    exists l0, l1, w0, w1. repeat split; auto.
  - destruct (_ && isOpenPalmGesture g0 && isOpenPalmGesture g1);
      intros H; discriminate H.
Qed.

Lemma two_fists_candidate :
  fst (frameCandidate 0 (mkPerfClock 2000 2000 2000 2000) initTrackers
         (Some (fistAt 0.5)) (Some (fistAt 0.52))) = Some restroom.
Proof.
  unfold frameCandidate, classifyHand.
  cbn [fistAt List.length Nat.ltb Nat.leb wave0 still0 wave1 still1].
  fold (fistAt 0.5). fold (fistAt 0.52). rewrite !fistAt_yes.
  unfold combine.
  change (lm_at (fistAt 0.5) 0) with (Some (mkLandmark 0.5 0.8)).
  change (lm_at (fistAt 0.52) 0) with (Some (mkLandmark 0.52 0.8)).
  cbv zeta. rewrite !fistAt_size, orElse_zero. cbn [y].
  assert (Hd : dist (mkLandmark 0.5 0.8) (mkLandmark 0.52 0.8) < 0.55 * 0.1).
  { unfold dist, dist2. cbn [x y]. apply sqrt_below; lra. }
  rcmp. reflexivity.
Qed.

Lemma restroom_needs_two_fists_witness :
  exists l0 l1 wrist0 wrist1,
    Some (fistAt 0.5) = Some l0 /\ Some (fistAt 0.52) = Some l1
    /\ lm_at l0 0 = Some wrist0 /\ lm_at l1 0 = Some wrist1
    /\ fst (classifyHand 0 2000 2000 initTrackers (Some (fistAt 0.5)))
       = Some yes
    /\ fst (classifyHand 0 2000 2000
              (snd (classifyHand 0 2000 2000 initTrackers (Some (fistAt 0.5))))
              (Some (fistAt 0.52))) = Some yes
    /\ dist wrist0 wrist1
       < 0.55 * Rmax (Rmax (Rmax (getHandSize l0) (getHandSize l1)) 0) 0.0001
    /\ y wrist0 > 0.55 /\ y wrist1 > 0.55.
Proof.
  exact (restroom_needs_two_fists 0 (mkPerfClock 2000 2000 2000 2000)
           initTrackers (Some (fistAt 0.5)) (Some (fistAt 0.52))
           two_fists_candidate).
Defined.

(** *** The calibration window *)

Lemma getHandSize_nonneg landmarks : 0 <= getHandSize landmarks.
Proof.
  unfold getHandSize, dist.
  destruct (lm_at landmarks 0); [|lra].
  destruct (lm_at landmarks 9); [apply sqrt_pos | lra].
Qed.

Lemma frameHandSize_nonneg fr : 0 <= frameHandSize fr.
Proof.
  unfold frameHandSize, handSizeOrZero.
  apply Rle_trans with (r2 := match cf_lm0 fr with
                              | Some l => getHandSize l
                              | None => 0
                              end); [|apply Rmax_l].
  destruct (cf_lm0 fr); [apply getHandSize_nonneg | lra].
Qed.

Lemma calibrate_idle frames c : calibrate frames false c = (c, false).
Proof. induction frames as [|fr frames IH]; [reflexivity | exact IH]. Qed.

Lemma calibrationRun_sums frames : forall c,
  samples (calibrationRun frames c) = (samples c + List.length frames)%nat
  /\ sumHandSize (calibrationRun frames c)
     = sumHandSize c + sumPositive frames
  /\ sumBrightness (calibrationRun frames c)
     = sumBrightness c + sumSamples frames
  /\ startedAt (calibrationRun frames c) = startedAt c.
Proof.
  induction frames as [|fr frames IH]; intros c.
  - cbn [calibrationRun List.length sumPositive sumSamples].
    repeat split; first [lia | lra | reflexivity].
  - cbn [calibrationRun List.length sumPositive sumSamples].
    destruct (IH (fst (calibrationBlock (cf_now fr) (cf_avg fr) (cf_lm0 fr)
                         (cf_lm1 fr) c))) as (H1 & H2 & H3 & H4).
    rewrite H1, H2, H3, H4. unfold calibrationBlock.
    fold (frameHandSize fr).
    destruct (cf_now fr - startedAt c >=? 3000);
      cbn [fst samples sumHandSize sumBrightness startedAt];
      (split; [lia|]); (split; [destruct (frameHandSize fr >? 0); lra|]);
      (split; [destruct (cf_avg fr); lra | reflexivity]).
Qed.

Lemma calibrationRun_snoc frames last c :
  calibrationRun (frames ++ [last]) c
  = fst (calibrationBlock (cf_now last) (cf_avg last) (cf_lm0 last)
           (cf_lm1 last) (calibrationRun frames c)).
Proof.
  revert c. induction frames as [|fr frames IH]; intros c; [reflexivity|].
  cbn [app calibrationRun]. apply IH.
Qed.

(** X11.  Every frame on which a closure runs the calibration block at or
    after 3000 ms finalises, the first time or again: the calibration is
    ready, and the baseline and the brightness are the sums over all the
    frames the block has processed so far divided by their number.  So a
    frame processed after the finalizing one, before React has re-rendered,
    replaces the baseline by an average over one more frame. *)
Theorem calibration_refinalised (frames : list CalibFrame)
    (last : CalibFrame) (c : Calibration) :
  cf_now last - startedAt c >= 3000 ->
  let c' := calibrationRun (frames ++ [last]) c in
  isReady c' = true
  /\ samples c' = (samples c + List.length frames + 1)%nat
  /\ baselineHandSize c'
     = (sumHandSize c + sumPositive (frames ++ [last])) / INR (samples c')
  /\ brightness c'
     = (sumBrightness c + sumSamples (frames ++ [last])) / INR (samples c').
Proof.
  intros Hlast. cbv zeta.
  destruct (calibrationRun_sums (frames ++ [last]) c) as (Hn & Hh & Hb & _).
  rewrite length_app in Hn. cbn [List.length] in Hn.
  destruct (calibrationRun_sums frames c) as (Hn0 & _ & _ & Hs0).
  assert (Hn' : samples (calibrationRun (frames ++ [last]) c)
                = (samples c + List.length frames + 1)%nat) by lia.
  rewrite <- Hh, <- Hb. rewrite Hn'. clear Hn Hh Hb.
  rewrite calibrationRun_snoc in *.
  set (c0 := calibrationRun frames c) in *.
  unfold calibrationBlock in *. rewrite Hs0 in *.
  rewrite (Rgeb_true _ _ Hlast) in *.
  cbn [fst isReady samples baselineHandSize brightness sumHandSize
       sumBrightness] in *.
  replace (Nat.max 1 (S (samples c0)))
    with (samples c + List.length frames + 1)%nat by lia.
  repeat split; lia.
Qed.

Lemma calibration_refinalised_witness :
  let frames := [mkCalibFrame 1000 None (Some (fistAt 0.5)) None;
                 mkCalibFrame 3000 None None None] in
  let last := mkCalibFrame 3033 (Some 1) (Some (fistAt 0.5)) None in
  let c' := calibrationRun (frames ++ [last]) (startCalibration 0) in
  isReady c' = true
  /\ samples c' = (samples (startCalibration 0) + List.length frames + 1)%nat
  /\ baselineHandSize c'
     = (sumHandSize (startCalibration 0) + sumPositive (frames ++ [last]))
       / INR (samples c')
  /\ brightness c'
     = (sumBrightness (startCalibration 0) + sumSamples (frames ++ [last]))
       / INR (samples c').
Proof.
  apply (calibration_refinalised
           [mkCalibFrame 1000 None (Some (fistAt 0.5)) None;
            mkCalibFrame 3000 None None None]
           (mkCalibFrame 3033 (Some 1) (Some (fistAt 0.5)) None)
           (startCalibration 0)).
  cbn [cf_now startCalibration startedAt]. lra.
Defined.

Lemma calibrate_brightness frames : forall last c,
  windowClosedBy frames last c ->
  brightness (fst (calibrate (frames ++ [last]) true c))
  = (sumBrightness c + sumSamples (frames ++ [last]))
    / INR (samples c + List.length frames + 1).
Proof.
  unfold windowClosedBy.
  induction frames as [|fr frames IH]; intros last c [Hin Hlast].
  - cbn [app calibrate]. unfold calibrationBlock.
    rewrite (Rgeb_true _ _ Hlast).
    cbn [negb calibrate fst brightness sumSamples List.length].
    replace (Nat.max 1 (S (samples c))) with (samples c + 0 + 1)%nat by lia.
    f_equal. destruct (cf_avg last); lra.
  - cbn [app calibrate]. unfold calibrationBlock at 1.
    rewrite Rgeb_false by (apply Hin; left; reflexivity).
    cbn [negb]. rewrite IH.
    + cbn [sumBrightness samples sumSamples List.length startedAt].
      replace (S (samples c) + List.length frames + 1)%nat
        with (samples c + S (List.length frames) + 1)%nat by lia.
      f_equal. destruct (cf_avg fr); lra.
    + cbn [startedAt]. split; [|exact Hlast].
      intros fr' H. apply Hin. right. exact H.
Qed.

(** X10.  What a calibration window computes.  For a window started by
    [startCamera] whose last frame is the first one at or after 3000 ms,
    the baseline is the sum of the positive per-frame hand sizes
    ([Math.max] of the two hands) divided by the number of frames of the
    window, and the brightness is the sum of the samples taken divided by
    the same number: frames without a hand, and frames whose brightness
    sample failed, count in the divisor. *)
Theorem calibration_window_averages (t0 : R) (frames : list CalibFrame)
    (last : CalibFrame) :
  windowClosedBy frames last (startCalibration t0) ->
  let c := fst (calibrate (frames ++ [last]) true (startCalibration t0)) in
  baselineHandSize c
  = sumPositive (frames ++ [last]) / INR (List.length (frames ++ [last]))
  /\ brightness c
     = sumSamples (frames ++ [last]) / INR (List.length (frames ++ [last])).
Proof.
  intros Hw. cbv zeta. rewrite length_app. cbn [List.length].
  split.
  - rewrite calibrate_baseline by apply Hw.
    cbn [startCalibration sumHandSize samples]. f_equal. lra.
  - rewrite calibrate_brightness by exact Hw.
    cbn [startCalibration sumBrightness samples]. f_equal. lra.
Qed.

Lemma calibration_window_averages_witness :
  let frames := [mkCalibFrame 1000 (Some 0.5) (Some (fistAt 0.5)) None;
                 mkCalibFrame 2000 None None None] in
  let last := mkCalibFrame 3000 (Some 0.25) (Some (fistAt 0.5)) None in
  let c := fst (calibrate (frames ++ [last]) true (startCalibration 0)) in
  baselineHandSize c
  = sumPositive (frames ++ [last]) / INR (List.length (frames ++ [last]))
  /\ brightness c
     = sumSamples (frames ++ [last]) / INR (List.length (frames ++ [last])).
Proof.
  apply (calibration_window_averages 0
           [mkCalibFrame 1000 (Some 0.5) (Some (fistAt 0.5)) None;
            mkCalibFrame 2000 None None None]
           (mkCalibFrame 3000 (Some 0.25) (Some (fistAt 0.5)) None)).
  split.
  - intros fr [<- | [<- | []]]; cbn [cf_now startCalibration startedAt]; lra.
  - cbn [cf_now startCalibration startedAt]. lra.
Defined.

Lemma div_bounds a M k : 0 < k -> 0 <= a <= M * k -> 0 <= a / k <= M.
Proof.
  intros Hk [Ha HM]. unfold Rdiv.
  assert (Hinv : 0 < / k) by (apply Rinv_0_lt_compat; lra).
  assert (Hone : k * / k = 1) by (apply Rinv_r; lra).
  split; [nra|].
  replace M with (M * k * / k) by (rewrite Rmult_assoc, Hone; ring).
  apply Rmult_le_compat_r; lra.
Qed.

Lemma calibrationBlock_bounded M now avg lm0 lm1 c :
  0 <= M ->
  frameBounded M (mkCalibFrame now avg lm0 lm1) ->
  calibrationBounded M c ->
  calibrationBounded M (fst (calibrationBlock now avg lm0 lm1 c)).
Proof.
  intros HM [Hhs Havg] (HsumH & HsumB & Hbase & Hbright).
  pose proof (frameHandSize_nonneg (mkCalibFrame now avg lm0 lm1)) as Hpos.
  unfold frameHandSize in Hhs, Hpos. cbn [cf_lm0 cf_lm1 cf_avg] in *.
  unfold calibrationBlock. cbv zeta.
  set (hs := Rmax (handSizeOrZero lm0) (handSizeOrZero lm1)) in *.
  set (sumH := if hs >? 0 then sumHandSize c + hs else sumHandSize c).
  set (sumB := match avg with
               | Some a => sumBrightness c + a
               | None => sumBrightness c
               end).
  assert (Hn : INR (S (samples c)) = INR (samples c) + 1) by apply S_INR.
  assert (HH : 0 <= sumH <= M * INR (S (samples c))).
  { rewrite Hn. unfold sumH. destruct (hs >? 0); nra. }
  assert (HB : 0 <= sumB <= INR (S (samples c))).
  { rewrite Hn. unfold sumB. destruct avg; lra. }
  assert (Hk : 0 < INR (S (samples c))).
  { rewrite Hn. pose proof (pos_INR (samples c)). lra. }
  destruct (now - startedAt c >=? 3000); unfold calibrationBounded;
    cbn [fst sumHandSize sumBrightness samples baselineHandSize brightness].
  - replace (Nat.max 1 (S (samples c))) with (S (samples c)) by lia.
    repeat split; try apply HH; try apply HB;
      try apply (div_bounds sumH M); try apply (div_bounds sumB 1);
      auto; lra.
  - repeat split; try apply HH; try apply HB; lra.
Qed.



(** *** The brightness sample *)

Lemma luma_bounds r g b :
  (0 <= r <= 255)%Z -> (0 <= g <= 255)%Z -> (0 <= b <= 255)%Z ->
  0 <= luma r g b <= 255.
Proof.
  intros [Hr0 Hr1] [Hg0 Hg1] [Hb0 Hb1]. unfold luma.
  apply IZR_le in Hr0, Hr1, Hg0, Hg1, Hb0, Hb1. lra.
Qed.

Lemma lumaLoop_bounds n : forall img s,
  List.length img = (4 * n)%nat ->
  Forall (fun v => (0 <= v <= 255)%Z) img ->
  s <= lumaLoop img s <= s + 255 * INR n.
Proof.
  induction n as [|n IH]; intros img s Hlen Hall.
  - destruct img; [|discriminate]. cbn. lra.
  - destruct img as [|r [|g [|b [|a rest]]]];
      try (exfalso; cbn [List.length] in Hlen; lia).
    cbn [lumaLoop].
    pose proof (Forall_inv Hall) as Hr.
    pose proof (Forall_inv_tail Hall) as Hall1.
    pose proof (Forall_inv Hall1) as Hg.
    pose proof (Forall_inv_tail Hall1) as Hall2.
    pose proof (Forall_inv Hall2) as Hb.
    pose proof (Forall_inv_tail (Forall_inv_tail Hall2)) as Hall4.
    cbv beta in Hr, Hg, Hb.
    pose proof (luma_bounds r g b Hr Hg Hb) as Hl.
    assert (Hrest : List.length rest = (4 * n)%nat) by (cbn in Hlen; lia).
    pose proof (IH rest (s + luma r g b) Hrest Hall4) as H.
    rewrite S_INR. lra.
Qed.

(** X13.  The brightness sample is a fraction: for RGBA bytes (each in
    0..255) of at least one whole pixel, [avg] lies between 0 and 1. *)
Theorem brightness_sample_range (img : list Z) (n : nat) :
  (0 < n)%nat ->
  List.length img = (4 * n)%nat ->
  Forall (fun v => (0 <= v <= 255)%Z) img ->
  0 <= frameBrightness img <= 1.
Proof.
  intros Hn Hlen Hall. unfold frameBrightness.
  pose proof (lumaLoop_bounds n img 0 Hlen Hall) as H.
  rewrite Hlen, mult_INR.
  assert (H4 : INR 4 = 4) by (cbn [INR]; lra). rewrite H4.
  assert (Hpos : 0 < INR n) by (apply lt_0_INR; exact Hn).
  replace (lumaLoop img 0 / (4 * INR n / 4) / 255)
    with (lumaLoop img 0 / (255 * INR n)) by (field; lra).
  apply (div_bounds (lumaLoop img 0) 1 (255 * INR n)); lra.
Qed.

Lemma brightness_sample_range_witness :
  0 <= frameBrightness [255; 255; 255; 255; 0; 0; 0; 255]%Z <= 1.
Proof.
  apply (brightness_sample_range _ 2); [lia | reflexivity |].
  repeat (apply Forall_cons; [lia|]). apply Forall_nil.
Defined.

(** *** The vote of the single-hand tracker *)

Lemma gesture_eqb_eq a b : gesture_eqb a b = true <-> a = b.
Proof.
  unfold gesture_eqb. destruct (GestureId_eq_dec a b); split;
    congruence.
Qed.

Lemma gesture_eqb_neq a b : a <> b -> gesture_eqb a b = false.
Proof.
  intros H. unfold gesture_eqb.
  destruct (GestureId_eq_dec a b); [contradiction | reflexivity].
Qed.

Lemma mapGet_mapSet g k v m :
  mapGet g (mapSet k v m) = if gesture_eqb k g then Some v else mapGet g m.
Proof.
  induction m as [|[k' v'] m IH]; cbn [mapSet mapGet].
  - reflexivity.
  - destruct (gesture_eqb k' k) eqn:Ek; cbn [mapGet].
    + apply gesture_eqb_eq in Ek. subst k'.
      destruct (gesture_eqb k g); reflexivity.
    + destruct (gesture_eqb k' g) eqn:Eg; [|exact IH].
      apply gesture_eqb_eq in Eg. subst k'.
      destruct (gesture_eqb k g) eqn:E; [|reflexivity].
      apply gesture_eqb_eq in E. subst k. rewrite gesture_eqb_refl in Ek.
      discriminate.
Qed.

Lemma countOf_countVotes_gen recent : forall m g,
  countOf g (fold_left (fun counts it =>
                          mapSet it (countOf it counts + 1) counts) recent m)
  = (countOf g m + votesFor g recent)%nat.
Proof.
  induction recent as [|it recent IH]; intros m g; cbn [fold_left].
  - unfold votesFor. cbn. lia.
  - rewrite IH. unfold countOf at 1. rewrite mapGet_mapSet.
    unfold votesFor. cbn [count_occ].
    destruct (GestureId_eq_dec it g) as [->|Hne].
    + rewrite gesture_eqb_refl. lia.
    + rewrite (gesture_eqb_neq _ _ Hne). fold (countOf g m). lia.
Qed.

Lemma countOf_countVotes recent g :
  countOf g (countVotes recent) = votesFor g recent.
Proof. unfold countVotes. now rewrite countOf_countVotes_gen. Qed.

Lemma mapGet_In k v m : mapGet k m = Some v -> In (k, v) m.
Proof.
  induction m as [|[k' v'] m IH]; cbn [mapGet]; [discriminate|].
  destruct (gesture_eqb k' k) eqn:E.
  - apply gesture_eqb_eq in E. intros [= <-]. left. now subst.
  - intros H. right. now apply IH.
Qed.

Lemma mapSet_keys k v m k0 :
  In k0 (map fst (mapSet k v m)) -> k0 = k \/ In k0 (map fst m).
Proof.
  induction m as [|[k' v'] m IH]; cbn [mapSet map fst In].
  - intros [<- | []]. now left.
  - destruct (gesture_eqb k' k); cbn [map fst In].
    + intros [<- | H]; auto.
    + intros [<- | H]; auto. destruct (IH H); auto.
Qed.

Lemma mapSet_NoDup k v m :
  NoDup (map fst m) -> NoDup (map fst (mapSet k v m)).
Proof.
  induction m as [|[k' v'] m IH]; cbn [mapSet map fst]; intros Hnd.
  - constructor; [intros [] | constructor].
  - inversion Hnd as [|? ? Hnotin Hnd']; subst.
    destruct (gesture_eqb k' k) eqn:E; cbn [map fst].
    + constructor; assumption.
    + constructor; [|now apply IH].
      intros Hin. destruct (mapSet_keys _ _ _ _ Hin) as [-> | H];
        [|contradiction].
      rewrite gesture_eqb_refl in E. discriminate.
Qed.

Lemma countVotes_NoDup recent : NoDup (map fst (countVotes recent)).
Proof.
  unfold countVotes.
  assert (H : forall m, NoDup (map fst m) ->
    NoDup (map fst (fold_left (fun counts it =>
                     mapSet it (countOf it counts + 1) counts) recent m))).
  { induction recent as [|it recent IH]; intros m Hm; [exact Hm|].
    cbn [fold_left]. apply IH. now apply mapSet_NoDup. }
  apply H. constructor.
Qed.

Lemma In_mapGet k v m : NoDup (map fst m) -> In (k, v) m -> mapGet k m = Some v.
Proof.
  induction m as [|[k' v'] m IH]; cbn [map fst In mapGet]; intros Hnd;
    [intros []|].
  inversion Hnd as [|? ? Hnotin Hnd']; subst.
  intros [[= -> ->] | Hin].
  - now rewrite gesture_eqb_refl.
  - destruct (gesture_eqb k' k) eqn:E; [|now apply IH].
    apply gesture_eqb_eq in E. subst k'. exfalso. apply Hnotin.
    change k with (fst (k, v)). now apply in_map.
Qed.

Lemma pickBest_gen (counts : Counts) :
  forall acc : option GestureId * nat,
  let res := fold_left (fun acc (kv : GestureId * nat) =>
                          if (snd acc <? snd kv)%nat
                          then (Some (fst kv), snd kv) else acc) counts acc in
  (snd acc <= snd res)%nat
  /\ (forall kv, In kv counts -> (snd kv <= snd res)%nat)
  /\ (res = acc \/ exists k, fst res = Some k /\ In (k, snd res) counts).
Proof.
  induction counts as [|[k v] counts IH]; intros acc; cbv zeta;
    cbn [fold_left].
  - repeat split; auto. intros kv [].
  - specialize (IH (if (snd acc <? snd (k, v))%nat
                    then (Some (fst (k, v)), snd (k, v)) else acc)).
    cbv zeta in IH. destruct IH as (H1 & H2 & H3).
    cbn [fst snd] in *.
    destruct (Nat.ltb_spec (snd acc) v) as [Hlt | Hge]; cbn [fst snd] in *.
    + repeat split.
      * lia.
      * intros kv [<- | Hin]; [exact H1 | now apply H2].
      * right. destruct H3 as [-> | (k0 & Hk & Hin)].
        -- exists k. cbn [fst snd In]. auto.
        -- exists k0. split; [exact Hk | now right].
    + repeat split.
      * exact H1.
      * intros kv [<- | Hin]; [cbn [fst snd]; lia | now apply H2].
      * destruct H3 as [-> | (k0 & Hk & Hin)]; [now left|].
        right. exists k0. split; [exact Hk | now right].
Qed.

Lemma votes_two_gestures a b recent :
  a <> b -> (votesFor a recent + votesFor b recent <= List.length recent)%nat.
Proof.
  intros Hne. unfold votesFor.
  induction recent as [|g recent IH]; cbn [count_occ List.length]; [lia|].
  destruct (GestureId_eq_dec g a), (GestureId_eq_dec g b); subst;
    try contradiction; lia.
Qed.

(** The vote returns a most frequent gesture of the window with its
    number of occurrences; when that number reaches the threshold of 5
    and the window holds at most 8 entries, the winner is the strict
    majority and every other gesture occurs at most 3 times. *)
Lemma vote_is_majority (recent : list GestureId) :
  let best := fst (pickBest (countVotes recent)) in
  let bestCount := snd (pickBest (countVotes recent)) in
  (forall g, (votesFor g recent <= bestCount)%nat)
  /\ (recent <> [] ->
      exists b, best = Some b /\ votesFor b recent = bestCount)
  /\ ((5 <= bestCount)%nat -> (List.length recent <= 8)%nat ->
      exists b, best = Some b /\ votesFor b recent = bestCount
                /\ forall g, g <> b -> (votesFor g recent <= 3)%nat).
Proof.
  cbv zeta. unfold pickBest.
  pose proof (pickBest_gen (countVotes recent) (@None GestureId, 0%nat)) as H.
  cbv zeta in H. destruct H as (_ & Hmax & Hbest).
  set (res := fold_left _ (countVotes recent) (@None GestureId, 0%nat)) in *.
  assert (Hall : forall g, (votesFor g recent <= snd res)%nat).
  { intros g. rewrite <- countOf_countVotes. unfold countOf.
    destruct (mapGet g (countVotes recent)) as [v|] eqn:E; [|lia].
    apply mapGet_In in E. exact (Hmax _ E). }
  assert (Hpos : (0 < snd res)%nat ->
            exists b, fst res = Some b /\ votesFor b recent = snd res).
  { intros Hp. destruct Hbest as [E | (b & Hb & Hin)].
    - rewrite E in Hp. cbn in Hp. lia.
    - exists b. split; [exact Hb|]. rewrite <- countOf_countVotes.
      unfold countOf.
      now rewrite (In_mapGet _ _ _ (countVotes_NoDup recent) Hin). }
  split; [exact Hall | split].
  - intros Hne. apply Hpos. destruct recent as [|g recent]; [contradiction|].
    specialize (Hall g). unfold votesFor in Hall. cbn [count_occ] in Hall.
    destruct (GestureId_eq_dec g g); [lia | contradiction].
  - intros H5 H8. destruct Hpos as (b & Hb & Hn); [lia|].
    exists b. repeat split; auto. intros g Hg.
    pose proof (votes_two_gestures g b recent Hg). lia.
Qed.

Lemma skipn_one_tl {A} (l : list A) : tl l = skipn 1 l.
Proof. destruct l; reflexivity. Qed.

Lemma pushRecent_lastN g (l : list GestureId) :
  pushRecent g (lastN 8 l) = lastN 8 (l ++ [g]).
Proof.
  unfold pushRecent, lastN. cbv zeta.
  rewrite !length_app, length_skipn. cbn [List.length].
  assert (Happ : skipn (List.length l - 8) l ++ [g]
                 = skipn (List.length l - 8) (l ++ [g])).
  { rewrite skipn_app.
    replace (List.length l - 8 - List.length l)%nat with 0%nat by lia.
    reflexivity. }
  destruct (Nat.ltb_spec 8 (List.length l - (List.length l - 8) + 1)).
  - rewrite skipn_one_tl, Happ, skipn_skipn. f_equal. lia.
  - rewrite Happ. f_equal. lia.
Qed.

Lemma lastN_short {A} n (l : list A) :
  (List.length l <= n)%nat -> lastN n l = l.
Proof.
  intros H. unfold lastN.
  replace (List.length l - n)%nat with 0%nat by lia. reflexivity.
Qed.

Lemma lastN_length {A} n (l : list A) : (List.length (lastN n l) <= n)%nat.
Proof. unfold lastN. rewrite length_skipn. lia. Qed.

Lemma legacyStep_recent g nowMs speakNow r :
  recentGesturesRef (fst (legacyStep g nowMs speakNow r))
  = match g with
    | Some a => pushRecent a (recentGesturesRef r)
    | None => recentGesturesRef r
    end.
Proof.
  unfold legacyStep. destruct g as [a|]; [|reflexivity].
  destruct (pickBest (countVotes (pushRecent a (recentGesturesRef r))))
    as [[b|] n]; [|reflexivity].
  destruct (5 <=? n)%nat; [|reflexivity].
  destruct (_ && _); [|reflexivity].
  destruct (speak speakNow (lg_lastSpokenTime r)); reflexivity.
Qed.

(** X14.  The vote window of the single-hand tracker holds exactly the
    last eight non-null answers of its classifier (fewer at the start):
    frames without a gesture neither shorten nor clear it. *)
Theorem legacy_window_is_last_eight (frames : list LockFrame)
    (r : LegacyRefs) :
  (List.length (recentGesturesRef r) <= 8)%nat ->
  recentGesturesRef (legacyRun frames r)
  = lastN 8 (recentGesturesRef r ++ somes (map lf_candidate frames))
  /\ (List.length (recentGesturesRef (legacyRun frames r)) <= 8)%nat.
Proof.
  intros Hlen.
  assert (Hgen : forall fs r0 l0,
            recentGesturesRef r0 = lastN 8 l0 ->
            recentGesturesRef (legacyRun fs r0)
            = lastN 8 (l0 ++ somes (map lf_candidate fs))).
  { induction fs as [|fr fs IH]; intros r0 l0 H0; cbn [legacyRun map somes].
    - now rewrite app_nil_r.
    - destruct (lf_candidate fr) as [a|] eqn:E.
      + rewrite (IH _ (l0 ++ [a])).
        * now rewrite <- app_assoc.
        * rewrite legacyStep_recent, H0. apply pushRecent_lastN.
      + apply IH. now rewrite legacyStep_recent. }
  assert (H : recentGesturesRef (legacyRun frames r)
              = lastN 8 (recentGesturesRef r
                         ++ somes (map lf_candidate frames))).
  { apply Hgen. symmetry. now apply lastN_short. }
  split; [exact H|]. rewrite H. apply lastN_length.
Qed.

Lemma legacy_window_is_last_eight_witness :
  recentGesturesRef
    (legacyRun (framesOf clock30 clock30 0
                  (repeat (Some hello) 7 ++ [None; Some yes; None; Some wait]))
       (mkLegacyRefs [] 0 None))
  = [hello; hello; hello; hello; hello; hello; yes; wait].
Proof.
  apply (legacy_window_is_last_eight
           (framesOf clock30 clock30 0
              (repeat (Some hello) 7 ++ [None; Some yes; None; Some wait]))
           (mkLegacyRefs [] 0 None)).
  cbn. lia.
Defined.

(** X15.  The single-hand tracker emits a lock event for a gesture only
    when that gesture fills at least 5 of the (at most 8) places of the
    vote window, which makes it the strict majority: every other gesture
    has at most 3 places, so the order in which the [Map] is traversed
    cannot change the outcome.  The event carries the phrase of the
    gesture, which differs from the gesture locked last, and at least
    2500 ms have passed since [lastSpokenTime]. *)
Theorem legacy_lock_needs_majority (g : GestureId) (nowMs speakNow : Z)
    (r : LegacyRefs) (phrase : string) (b : GestureId) :
  (List.length (recentGesturesRef r) <= 8)%nat ->
  onPhrase (snd (legacyStep (Some g) nowMs speakNow r)) = Some (phrase, b) ->
  let window := pushRecent g (recentGesturesRef r) in
  phrase = GESTURE_PHRASE b
  /\ (5 <= votesFor b window)%nat
  /\ (forall g', g' <> b -> (votesFor g' window <= 3)%nat)
  /\ lg_lastSpokenGestureRef r <> Some b
  /\ (nowMs - lg_lastSpokenTime r >= 2500)%Z.
Proof.
  intros Hlen. cbv zeta. unfold legacyStep.
  set (window := pushRecent g (recentGesturesRef r)).
  assert (Hw : (List.length window <= 8)%nat).
  { unfold window. rewrite <- (lastN_short 8 (recentGesturesRef r) Hlen).
    rewrite pushRecent_lastN. apply lastN_length. }
  pose proof (vote_is_majority window) as Hvote. cbv zeta in Hvote.
  destruct Hvote as (_ & _ & Hmaj).
  destruct (pickBest (countVotes window)) as [[b0|] n]; [|discriminate].
  cbn [fst snd] in Hmaj.
  destruct (Nat.leb_spec 5 n) as [H5|]; [|discriminate].
  destruct (Z.geb_spec (nowMs - lg_lastSpokenTime r) 2500) as [Hcool|];
    [|discriminate].
  destruct (is_gesture (lg_lastSpokenGestureRef r) b0) eqn:Hg;
    [discriminate|].
  cbn [andb negb].
  destruct (speak speakNow (lg_lastSpokenTime r)) as [sp t'].
  cbn [snd onPhrase]. intros [= <- <-].
  destruct (Hmaj H5 Hw) as (b1 & [= <-] & Hn & Hothers).
  repeat split; auto; [lia | | lia].
  intros E. apply is_gesture_iff in E. congruence.
Qed.

Lemma legacy_lock_needs_majority_witness :
  let r := mkLegacyRefs [hello; yes; hello; hello; wait; hello] 0 (Some yes) in
  let window := pushRecent hello (recentGesturesRef r) in
  "Hello"%string = GESTURE_PHRASE hello
  /\ (5 <= votesFor hello window)%nat
  /\ (forall g', g' <> hello -> (votesFor g' window <= 3)%nat)
  /\ lg_lastSpokenGestureRef r <> Some hello
  /\ (clock30 0 - lg_lastSpokenTime r >= 2500)%Z.
Proof.
  apply (legacy_lock_needs_majority hello (clock30 0) (clock30 0)
           (mkLegacyRefs [hello; yes; hello; hello; wait; hello] 0 (Some yes))
           "Hello"%string hello).
  - cbn. lia.
  - reflexivity.
Defined.

(** *** Error bodies and the voice fallback *)

Lemma extract_object fields :
  extractSpeakErrorMessage (JObj fields)
  = if hasKey "error" fields then
      Returns (asString (prop "message" (prop "detail" (assoc "error" fields))))
    else if hasKey "detail" fields then
      Returns (asString (prop "message" (assoc "detail" fields)))
    else Returns None.
Proof. reflexivity. Qed.

Lemma asString_some v s : asString v = Some s <-> v = Some (JStr s).
Proof.
  split; [|intros ->; reflexivity].
  destruct v as [[]|]; cbn; congruence.
Qed.

(** X16.  [extractSpeakErrorMessage] on any parsed JSON value:
    it throws exactly on a truthy primitive ([true], a non-zero number, a
    non-empty string); it returns a message only for an object, and the
    message is then the string at [error.detail.message], or, when the
    object has no 'error' key at all, the string at [detail.message]; an
    'error' key without such a string hides a top-level 'detail'. *)
Theorem extract_message_cases (body : JSON) :
  (extractSpeakErrorMessage body = Throws
   <-> truthy body = true
       /\ (forall items, body <> JArr items)
       /\ (forall fields, body <> JObj fields))
  /\ (forall s,
        extractSpeakErrorMessage body = Returns (Some s) <->
        exists fields,
          body = JObj fields
          /\ (prop "message" (prop "detail" (assoc "error" fields))
              = Some (JStr s)
              \/ (assoc "error" fields = None
                  /\ prop "message" (assoc "detail" fields)
                     = Some (JStr s))))
  /\ (forall fields e,
        body = JObj fields ->
        assoc "error" fields = Some e ->
        asString (prop "message" (prop "detail" (Some e))) = None ->
        extractSpeakErrorMessage body = Returns None).
Proof.
  split; [|split].
  - destruct body as [|b|n|s|items|fields].
    + cbn. split; [discriminate | intros [H _]; discriminate H].
    + destruct b; cbn.
      * split; [intros _|reflexivity]. repeat split; discriminate.
      * split; [discriminate | intros [H _]; discriminate H].
    + unfold extractSpeakErrorMessage, truthy.
      destruct (n =? 0); cbn.
      * split; [discriminate | intros [H _]; discriminate H].
      * split; [intros _|reflexivity]. repeat split; discriminate.
    + unfold extractSpeakErrorMessage, truthy.
      destruct (String.eqb s ""); cbn.
      * split; [discriminate | intros [H _]; discriminate H].
      * split; [intros _|reflexivity]. repeat split; discriminate.
    + cbn. split; [discriminate|]. intros (_ & H & _). now destruct (H items).
    + rewrite extract_object.
      split.
      * destruct (hasKey "error" fields); [discriminate|].
        destruct (hasKey "detail" fields); discriminate.
      * intros (_ & _ & H). now destruct (H fields).
  - intros s. split.
    + destruct body as [|b|n|s0|items|fields].
      * discriminate.
      * destruct b; discriminate.
      * unfold extractSpeakErrorMessage, truthy.
        destruct (n =? 0); discriminate.
      * unfold extractSpeakErrorMessage, truthy.
        destruct (String.eqb s0 ""); discriminate.
      * discriminate.
      * rewrite extract_object. unfold hasKey.
        intros H. exists fields. split; [reflexivity|].
        destruct (assoc "error" fields) as [e|] eqn:Ee.
        -- left. apply asString_some. congruence.
        -- right. split; [reflexivity|].
          destruct (assoc "detail" fields) as [d|] eqn:Ed;
            [|discriminate].
          apply asString_some. congruence.
    + intros (fields & -> & H). rewrite extract_object. unfold hasKey.
      destruct H as [H | [He H]].
      * destruct (assoc "error" fields) as [e|]; [|discriminate H].
        now rewrite H.
      * rewrite He.
        destruct (assoc "detail" fields) as [d|]; [|discriminate H].
        now rewrite H.
  - intros fields e -> He Hnone. rewrite extract_object. unfold hasKey.
    now rewrite He, Hnone.
Qed.

Lemma extract_message_cases_witness :
  extractSpeakErrorMessage
    (JObj [("error", JStr "quota"); ("detail", JObj [("message", JStr "m")])]
       %string)
  = Returns None.
Proof.
  apply (extract_message_cases
           (JObj [("error", JStr "quota");
                  ("detail", JObj [("message", JStr "m")])]%string))
    with (e := JStr "quota"%string)
         (fields := [("error", JStr "quota");
                     ("detail", JObj [("message", JStr "m")])]%string);
    reflexivity.
Defined.

Lemma voiced_app a b : voiced (a ++ b) = (voiced a + voiced b)%nat.
Proof.
  induction a as [|e a IH]; [reflexivity|].
  destruct e; cbn [app voiced]; rewrite IH; reflexivity.
Qed.

Lemma fetches_app a b : fetches (a ++ b) = (fetches a + fetches b)%nat.
Proof.
  induction a as [|e a IH]; [reflexivity|].
  destruct e; cbn [app fetches]; rewrite IH; reflexivity.
Qed.

Lemma speakCall_cooldown text now hasSynth net r :
  (now - sp_lastSpokenTime r < 3000)%Z ->
  speakCall text now hasSynth net r = (r, []).
Proof.
  intros H. unfold speakCall.
  destruct (Z.ltb_spec (now - sp_lastSpokenTime r) 3000); [reflexivity|lia].
Qed.

Lemma speakCall_disabled text now hasSynth net r :
  elevenLabsDisabledRef r = true ->
  elevenLabsDisabledRef (fst (speakCall text now hasSynth net r)) = true
  /\ fetches (snd (speakCall text now hasSynth net r)) = 0%nat.
Proof.
  intros H. unfold speakCall.
  destruct (now - sp_lastSpokenTime r <? 3000)%Z; [now split|].
  rewrite H. cbn [fst snd elevenLabsDisabledRef]. split; [reflexivity|].
  unfold speakViaBrowser. destruct hasSynth; reflexivity.
Qed.

(** X17.  A call of [speak] that passes its 3000 ms guard gives the phrase
    a voice at most once, whatever the network and the audio element do:
    exactly once where the browser has speech synthesis, and without it
    only when the fetched audio plays.  It shows the phrase first, stamps
    [lastSpokenTime] with its own clock reading, and asks the speech route
    once, or not at all when ElevenLabs is disabled; a call inside the
    guard does nothing. *)
Theorem speak_voices_once (text : string) (now : Z) (hasSynth : bool)
    (net : FetchOutcome) (r : SpeakRefs) :
  let out := speakCall text now hasSynth net r in
  ((now - sp_lastSpokenTime r < 3000)%Z -> out = (r, []))
  /\ ((now - sp_lastSpokenTime r >= 3000)%Z ->
      sp_lastSpokenTime (fst out) = now
      /\ hd_error (snd out) = Some (EffDetectedText text)
      /\ (voiced (snd out) <= 1)%nat
      /\ (hasSynth = true -> voiced (snd out) = 1%nat)
      /\ (hasSynth = false ->
          (voiced (snd out) = 1%nat <->
           elevenLabsDisabledRef r = false /\ net = RespOk false false))
      /\ fetches (snd out)
         = if elevenLabsDisabledRef r then 0%nat else 1%nat).
Proof.
  cbv zeta. split; [apply speakCall_cooldown|].
  intros Hgap. unfold speakCall.
  destruct (Z.ltb_spec (now - sp_lastSpokenTime r) 3000); [lia|].
  destruct (elevenLabsDisabledRef r) eqn:Hd.
  - cbn [fst snd sp_lastSpokenTime app hd_error].
    unfold speakViaBrowser.
    destruct hasSynth; cbn; repeat split; auto; try lia; try discriminate;
      intros [? ?]; discriminate.
  - destruct net as [|blobFails playRejected|status body].
    + cbn [fst snd sp_lastSpokenTime app hd_error].
      unfold speakCatch, speakViaBrowser.
      destruct hasSynth; cbn; repeat split; auto; try lia; try discriminate;
        intros [? ?]; discriminate.
    + unfold speakCatch, speakViaBrowser.
      destruct blobFails, playRejected, hasSynth; cbn;
        repeat split; auto; try lia; try discriminate;
        intros [? ?]; discriminate.
    + destruct (extractSpeakErrorMessage
                  match body with Some b => b | None => JNull end)
        as [msg|];
        unfold speakCatch, speakViaBrowser;
        destruct hasSynth; cbn; repeat split; auto; try lia;
        try discriminate; intros [? ?]; discriminate.
Qed.

Lemma speak_voices_once_witness :
  voiced (snd (speakCall "Hello" 5000 true
                 (RespError 401
                    (Some (JObj [("error",
                       JObj [("detail",
                          JObj [("message", JStr "bad key")])])]%string)))
                 (mkSpeakRefs 0 false))) = 1%nat.
Proof.
  destruct (speak_voices_once "Hello" 5000 true
              (RespError 401
                 (Some (JObj [("error",
                    JObj [("detail",
                       JObj [("message", JStr "bad key")])])]%string)))
              (mkSpeakRefs 0 false)) as [_ H].
  assert (Hgap : (5000 - sp_lastSpokenTime (mkSpeakRefs 0 false) >= 3000)%Z)
    by (cbn; lia).
  destruct (H Hgap) as (_ & _ & _ & Hv & _).
  exact (Hv eq_refl).
Defined.


Lemma speakRun_disabled calls r :
  elevenLabsDisabledRef r = true ->
  elevenLabsDisabledRef (fst (speakRun calls r)) = true
  /\ fetches (snd (speakRun calls r)) = 0%nat.
Proof.
  revert r. induction calls as [|c calls IH]; intros r Hd; [now split|].
  cbn [speakRun].
  pose proof (speakCall_disabled (sc_text c) (sc_now c) (sc_hasSynth c)
                (sc_net c) r Hd) as [H1 H2].
  destruct (speakCall (sc_text c) (sc_now c) (sc_hasSynth c) (sc_net c) r)
    as [r1 effs].
  cbn [fst snd] in H1, H2.
  destruct (IH r1 H1) as [H3 H4].
  destruct (speakRun calls r1) as [r2 effs'].
  cbn [fst snd] in *. split; [exact H3|].
  rewrite fetches_app. lia.
Qed.

(** X19.  Once a call of [speak] has met a 401 or 403 answer with an
    accepted body, no later call asks the speech route again: in the calls
    that follow, one after the other, there is no fetch at all, and the
    switch is never turned back on. *)
Theorem no_fetch_after_rejection (c : SpeakCall) (later : list SpeakCall)
    (r : SpeakRefs) :
  (sc_now c - sp_lastSpokenTime r >= 3000)%Z ->
  rejectsKey (sc_net c) = true ->
  let r1 := fst (speakCall (sc_text c) (sc_now c) (sc_hasSynth c)
                   (sc_net c) r) in
  fetches (snd (speakRun later r1)) = 0%nat
  /\ elevenLabsDisabledRef (fst (speakRun later r1)) = true
  /\ fetches (snd (speakRun (c :: later) r)) = fetches
       (snd (speakCall (sc_text c) (sc_now c) (sc_hasSynth c) (sc_net c) r)).
Proof.
  intros Hgap Hrej. cbv zeta.
  assert (Hd : elevenLabsDisabledRef
                 (fst (speakCall (sc_text c) (sc_now c) (sc_hasSynth c)
                         (sc_net c) r)) = true).
  { unfold speakCall.
    destruct (Z.ltb_spec (sc_now c - sp_lastSpokenTime r) 3000); [lia|].
    destruct (elevenLabsDisabledRef r) eqn:Hd0; [reflexivity|].
    destruct (sc_net c) as [|blobFails playRejected|status body];
      try discriminate Hrej.
    cbn [rejectsKey] in Hrej. cbv zeta.
    destruct (extractSpeakErrorMessage
                match body with Some b => b | None => JNull end)
      as [msg|]; cbn [fst elevenLabsDisabledRef].
    - now rewrite Bool.andb_true_r in Hrej.
    - now rewrite Bool.andb_false_r in Hrej. }
  destruct (speakRun_disabled later _ Hd) as [H1 H2].
  split; [exact H2 | split; [exact H1|]].
  cbn [speakRun].
  destruct (speakCall (sc_text c) (sc_now c) (sc_hasSynth c) (sc_net c) r)
    as [r1 effs].
  cbn [fst snd] in *.
  destruct (speakRun later r1) as [r2 effs']. cbn [fst snd] in *.
  rewrite fetches_app. lia.
Qed.

Lemma no_fetch_after_rejection_witness :
  fetches (snd (speakRun
     [mkSpeakCall "Yes" 9000 true (RespOk false false);
      mkSpeakCall "No" 13000 true FetchFails]
     (fst (speakCall "Hello" 5000 true (RespError 403 None)
             (mkSpeakRefs 0 false))))) = 0%nat.
Proof.
  apply (no_fetch_after_rejection
           (mkSpeakCall "Hello" 5000 true (RespError 403 None))
           [mkSpeakCall "Yes" 9000 true (RespOk false false);
            mkSpeakCall "No" 13000 true FetchFails]
           (mkSpeakRefs 0 false)).
  - cbn. lia.
  - reflexivity.
Defined.

(** *** The transcript of the page *)

Lemma gestureName_inj a b : gestureName a = gestureName b -> a = b.
Proof. destruct a, b; cbn; intros H; try reflexivity; discriminate H. Qed.

Lemma chain_NoBackToBack {A : Type} (prev : option A) (l : list A) :
  chain prev l -> NoBackToBack l.
Proof.
  revert prev. induction l as [|x l IH]; intros prev Hc l1 a b l2 E.
  - destruct l1; discriminate E.
  - destruct Hc as [_ Hc]. destruct l1 as [|y l1]; cbn [app] in E.
    + injection E as -> ->. destruct Hc as [Hne _]. congruence.
    + injection E as -> E. exact (IH (Some y) Hc l1 a b l2 E).
Qed.

Lemma NoBackToBack_rev {A : Type} (l : list A) :
  NoBackToBack l -> NoBackToBack (rev l).
Proof.
  intros H l1 a b l2 E.
  assert (E' : l = rev l2 ++ b :: a :: rev l1).
  { rewrite <- (rev_involutive l), E, rev_app_distr. cbn [rev].
    now rewrite <- !app_assoc. }
  intros Eab. exact (H _ _ _ _ E' (eq_sym Eab)).
Qed.

Lemma NoBackToBack_firstn {A : Type} (n : nat) (l : list A) :
  NoBackToBack l -> NoBackToBack (firstn n l).
Proof.
  intros H l1 a b l2 E.
  apply (H l1 a b (l2 ++ skipn n l)).
  rewrite <- (firstn_skipn n l) at 1. rewrite E, <- app_assoc. reflexivity.
Qed.

Lemma NoBackToBack_map {A B : Type} (f : A -> B) (l : list A) :
  (forall a b, f a = f b -> a = b) ->
  NoBackToBack l -> NoBackToBack (map f l).
Proof.
  intros Hinj H l1 a b l2 E.
  apply map_eq_app in E as (k1 & k2 & -> & <- & E).
  apply map_eq_cons in E as (a' & k3 & -> & <- & E).
  apply map_eq_cons in E as (b' & k4 & -> & <- & <-).
  intros Eab. apply Hinj in Eab.
  exact (H k1 a' b' k4 eq_refl Eab).
Qed.

Lemma firstn_app_firstn_le {A : Type} (a b : list A) : forall n m,
  (n <= m)%nat -> firstn n (a ++ firstn m b) = firstn n (a ++ b).
Proof.
  induction a as [|x a IH]; intros n m Hle; cbn [app].
  - rewrite firstn_firstn. now rewrite Nat.min_l.
  - destruct n as [|n]; [reflexivity|]. cbn [firstn]. f_equal.
    apply IH. lia.
Qed.

Lemma firstn_app_firstn {A : Type} (n : nat) (a b : list A) :
  firstn n (a ++ firstn n b) = firstn n (a ++ b).
Proof. apply firstn_app_firstn_le. lia. Qed.

Lemma pageSession_transcript stamp evs : forall i s,
  (List.length (pg_transcript s) <= 100)%nat ->
  pg_transcript (pageSession stamp i evs s)
  = firstn 100 (rev (entriesOf stamp i evs) ++ pg_transcript s).
Proof.
  induction evs as [|[phrase g] evs IH]; intros i s Hlen.
  - cbn [pageSession entriesOf rev app]. now rewrite firstn_all2.
  - cbn [pageSession entriesOf rev]. rewrite IH.
    + unfold pageOnPhrase. cbn [pg_transcript].
      rewrite firstn_app_firstn, <- app_assoc. reflexivity.
    + unfold pageOnPhrase. cbn [pg_transcript].
      rewrite length_firstn. lia.
Qed.

Lemma entriesOf_view stamp evs : forall i,
  map (fun e => (te_text e, te_gestureId e)) (entriesOf stamp i evs)
  = map (fun ev => (fst ev, gestureName (snd ev))) evs.
Proof.
  induction evs as [|[phrase g] evs IH]; intros i; [reflexivity|].
  cbn [entriesOf map te_text te_gestureId fst snd]. now rewrite IH.
Qed.

Lemma runLock_chain frames : forall r,
  chain (lastSpokenGestureRef r) (map snd (snd (runLock frames r)))
  /\ Forall (fun ev => fst ev = GESTURE_PHRASE (snd ev))
       (snd (runLock frames r)).
Proof.
  induction frames as [|fr frames IH]; intros r.
  - split; [exact I | constructor].
  - cbn [runLock].
    pose proof (lockStep_cases (lf_candidate fr) (lf_nowMs fr)
                  (lf_speakNow fr) r) as H. cbv zeta in H.
    destruct (lockStep (lf_candidate fr) (lf_nowMs fr) (lf_speakNow fr) r)
      as [r1 out].
    destruct (IH r1) as [IHc IHf]. destruct (runLock frames r1) as [r2 evs].
    cbn [fst snd] in *.
    destruct H as [(Hno & Hg & _) | (c & _ & Hev & Hne & Hg & _)].
    + rewrite Hno. cbn [snd]. rewrite <- Hg. split; [exact IHc | exact IHf].
    + rewrite Hev. cbn [snd map chain]. rewrite Hg in IHc.
      split; [split; [exact Hne | exact IHc]|].
      constructor; [reflexivity | exact IHf].
Qed.

(** X20.  The transcript that the page shows after a tracker session, from
    any refs of the lock step and the page as it is first rendered: it
    lists the lock events newest first, at most the 100 latest, each entry
    with the phrase and the name of its gesture, and no two neighbouring
    entries carry the same gesture. *)
Theorem transcript_of_session (frames : list LockFrame) (r : LockRefs)
    (stamp : nat -> string * Z) :
  let evs := snd (runLock frames r) in
  let s := pageSession stamp 0 evs initPage in
  map (fun e => (te_text e, te_gestureId e)) (pg_transcript s)
  = firstn 100
      (rev (map (fun ev => (GESTURE_PHRASE (snd ev), gestureName (snd ev)))
              evs))
  /\ List.length (pg_transcript s) = Nat.min 100 (List.length evs)
  /\ NoBackToBack (map te_gestureId (pg_transcript s)).
Proof.
  cbv zeta.
  destruct (runLock_chain frames r) as [Hc Hf].
  set (evs := snd (runLock frames r)) in *.
  assert (Ht : pg_transcript (pageSession stamp 0 evs initPage)
               = firstn 100 (rev (entriesOf stamp 0 evs))).
  { rewrite pageSession_transcript by (cbn; lia).
    cbn [initPage pg_transcript]. now rewrite app_nil_r. }
  assert (Hview : map (fun e => (te_text e, te_gestureId e))
                    (entriesOf stamp 0 evs)
                  = map (fun ev => (GESTURE_PHRASE (snd ev),
                                    gestureName (snd ev))) evs).
  { rewrite entriesOf_view. apply map_ext_in.
    intros ev Hin. rewrite Forall_forall in Hf. now rewrite (Hf ev Hin). }
  split; [|split].
  - rewrite Ht, <- firstn_map, map_rev, Hview. reflexivity.
  - rewrite Ht, length_firstn, length_rev.
    rewrite <- (length_map (fun e => (te_text e, te_gestureId e))), Hview.
    now rewrite length_map.
  - rewrite Ht, <- firstn_map, map_rev.
    apply NoBackToBack_firstn, NoBackToBack_rev.
    assert (E : map te_gestureId (entriesOf stamp 0 evs)
                = map gestureName (map snd evs)).
    { rewrite map_map.
      rewrite <- (map_map (fun e => (te_text e, te_gestureId e)) snd).
      rewrite entriesOf_view, map_map. reflexivity. }
    rewrite E. apply NoBackToBack_map; [apply gestureName_inj|].
    exact (chain_NoBackToBack _ _ Hc).
Qed.

(** *** The speech route *)

Lemma findVoice_first items s :
  findVoice items = Returns (Some s) ->
  exists before item after,
    items = before ++ item :: after
    /\ prop "voice_id" (Some item) = Some (JStr s)
    /\ Forall (fun v => v <> JNull
                        /\ asString (prop "voice_id" (Some v)) = None)
         before.
Proof.
  induction items as [|v items IH]; intros H; [discriminate H|].
  assert (Hstep :
            v <> JNull ->
            asString (prop "voice_id" (Some v)) = None ->
            findVoice items = Returns (Some s) ->
            exists before item after,
              v :: items = before ++ item :: after
              /\ prop "voice_id" (Some item) = Some (JStr s)
              /\ Forall (fun v => v <> JNull
                                  /\ asString (prop "voice_id" (Some v))
                                     = None) before).
  { intros Hn Hv Hrest.
    destruct (IH Hrest) as (before & item & after & -> & Hp & Hb).
    exists (v :: before), item, after. split; [reflexivity|].
    split; [exact Hp|]. constructor; [now split | exact Hb]. }
  destruct v as [|b|n|str|arr|fields]; cbn [findVoice prop] in H.
  - discriminate H.
  - apply Hstep; [discriminate | reflexivity | exact H].
  - apply Hstep; [discriminate | reflexivity | exact H].
  - apply Hstep; [discriminate | reflexivity | exact H].
  - apply Hstep; [discriminate | reflexivity | exact H].
  - destruct (assoc "voice_id" fields) as [[|b|n|str|arr|fs]|] eqn:Ea;
      try (apply Hstep;
           [discriminate | cbn [prop]; rewrite Ea; reflexivity | exact H]).
    injection H as ->.
    exists [], (JObj fields), items. split; [reflexivity|].
    split; [exact Ea | constructor].
Qed.

Lemma resolve_preferred apiKey v voicesNet :
  truthy v = true ->
  resolveVoiceId apiKey (Some v) voicesNet = (Returns v, []).
Proof. intros H. unfold resolveVoiceId. now rewrite H. Qed.

Lemma resolve_falsy apiKey p voicesNet :
  truthyOpt p = false ->
  resolveVoiceId apiKey p voicesNet = resolveVoiceId apiKey None voicesNet.
Proof.
  destruct p as [v|]; [|reflexivity]. cbn [truthyOpt]. intros H.
  unfold resolveVoiceId. now rewrite H.
Qed.

Lemma resolve_lookup_sent apiKey voicesNet :
  snd (resolveVoiceId apiKey None voicesNet) = [CallVoices apiKey].
Proof.
  unfold resolveVoiceId.
  destruct voicesNet as [res|]; [|reflexivity].
  cbn [routeFetch routeBind].
  destruct (rs_ok res); cbn [negb].
  - destruct (rs_json res) as [data|]; [|reflexivity].
    cbn [routeTry routeRet routeBind].
    destruct data as [|b|n|str|arr|fields]; try reflexivity.
    cbn [prop].
    destruct (assoc "voices" fields) as [[|b|n|str|items|fs]|];
      try reflexivity.
    destruct (findVoice items) as [[id|]|]; try reflexivity.
    destruct (String.eqb id ""); reflexivity.
  - destruct (rs_status res =? 401)%Z; reflexivity.
Qed.

Lemma resolve_lookup apiKey voicesNet v sent :
  resolveVoiceId apiKey None voicesNet = (Returns v, sent) ->
  exists res,
    voicesNet = Some res
    /\ ((rs_ok res = false /\ rs_status res = 401%Z
         /\ v = JStr FALLBACK_VOICE_ID)
        \/ (rs_ok res = true
            /\ exists data items id,
                 rs_json res = Some data
                 /\ prop "voices" (Some data) = Some (JArr items)
                 /\ findVoice items = Returns (Some id)
                 /\ id <> ""%string
                 /\ v = JStr id)).
Proof.
  unfold resolveVoiceId.
  destruct voicesNet as [res|]; [|discriminate].
  cbn [routeFetch routeBind]. intros H. exists res. split; [reflexivity|].
  destruct (rs_ok res); cbn [negb] in H.
  - right. split; [reflexivity|].
    destruct (rs_json res) as [data|] eqn:Ej; [|discriminate H].
    cbn [routeTry routeRet routeBind] in H.
    exists data.
    destruct data as [|b|n|str|arr|fields]; try discriminate H.
    cbn [prop] in *.
    destruct (assoc "voices" fields) as [[|b|n|str|items|fs]|] eqn:Ev;
      try discriminate H.
    destruct (findVoice items) as [[id|]|] eqn:Ef; try discriminate H.
    destruct (String.eqb_spec id ""); [discriminate H|].
    exists items, id. cbn in H. injection H as <- _.
    split; [reflexivity|]. split; [reflexivity|]. split; [exact Ef|].
    split; [assumption | reflexivity].
  - left. split; [reflexivity|].
    destruct (Z.eqb_spec (rs_status res) 401); [|discriminate H].
    cbn in H. injection H as <- _. auto.
Qed.

(** X21.  Whenever [resolveVoiceId] returns, the id is truthy (never an
    empty string), and it is one of three: the preferred id, returned
    without any request; the fallback voice, only after the voices request
    was answered 401; or the [voice_id] of the first listed voice that has
    a string there, all entries before it being non-null without one.
    The voices request is sent exactly when the preferred id is missing
    or falsy. *)
Theorem resolve_voice_id_sound (apiKey : string) (preferred : option JSON)
    (voicesNet : option Response) (v : JSON) (sent : list Outbound) :
  resolveVoiceId apiKey preferred voicesNet = (Returns v, sent) ->
  truthy v = true
  /\ ((preferred = Some v /\ sent = [])
      \/ (truthyOpt preferred = false
          /\ sent = [CallVoices apiKey]
          /\ exists res,
               voicesNet = Some res
               /\ ((rs_status res = 401%Z /\ v = JStr FALLBACK_VOICE_ID)
                   \/ (rs_ok res = true
                       /\ exists data before item after id,
                            rs_json res = Some data
                            /\ prop "voices" (Some data)
                               = Some (JArr (before ++ item :: after))
                            /\ prop "voice_id" (Some item) = Some (JStr id)
                            /\ Forall
                                 (fun w =>
                                    w <> JNull
                                    /\ asString (prop "voice_id" (Some w))
                                       = None) before
                            /\ v = JStr id)))).
Proof.
  intros H.
  destruct (truthyOpt preferred) eqn:Hp.
  - destruct preferred as [p|]; [|discriminate Hp]. cbn [truthyOpt] in Hp.
    rewrite (resolve_preferred _ _ _ Hp) in H. injection H as <- <-.
    split; [exact Hp|]. left. now split.
  - rewrite (resolve_falsy _ _ _ Hp) in H.
    pose proof (resolve_lookup_sent apiKey voicesNet) as Hs.
    rewrite H in Hs. cbn [snd] in Hs.
    destruct (resolve_lookup _ _ _ _ H) as (res & Hnet & Hc).
    destruct Hc as [(_ & H401 & ->)
                   | (Hok & data & items & id & Hj & Hv & Hf & Hne & ->)].
    + split; [reflexivity|]. right. split; [reflexivity|].
      split; [exact Hs|]. exists res. split; [exact Hnet|]. now left.
    + split.
      * cbn [truthy]. destruct (String.eqb_spec id ""); [contradiction|].
        reflexivity.
      * right. split; [reflexivity|]. split; [exact Hs|].
        exists res. split; [exact Hnet|]. right. split; [exact Hok|].
        destruct (findVoice_first _ _ Hf)
          as (before & item & after & -> & Hi & Hb).
        exists data, before, item, after, id. auto.
Qed.

Lemma resolve_voice_id_sound_witness :
  truthy (JStr "v2") = true
  /\ ((Some (JStr "") = Some (JStr "v2") /\ [CallVoices "key"] = [])
      \/ (truthyOpt (Some (JStr "")) = false
          /\ [CallVoices "key"] = [CallVoices "key"]
          /\ exists res,
               Some sampleVoices = Some res
               /\ ((rs_status res = 401%Z
                    /\ JStr "v2" = JStr FALLBACK_VOICE_ID)
                   \/ (rs_ok res = true
                       /\ exists data before item after id,
                            rs_json res = Some data
                            /\ prop "voices" (Some data)
                               = Some (JArr (before ++ item :: after))
                            /\ prop "voice_id" (Some item) = Some (JStr id)
                            /\ Forall
                                 (fun w =>
                                    w <> JNull
                                    /\ asString (prop "voice_id" (Some w))
                                       = None) before
                            /\ JStr "v2" = JStr id)))).
Proof.
  apply (resolve_voice_id_sound "key" (Some (JStr "")) (Some sampleVoices)
           (JStr "v2") [CallVoices "key"]).
  reflexivity.
Defined.

Lemma resolve_sent apiKey p voicesNet :
  snd (resolveVoiceId apiKey p voicesNet)
  = if truthyOpt p then [] else [CallVoices apiKey].
Proof.
  destruct (truthyOpt p) eqn:Hp.
  - destruct p as [v|]; [|discriminate Hp].
    now rewrite (resolve_preferred _ _ _ Hp).
  - rewrite (resolve_falsy _ _ _ Hp). apply resolve_lookup_sent.
Qed.

Lemma resolve_no_tts apiKey p voicesNet :
  ttsCalls (snd (resolveVoiceId apiKey p voicesNet)) = [].
Proof. rewrite resolve_sent. destruct (truthyOpt p); reflexivity. Qed.

Lemma ttsCalls_app a b : ttsCalls (a ++ b) = ttsCalls a ++ ttsCalls b.
Proof.
  induction a as [|x a IH]; [reflexivity|].
  destruct x; cbn [app ttsCalls]; now rewrite IH.
Qed.

Lemma requestText_cases body :
  requestText body = (Throws, [])
  \/ requestText body = (Returns None, [])
  \/ exists s, prop "text" (Some body) = Some (JStr s)
               /\ requestText body = (Returns (Some (trim s)), []).
Proof.
  destruct body as [|b|n|str|arr|fields]; cbn; auto.
  destruct (assoc "text" fields) as [[|b|n|str|arr|fs]|]; auto.
  right. right. exists str. auto.
Qed.

Lemma nextJson_cases body status :
  nextJson body status = (Returns (JsonResponse status body), [])
  \/ nextJson body status = (Throws, []).
Proof. unfold nextJson. destruct (_ && _); auto. Qed.

Lemma POST_cases reqJson envKey envVoice voicesNet ttsNet :
  let out := POST reqJson envKey envVoice voicesNet ttsNet in
  (ttsCalls (snd out) = []
   /\ exists msg,
        fst out = JsonResponse 500 (errorBody (JStr msg))
        \/ fst out = JsonResponse 400 (errorBody (JStr msg)))
  \/ (exists k body s v sentV,
        envKey = Some k /\ k <> ""%string
        /\ reqJson = Some body
        /\ prop "text" (Some body) = Some (JStr s)
        /\ trim s <> ""%string
        /\ resolveVoiceId k (requestVoice body envVoice) voicesNet
           = (Returns v, sentV)
        /\ snd out = sentV ++ [CallTts k v (trim s) (requestModel body)]
        /\ ((exists res a,
               ttsNet = Some res /\ rs_ok res = true
               /\ rs_arrayBuffer res = Some a
               /\ fst out = AudioResponse a)
            \/ fst out
               = JsonResponse 500 (errorBody (JStr "Internal Server Error"))
            \/ (exists res e,
                  ttsNet = Some res /\ rs_ok res = false
                  /\ (rs_json res = Some e
                      \/ option_map JStr (rs_text res) = Some e)
                  /\ fst out = JsonResponse (rs_status res) (errorBody e)))).
Proof.
  cbv zeta. unfold POST, POST_try.
  destruct reqJson as [body|];
    [|left; split; [reflexivity|]; eexists; left; reflexivity].
  cbn [routeTry routeRet routeBind app].
  destruct (requestText_cases body) as [Ht | [Ht | (s & Hs & Ht)]];
    rewrite Ht;
    try (left; split; [reflexivity|]; eexists; left; reflexivity).
  - (* no text *)
    left. cbn [routeBind app].
    destruct envKey as [k|]; [destruct (String.eqb k "")|];
      cbn; split; try reflexivity; eexists; auto.
  - cbn [routeBind app].
    destruct envKey as [k|];
      [|left; cbn; split; [reflexivity|]; eexists; left; reflexivity].
    destruct (String.eqb_spec k "") as [Hk|Hk];
      [left; cbn; split; [reflexivity|]; eexists; left; reflexivity|].
    destruct (String.eqb_spec (trim s) "") as [Hempty|Hempty];
      [left; cbn; split; [reflexivity|]; eexists; right; reflexivity|].
    pose proof (resolve_no_tts k (requestVoice body envVoice) voicesNet)
      as Hnt.
    destruct (resolveVoiceId k (requestVoice body envVoice) voicesNet)
      as [[v|] sentV] eqn:Er; cbn [snd] in Hnt;
      [|left; cbn [routeBind fst snd]; split; [exact Hnt|];
        eexists; left; reflexivity].
    right. exists k, body, s, v, sentV.
    split; [reflexivity|]. split; [exact Hk|]. split; [reflexivity|].
    split; [exact Hs|]. split; [exact Hempty|]. split; [exact Er|].
    cbn [routeBind].
    destruct ttsNet as [res|]; cbn [routeFetch routeBind];
      [|cbn; split; [reflexivity|]; right; left; reflexivity].
    destruct (rs_ok res) eqn:Hok; cbn [negb].
    + destruct (rs_arrayBuffer res) as [a|] eqn:Ea;
        cbn [routeTry routeRet routeThrow routeBind app fst snd].
      * split; [reflexivity|]. left. exists res, a. auto.
      * split; [reflexivity|]. right. left. reflexivity.
    + set (ct := match rs_contentType res with
                 | Some c => if String.eqb c "" then ""%string else c
                 | None => ""%string
                 end).
      set (ed := if includes "application/json" ct
                 then routeTry (rs_json res)
                 else routeTry (option_map JStr (rs_text res))).
      assert (Hed : ed = (Throws, [])
                    \/ exists e, ed = (Returns e, [])
                                 /\ (rs_json res = Some e
                                     \/ option_map JStr (rs_text res)
                                        = Some e)).
      { unfold ed. destruct (includes "application/json" ct).
        - destruct (rs_json res) as [e|]; [right; exists e|left]; auto.
        - destruct (option_map JStr (rs_text res)) as [e|];
            [right; exists e|left]; auto. }
      destruct Hed as [-> | (e & -> & He)];
        cbn [routeBind app fst snd];
        [split; [reflexivity|]; right; left; reflexivity|].
      destruct (nextJson_cases (errorBody e) (rs_status res)) as [-> | ->];
        cbn [app fst snd].
      * split; [reflexivity|]. right. right. exists res, e. auto.
      * split; [reflexivity|]. right. left. reflexivity.
Qed.

Lemma resolve_truthy apiKey p voicesNet v sent :
  resolveVoiceId apiKey p voicesNet = (Returns v, sent) -> truthy v = true.
Proof.
  intros H. destruct (truthyOpt p) eqn:Hp.
  - destruct p as [w|]; [|discriminate Hp]. cbn [truthyOpt] in Hp.
    rewrite (resolve_preferred _ _ _ Hp) in H. now injection H as <- _.
  - rewrite (resolve_falsy _ _ _ Hp) in H.
    destruct (resolve_lookup _ _ _ _ H) as (res & _ & Hc).
    destruct Hc as [(_ & _ & ->) | (_ & data & items & id & _ & _ & _ & Hne & ->)].
    + reflexivity.
    + cbn [truthy]. destruct (String.eqb_spec id ""); [contradiction|].
      reflexivity.
Qed.

Lemma In_ttsCalls k v t m sent :
  In (CallTts k v t m) sent -> In (CallTts k v t m) (ttsCalls sent).
Proof.
  induction sent as [|x sent IH]; [auto|].
  intros [-> | Hin].
  - left. reflexivity.
  - destruct x; cbn [ttsCalls]; [|right]; auto.
Qed.

(** *** What [trim] removes *)

Lemma startsWith_app w l :
  startsWith w l = true -> l = w ++ skipn (List.length w) l.
Proof.
  revert l. induction w as [|a w IH]; intros l H; [reflexivity|].
  destruct l as [|b l]; [discriminate H|]. cbn [startsWith] in H.
  apply andb_prop in H as [Hab Hw]. apply Ascii.eqb_eq in Hab. subst b.
  cbn [List.length skipn app]. f_equal. apply IH, Hw.
Qed.

Lemma startsWith_length w l :
  startsWith w l = true -> (List.length w <= List.length l)%nat.
Proof.
  intros H. apply startsWith_app in H.
  apply (f_equal (@List.length _)) in H. rewrite length_app in H. lia.
Qed.

Lemma startsWith_app_l w l r :
  startsWith w l = true -> startsWith w (l ++ r) = true.
Proof.
  revert l. induction w as [|a w IH]; intros l H; [reflexivity|].
  destruct l as [|b l]; [discriminate H|]. cbn [startsWith app] in *.
  apply andb_prop in H as [Hab Hw]. now rewrite Hab, (IH _ Hw).
Qed.

Lemma startsWithAny_true ws l :
  startsWithAny ws l = true -> exists w, In w ws /\ startsWith w l = true.
Proof. unfold startsWithAny. intros H. now apply existsb_exists in H. Qed.

Lemma startsWithAny_false ws l w :
  startsWithAny ws l = false -> In w ws -> startsWith w l = false.
Proof.
  unfold startsWithAny. intros H Hin.
  destruct (startsWith w l) eqn:E; [|reflexivity].
  assert (Ht : existsb (fun w => startsWith w l) ws = true)
    by (apply existsb_exists; eauto).
  congruence.
Qed.

Section Strip.
Variables w1 w2 w3 : list (list Ascii.ascii).
Hypothesis Hw1 : Forall (fun w => List.length w = 1%nat) w1.
Hypothesis Hw2 : Forall (fun w => List.length w = 2%nat) w2.
Hypothesis Hw3 : Forall (fun w => List.length w = 3%nat) w3.

Lemma startsWith_short (ws : list (list Ascii.ascii)) k w l :
  Forall (fun w => List.length w = k) ws ->
  (List.length l < k)%nat -> In w ws -> startsWith w l = false.
Proof.
  intros Hk Hl Hin. rewrite Forall_forall in Hk. specialize (Hk w Hin).
  destruct (startsWith w l) eqn:E; [|reflexivity].
  apply startsWith_length in E. lia.
Qed.

(** What is dropped is a run of the characters, and what is left begins
    with none of them. *)
Lemma stripLeading_spec (n : nat) : forall l,
  (List.length l <= n)%nat ->
  (exists ws,
     Forall (fun w => In w (w1 ++ w2 ++ w3)) ws
     /\ l = List.concat ws ++ stripLeading w1 w2 w3 l)
  /\ (forall w, In w (w1 ++ w2 ++ w3) ->
                startsWith w (stripLeading w1 w2 w3 l) = false).
Proof.
  induction n as [|n IH]; intros l Hlen.
  - destruct l; [|cbn in Hlen; lia]. split.
    + exists []. split; [constructor | reflexivity].
    + intros w Hin. cbn [stripLeading].
      apply in_app_or in Hin as [Hin | Hin];
        [|apply in_app_or in Hin as [Hin | Hin]].
      * apply (startsWith_short w1 1%nat); auto.
      * apply (startsWith_short w2 2%nat); auto.
      * apply (startsWith_short w3 3%nat); auto.
  - assert (Hdrop : forall w r,
              In w (w1 ++ w2 ++ w3) ->
              l = w ++ r -> (List.length r <= n)%nat ->
              stripLeading w1 w2 w3 l = stripLeading w1 w2 w3 r ->
              (exists ws,
                 Forall (fun w => In w (w1 ++ w2 ++ w3)) ws
                 /\ l = List.concat ws ++ stripLeading w1 w2 w3 l)
              /\ (forall w, In w (w1 ++ w2 ++ w3) ->
                            startsWith w (stripLeading w1 w2 w3 l) = false)).
    { intros w r Hin El Hr Es. destruct (IH r Hr) as [(ws & Hws & Er) Hno].
      rewrite Es. split; [|exact Hno].
      exists (w :: ws). split; [constructor; assumption|].
      cbn [List.concat]. rewrite <- app_assoc, <- Er. exact El. }
    assert (Hkeep :
              (forall w, In w w1 -> startsWith w l = false) ->
              (forall w, In w w2 -> startsWith w l = false) ->
              (forall w, In w w3 -> startsWith w l = false) ->
              stripLeading w1 w2 w3 l = l ->
              (exists ws,
                 Forall (fun w => In w (w1 ++ w2 ++ w3)) ws
                 /\ l = List.concat ws ++ stripLeading w1 w2 w3 l)
              /\ (forall w, In w (w1 ++ w2 ++ w3) ->
                            startsWith w (stripLeading w1 w2 w3 l) = false)).
    { intros H1 H2 H3 Es. rewrite Es. split.
      - exists []. split; [constructor | reflexivity].
      - intros w Hin.
        apply in_app_or in Hin as [Hin | Hin];
          [|apply in_app_or in Hin as [Hin | Hin]]; auto. }
    destruct l as [|a r1].
    { apply Hkeep; [| | |reflexivity]; intros w Hin.
      - apply (startsWith_short w1 1%nat); auto.
      - apply (startsWith_short w2 2%nat); auto.
      - apply (startsWith_short w3 3%nat); auto. }
    cbn [List.length] in Hlen.
    destruct (startsWithAny w1 (a :: r1)) eqn:E1.
    { destruct (startsWithAny_true _ _ E1) as (w & Hin & Hs).
      pose proof Hw1 as Hk. rewrite Forall_forall in Hk.
      specialize (Hk w Hin).
      apply startsWith_app in Hs. rewrite Hk in Hs. cbn [skipn] in Hs.
      apply (Hdrop w r1); [apply in_or_app; auto | exact Hs | lia|].
      cbn [stripLeading]. now rewrite E1. }
    assert (H1 : forall w, In w w1 -> startsWith w (a :: r1) = false)
      by (intros w; apply startsWithAny_false, E1).
    destruct r1 as [|b r2].
    { apply Hkeep; auto.
      - intros w Hin. apply (startsWith_short w2 2%nat); auto.
      - intros w Hin. apply (startsWith_short w3 3%nat); auto.
      - cbn [stripLeading]. now rewrite E1. }
    cbn [List.length] in Hlen.
    destruct (startsWithAny w2 (a :: b :: r2)) eqn:E2.
    { destruct (startsWithAny_true _ _ E2) as (w & Hin & Hs).
      pose proof Hw2 as Hk. rewrite Forall_forall in Hk.
      specialize (Hk w Hin).
      apply startsWith_app in Hs. rewrite Hk in Hs. cbn [skipn] in Hs.
      apply (Hdrop w r2);
        [apply in_or_app; right; apply in_or_app; auto | exact Hs | lia|].
      cbn [stripLeading]. now rewrite E1, E2. }
    assert (H2 : forall w, In w w2 -> startsWith w (a :: b :: r2) = false)
      by (intros w; apply startsWithAny_false, E2).
    destruct r2 as [|c r3].
    { apply Hkeep; auto.
      - intros w Hin. apply (startsWith_short w3 3%nat); auto.
      - cbn [stripLeading]. now rewrite E1, E2. }
    cbn [List.length] in Hlen.
    destruct (startsWithAny w3 (a :: b :: c :: r3)) eqn:E3.
    { destruct (startsWithAny_true _ _ E3) as (w & Hin & Hs).
      pose proof Hw3 as Hk. rewrite Forall_forall in Hk.
      specialize (Hk w Hin).
      apply startsWith_app in Hs. rewrite Hk in Hs. cbn [skipn] in Hs.
      apply (Hdrop w r3);
        [apply in_or_app; right; apply in_or_app; auto | exact Hs | lia|].
      cbn [stripLeading]. now rewrite E1, E2, E3. }
    apply Hkeep; auto.
    + intros w; apply startsWithAny_false, E3.
    + cbn [stripLeading]. now rewrite E1, E2, E3.
Qed.
End Strip.

Lemma rev_concat {A : Type} (ws : list (list A)) :
  rev (List.concat ws) = List.concat (map (@rev A) (rev ws)).
Proof.
  induction ws as [|w ws IH]; [reflexivity|].
  cbn [List.concat rev]. rewrite rev_app_distr, IH, map_app, concat_app.
  cbn [map List.concat]. now rewrite app_nil_r.
Qed.

Lemma white_lengths :
  Forall (fun w => List.length w = 1%nat) white1
  /\ Forall (fun w => List.length w = 2%nat) white2
  /\ Forall (fun w => List.length w = 3%nat) white3
  /\ Forall (fun w => List.length w = 1%nat) (map (@rev _) white1)
  /\ Forall (fun w => List.length w = 2%nat) (map (@rev _) white2)
  /\ Forall (fun w => List.length w = 3%nat) (map (@rev _) white3).
Proof.
  unfold white1, white2, white3, utf8. cbn [map rev app].
  repeat split; repeat constructor.
Qed.

(** [trim] takes a run of white space from each end, and what it returns
    neither begins nor ends with a white-space character. *)
Lemma trim_spec (s : string) :
  exists lead trail,
    bytesOf s = lead ++ bytesOf (trim s) ++ trail
    /\ AllWhite lead
    /\ AllWhite trail
    /\ forall w, In w whiteSpace ->
                 startsWith w (bytesOf (trim s)) = false
                 /\ endsWith w (bytesOf (trim s)) = false.
Proof.
  destruct white_lengths as (L1 & L2 & L3 & R1 & R2 & R3).
  unfold trim, bytesOf. rewrite list_ascii_of_string_of_list_ascii.
  set (l := list_ascii_of_string s).
  destruct (stripLeading_spec white1 white2 white3 L1 L2 L3
              (List.length l) l (le_n _)) as [(ws & Hws & El) Hpre].
  fold (trimStart l) in El, Hpre. set (m := trimStart l) in *.
  destruct (stripLeading_spec _ _ _ R1 R2 R3 (List.length (rev m)) (rev m)
              (le_n _)) as [(ws' & Hws' & Em) Hsuf].
  assert (Et : rev (stripLeading (map (@rev _) white1) (map (@rev _) white2)
                      (map (@rev _) white3) (rev m)) = trimEnd m)
    by reflexivity.
  assert (Em' : m = trimEnd m ++ List.concat (map (@rev _) (rev ws'))).
  { rewrite <- (rev_involutive m) at 1. rewrite Em at 1.
    rewrite rev_app_distr, Et. f_equal. apply rev_concat. }
  exists (List.concat ws), (List.concat (map (@rev _) (rev ws'))).
  split; [rewrite <- Em'; exact El|].
  split; [exists ws; split; [exact Hws | reflexivity]|].
  split.
  - exists (map (@rev _) (rev ws')). split; [|reflexivity].
    apply Forall_forall. intros w Hin.
    apply in_map_iff in Hin as (w' & <- & Hin').
    apply in_rev in Hin'. rewrite Forall_forall in Hws'.
    specialize (Hws' w' Hin').
    rewrite <- !map_app in Hws'. apply in_map_iff in Hws' as (w0 & <- & H0).
    rewrite rev_involutive. exact H0.
  - intros w Hin. split.
    + destruct (startsWith w (trimEnd m)) eqn:E; [|reflexivity].
      apply (startsWith_app_l _ _ (List.concat (map (@rev _) (rev ws'))))
        in E.
      rewrite <- Em' in E. rewrite (Hpre w Hin) in E. discriminate E.
    + unfold endsWith. rewrite <- Et, rev_involutive.
      apply Hsuf. rewrite <- !map_app. apply in_map. exact Hin.
Qed.

(** X22.  The speech route asks ElevenLabs for speech only with a
    configured, non-empty API key, a truthy voice id and a non-empty text,
    and at most once per request, whatever the request body, the
    environment and the network are.  The text is the request's [text]
    string without the runs of white space at its two ends: it neither
    begins nor ends with a WhiteSpace or LineTerminator character. *)
Theorem speech_request_guarded (reqJson : option JSON)
    (envKey envVoice : option string) (voicesNet ttsNet : option Response)
    (k : string) (v : JSON) (t : string) (m : JSON) :
  In (CallTts k v t m) (snd (POST reqJson envKey envVoice voicesNet ttsNet)) ->
  envKey = Some k
  /\ k <> ""%string
  /\ t <> ""%string
  /\ truthy v = true
  /\ (exists body s lead trail,
        reqJson = Some body
        /\ prop "text" (Some body) = Some (JStr s)
        /\ bytesOf s = lead ++ bytesOf t ++ trail
        /\ AllWhite lead
        /\ AllWhite trail
        /\ (forall w, In w whiteSpace ->
                      startsWith w (bytesOf t) = false
                      /\ endsWith w (bytesOf t) = false)
        /\ m = requestModel body)
  /\ ttsCalls (snd (POST reqJson envKey envVoice voicesNet ttsNet))
     = [CallTts k v t m].
Proof.
  intros Hin. apply In_ttsCalls in Hin.
  pose proof (POST_cases reqJson envKey envVoice voicesNet ttsNet) as H.
  cbv zeta in H.
  destruct H as [[Hnone _]
                | (k' & body & s & v' & sentV & Hkey & Hk & Hreq & Hs & Hne
                   & Hr & Hsent & _)].
  - rewrite Hnone in Hin. destruct Hin.
  - pose proof (resolve_no_tts k' (requestVoice body envVoice) voicesNet)
      as Hnt.
    rewrite Hr in Hnt. cbn [snd] in Hnt.
    rewrite Hsent, ttsCalls_app, Hnt in Hin |- *.
    cbn [ttsCalls app] in Hin |- *.
    destruct Hin as [E | []]. injection E as E1 E2 E3 E4. subst k' v' t m.
    split; [exact Hkey|]. split; [exact Hk|]. split; [exact Hne|].
    split; [exact (resolve_truthy _ _ _ _ _ Hr)|].
    split; [|reflexivity].
    destruct (trim_spec s) as (lead & trail & Hsplit & Hl & Ht & Hends).
    exists body, s, lead, trail.
    split; [exact Hreq|]. split; [exact Hs|]. split; [exact Hsplit|].
    split; [exact Hl|]. split; [exact Ht|]. split; [exact Hends|].
    reflexivity.
Qed.

Lemma speech_request_guarded_witness :
  ttsCalls (snd (POST (Some sampleRequest) (Some "key"%string) None None
                   (Some sampleRejection)))
  = [CallTts "key" (JStr "v1") "Hello" (JStr DEFAULT_MODEL_ID)].
Proof.
  apply (speech_request_guarded (Some sampleRequest) (Some "key"%string)
           None None (Some sampleRejection)
           "key" (JStr "v1") "Hello" (JStr DEFAULT_MODEL_ID)).
  vm_compute. left. reflexivity.
Defined.

(** X23.  Every JSON answer of the speech route is an error answer that
    the tracker's [speak] can read: its status is not an ok status, its
    body is an object with the single key 'error', and
    [extractSpeakErrorMessage] does not throw on it but returns the string
    at [error.detail.message], if any.  A 401 or 403 status is the status
    that ElevenLabs gave to the request for speech, and it is one on which
    [speak] switches ElevenLabs off. *)
Theorem route_error_reaches_client (reqJson : option JSON)
    (envKey envVoice : option string) (voicesNet ttsNet : option Response)
    (status : Z) (body : JSON) :
  fst (POST reqJson envKey envVoice voicesNet ttsNet)
  = JsonResponse status body ->
  ((status < 200)%Z \/ (299 < status)%Z)
  /\ exists e,
       body = errorBody e
       /\ extractSpeakErrorMessage body
          = Returns (asString (prop "message" (prop "detail" (Some e))))
       /\ ((status = 401%Z \/ status = 403%Z) ->
           rejectsKey (RespError status (Some body)) = true
           /\ exists res,
                ttsNet = Some res /\ rs_status res = status
                /\ (rs_json res = Some e
                    \/ option_map JStr (rs_text res) = Some e)).
Proof.
  intros Hout.
  assert (Hread : forall e,
            extractSpeakErrorMessage (errorBody e)
            = Returns (asString (prop "message" (prop "detail" (Some e)))))
    by reflexivity.
  assert (Hrej : forall e,
            (status = 401%Z \/ status = 403%Z) ->
            rejectsKey (RespError status (Some (errorBody e))) = true).
  { intros e Hst. cbn [rejectsKey]. rewrite Hread.
    destruct Hst as [-> | ->]; reflexivity. }
  pose proof (POST_cases reqJson envKey envVoice voicesNet ttsNet) as H.
  cbv zeta in H. rewrite Hout in H.
  destruct H as [[_ (msg & [E | E])]
                | (k & b & s & v & sentV & _ & _ & _ & _ & _ & _ & _ & H)].
  - injection E as -> ->. split; [lia|].
    exists (JStr msg). split; [reflexivity|]. split; [apply Hread|].
    intros [Hx | Hx]; discriminate Hx.
  - injection E as -> ->. split; [lia|].
    exists (JStr msg). split; [reflexivity|]. split; [apply Hread|].
    intros [Hx | Hx]; discriminate Hx.
  - destruct H as [(res & a & _ & _ & _ & E) | [E | (res & e & Hnet & Hok & He & E)]].
    + discriminate E.
    + injection E as -> ->. split; [lia|].
      exists (JStr "Internal Server Error"). split; [reflexivity|].
      split; [apply Hread|]. intros [Hx | Hx]; discriminate Hx.
    + injection E as -> ->. split.
      * unfold rs_ok in Hok.
        destruct (Z.leb_spec 200 (rs_status res));
          destruct (Z.leb_spec (rs_status res) 299);
          try discriminate Hok; lia.
      * exists e. split; [reflexivity|]. split; [apply Hread|].
        intros Hst. split; [apply Hrej; exact Hst|].
        exists res. auto.
Qed.

Lemma route_error_reaches_client_witness :
  rejectsKey
    (RespError 401
       (Some (errorBody
                (JObj [("detail"%string,
                        JObj [("status"%string, JStr "invalid_api_key");
                              ("message"%string,
                               JStr "Invalid API key")])]))))
  = true.
Proof.
  destruct (route_error_reaches_client (Some sampleRequest)
              (Some "key"%string) None None (Some sampleRejection)
              401
              (errorBody
                 (JObj [("detail"%string,
                         JObj [("status"%string, JStr "invalid_api_key");
                               ("message"%string,
                                JStr "Invalid API key")])]))
              eq_refl) as (_ & e & _ & _ & H).
  destruct (H (or_introl eq_refl)) as [Hr _]. exact Hr.
Defined.
